(** * Sports Stats Dashboard: data source, utilities and controller

    A shallow embedding of [js/api.js], [js/utils.js] and [js/app.js],
    with the properties of their specification proved over it.

    JavaScript numbers are IEEE-754 binary64 values; they are modelled by
    the Standard Library's [spec_float] at precision 53, so that a quotient
    such as [wins / total] is the double the engine computes.  Strings are
    sequences of bytes (UTF-8); every string the program handles itself is
    ASCII. *)

From Stdlib Require Import ZArith String Ascii List Lia Bool Permutation.
From Stdlib Require Import Floats.SpecFloat.
From Stdlib Require Import DecimalString.
From Stdlib Require DecimalPos DecimalN DecimalFacts.
From stdpp Require Import gmap strings list sorting.

Open Scope string_scope.
Open Scope Z_scope.

(** ** JavaScript numbers *)

Module Number.

Definition prec : Z := 53.
Definition emax : Z := 1024.

Abbreviation number := spec_float.

Definition NaN : number := S754_nan.
Definition zero : number := S754_zero false.

(** The Number value for an integer: the nearest double (exact below 2^53). *)
Definition of_Z (z : Z) : number := binary_normalize prec emax z 0 false.

(** [x + y], [x / y], [x === y], [x < y] and [x > y] on numbers. *)
Definition add (x y : number) : number := SFadd prec emax x y.
Definition div (x y : number) : number := SFdiv prec emax x y.
Definition eqb (x y : number) : bool := SFeqb x y.
Definition ltb (x y : number) : bool := SFltb x y.
Definition gtb (x y : number) : bool := SFltb y x.

(** ToBoolean on a number: [0], [-0] and [NaN] are falsy. *)
Definition truthy (x : number) : bool :=
  match x with
  | S754_zero _ | S754_nan => false
  | _ => true
  end.

(** [x || d] for a number [x]. *)
Definition or_else (x d : number) : number := if truthy x then x else d.

(** Decimal digits of a non-negative integer ("0" for zero). *)
Definition digits (n : Z) : string := NilZero.string_of_uint (N.to_uint (Z.to_N n)).

Fixpoint zeros (k : nat) : string :=
  match k with
  | O => ""
  | S k' => String "0" (zeros k')
  end.

(** Left-pad with zeros to at least [k] characters. *)
Definition pad_left (k : nat) (s : string) : string :=
  zeros (k - String.length s) +:+ s.

(** The digits of [n / 1000] with exactly three decimals, as
    Number.prototype.toFixed(3) lays them out: the digits of [n],
    padded to four characters, with a point before the last three. *)
Definition fixed3 (n : Z) : string :=
  let m := pad_left 4 (digits n) in
  let k := (String.length m - 3)%nat in
  substring 0 k m +:+ "." +:+ substring k 3 m.

(** The integer [n] for which [n / 1000 - x] is as close to zero as
    possible, the larger one on a tie, for the exact value
    [x = m * 2^e] of a positive finite double. *)
Definition thousandths (m : positive) (e : Z) : Z :=
  match e with
  | Zneg p => (2 * 1000 * Zpos m + 2 ^ Zpos p) / 2 ^ (Zpos p + 1)
  | _ => 1000 * Zpos m * 2 ^ e
  end.

(** [x >= 10^21] for a positive finite double [m * 2^e]. *)
Definition at_least_1e21 (m : positive) (e : Z) : bool :=
  match e with
  | Zneg p => 10 ^ 21 * 2 ^ Zpos p <=? Zpos m
  | _ => 10 ^ 21 <=? Zpos m * 2 ^ e
  end.

(** *** Number::toString for an integral double of magnitude at least 10^21

    The shortest decimal [s * 10^(n-k)] that reads back as the same
    double, printed in exponential notation. *)

Definition ndigits (z : Z) : Z := Z.of_nat (String.length (digits z)).

(** The candidates with [k] significant digits next to [X]. *)
Definition candidates (X : Z) (k : Z) : list (Z * Z) :=
  let D := ndigits X in
  let p := 10 ^ (D - k) in
  let lo := X / p in
  let hi := lo + 1 in
  (lo, D) :: (if hi =? 10 ^ k then (10 ^ (k - 1), D + 1) else (hi, D)) :: nil.

Definition cand_value (c : Z * Z) (k : Z) : Z := fst c * 10 ^ (snd c - k).

Definition reads_back (x : number) (k : Z) (c : Z * Z) : bool :=
  match x, of_Z (cand_value c k) with
  | S754_finite s m e, S754_finite s' m' e' =>
      Bool.eqb s s' && Pos.eqb m m' && Z.eqb e e'
  | _, _ => false
  end.

Definition closest (X k : Z) (cs : list (Z * Z)) : option (Z * Z) :=
  match cs with
  | c1 :: c2 :: _ =>
      if Z.abs (cand_value c2 k - X) <? Z.abs (cand_value c1 k - X)
      then Some c2 else Some c1
  | c :: _ => Some c
  | nil => None
  end.

Fixpoint shortest (fuel : nat) (x : number) (X k : Z) : option (Z * Z * Z) :=
  match fuel with
  | O => None
  | S fuel' =>
      match closest X k (List.filter (reads_back x k) (candidates X k)) with
      | Some (s, n) => Some (s, n, k)
      | None => shortest fuel' x X (k + 1)
      end
  end.

Definition exponential (s n k : Z) : string :=
  let ds := digits s in
  let mant := if k =? 1 then ds
              else substring 0 1 ds +:+ "." +:+ substring 1 (Z.to_nat k - 1) ds in
  mant +:+ "e+" +:+ digits (n - 1).

Definition toString_large (m : positive) (e : Z) : string :=
  let X := Zpos m * 2 ^ e in
  match shortest 17 (S754_finite false m e) X 1 with
  | Some (s, n, k) => exponential s n k
  | None => digits X
  end.

(** Number.prototype.toFixed(3). *)
Definition toFixed3 (x : number) : string :=
  match x with
  | S754_nan => "NaN"
  | S754_infinity s => (if s then "-" else "") +:+ "Infinity"
  | S754_zero _ => "0.000"
  | S754_finite s m e =>
      (if s then "-" else "") ++
      (if at_least_1e21 m e then toString_large m e
       else fixed3 (thousandths m e))
  end.

(** *** parseFloat

    The longest prefix of the trimmed string that is a decimal literal
    (sign, digits, fraction, exponent, or [Infinity]), rounded to the
    nearest double; [NaN] when there is none. *)

Definition is_digit (c : ascii) : bool :=
  let n := Z.of_nat (nat_of_ascii c) in (48 <=? n) && (n <=? 57).

Definition is_space (c : ascii) : bool :=
  let n := Z.of_nat (nat_of_ascii c) in
  ((9 <=? n) && (n <=? 13)) || (n =? 32).

Fixpoint trim_start (s : string) : string :=
  match s with
  | String c s' => if is_space c then trim_start s' else s
  | EmptyString => s
  end.

(** Reads a run of digits: its value on top of [acc], its length on top
    of [cnt], and the rest of the string. *)
Fixpoint read_digits (acc cnt : Z) (s : string) : Z * Z * string :=
  match s with
  | String c s' =>
      if is_digit c
      then read_digits (10 * acc + (Z.of_nat (nat_of_ascii c) - 48)) (cnt + 1) s'
      else (acc, cnt, s)
  | EmptyString => (acc, cnt, s)
  end.

Definition read_sign (s : string) : bool * string :=
  match s with
  | String "-" s' => (true, s')
  | String "+" s' => (false, s')
  | _ => (false, s)
  end.

(** The exponent part [e[+-]digits], zero when it is absent or cut short. *)
Definition read_exponent (s : string) : Z :=
  match s with
  | String c s' =>
      if (Ascii.eqb c "e" || Ascii.eqb c "E")%bool then
        let '(neg, s'') := read_sign s' in
        let '(v, cnt, _) := read_digits 0 0 s'' in
        if cnt =? 0 then 0 else if neg then - v else v
      else 0
  | EmptyString => 0
  end.

(** The double nearest to [n * 10^e], for [n > 0]. *)
Definition of_decimal (neg : bool) (n : positive) (e : Z) : number :=
  match e with
  | Zneg p =>
      SFdiv prec emax (S754_finite neg n 0)
                      (S754_finite false (Z.to_pos (10 ^ Zpos p)) 0)
  | _ => binary_normalize prec emax
           ((if neg then -1 else 1) * (Zpos n * 10 ^ e)) 0 false
  end.

Definition parseFloat (s : string) : number :=
  let '(neg, s1) := read_sign (trim_start s) in
  if String.prefix "Infinity" s1 then S754_infinity neg
  else
    let '(ip, icnt, s2) := read_digits 0 0 s1 in
    let '(v, fcnt, s3) :=
      match s2 with
      | String "." s2' => read_digits ip 0 s2'
      | _ => (ip, 0, s2)
      end in
    if (icnt =? 0) && (fcnt =? 0) then NaN
    else
      match v with
      | Zpos n => of_decimal neg n (read_exponent s3 - fcnt)
      | _ => S754_zero neg
      end.

End Number.

Abbreviation number := spec_float.

(** ** Computations

    A JavaScript computation of the program may draw from [Math.random],
    let time pass (the [await] of a timer or of a network response),
    throw, or hang.  [Math.random] is modelled by a tape of draws:
    the i-th call returns the double [ticks / 2^53] where [ticks] is the
    i-th tape entry reduced to 53 bits, and [Math.floor(u * n)] is computed
    on that exact value.  An [await] of an async call is sequential
    composition: a rejection surfaces as a throw at the [await]. *)

Module Js.

Inductive error :=
| TypeError (message : string)
| SyntaxError (message : string)
| Error (message : string).

Definition message (e : error) : string :=
  match e with
  | TypeError m | SyntaxError m | Error m => m
  end.

Definition tape := nat -> Z.

(** The position on the tape and the milliseconds elapsed so far. *)
Record state := { cursor : nat; elapsed : Z }.

(** A computation returns a value, throws, or hangs (a loop that does
    not end), each in some state. *)
Inductive outcome (A : Type) :=
| Normal (a : A) (st : state)
| Throw (e : error) (st : state)
| Hang (st : state).
Arguments Normal {A} a st.
Arguments Throw {A} e st.
Arguments Hang {A} st.

Definition M (A : Type) : Type := tape -> state -> outcome A.

Definition ret {A} (a : A) : M A := fun _ st => Normal a st.

Definition throw {A} (e : error) : M A := fun _ st => Throw e st.

Definition hang {A} : M A := fun _ st => Hang st.

Definition bind {A B} (m : M A) (k : A -> M B) : M B :=
  fun tp st =>
    match m tp st with
    | Normal a st' => k a tp st'
    | Throw e st' => Throw e st'
    | Hang st' => Hang st'
    end.

(** [try { m } catch (e) { h e }]. *)
Definition try_catch {A} (m : M A) (h : error -> M A) : M A :=
  fun tp st =>
    match m tp st with
    | Throw e st' => h e tp st'
    | r => r
    end.

(** [Math.random()], as the numerator [ticks] of [ticks / 2^53]. *)
Definition Math_random : M Z :=
  fun tp st =>
    Normal (tp (cursor st) mod 2 ^ 53)
           {| cursor := S (cursor st); elapsed := elapsed st |}.

(** [Math.floor(u * n)] for the draw [u = ticks / 2^53]. *)
Definition floor_scaled (ticks n : Z) : Z := ticks * n / 2 ^ 53.

(** [await delay(ms)]: the timer of [ms] milliseconds elapses. *)
Definition delay (ms : Z) : M unit :=
  fun _ st => Normal tt {| cursor := cursor st; elapsed := elapsed st + ms |}.

(** [array.map(f)] for a callback with effects, left to right, the
    callback receiving the element and its index. *)
Fixpoint mapi_from {A B} (f : A -> Z -> M B) (i : Z) (l : list A) : M (list B) :=
  match l with
  | nil => ret nil
  | x :: l' =>
      bind (f x i) (fun y =>
      bind (mapi_from f (i + 1) l') (fun ys =>
      ret (y :: ys)))
  end.

Definition mapi {A B} (f : A -> Z -> M B) (l : list A) : M (list B) :=
  mapi_from f 0 l.

Definition start : state := {| cursor := O; elapsed := 0 |}.

End Js.

Notation "'do' x <- m ; k" := (Js.bind m (fun x => k))
  (at level 10, x name, m at level 100, k at level 200).

(** ** js/utils.js *)

Module Utils.

Import Number Js.

(** [calculateWinPercentage(wins, losses)] *)
Definition calculateWinPercentage (wins losses : number) : string :=
  let total := add wins losses in
  if eqb total zero then "0.000"
  else toFixed3 (div wins total).

(** [getRandomInt(min, max)] for integer bounds, on which [Math.ceil(min)]
    and [Math.floor(max)] are the identity.  The product and the sum are
    taken exactly here; the program takes them on doubles, where the
    product is rounded before [Math.floor], so that for some draws the
    double result is the next integer up.  For integers [min] and [max]
    of magnitude at most 2^53 and less than 2^52 apart, as all the
    bounds the program passes, the double result lies between the same
    bounds and reaches each integer between them. *)
Definition getRandomInt (min max : Z) : M Z :=
  do u <- Math_random;
  ret (floor_scaled u (max - min + 1) + min).

(** [getRandomElement(array)]; [None] is [undefined], the element read
    at index 0 of an empty array. *)
Definition getRandomElement {A} (array : list A) : M (option A) :=
  do u <- Math_random;
  ret (array !! Z.to_nat (floor_scaled u (Z.of_nat (length array)))).

(** [Array.prototype.sort(comparefn)]: a stable sort that places [x] after
    [y] when [comparefn(x, y) > 0].  When the comparator is a consistent
    order every sorting algorithm returns this array. *)
Fixpoint sort_insert {A} (comparefn : A -> A -> Z) (x : A) (l : list A) : list A :=
  match l with
  | nil => [x]
  | y :: l' =>
      if 0 <? comparefn x y then y :: sort_insert comparefn x l'
      else x :: l
  end.

Fixpoint Array_sort {A} (comparefn : A -> A -> Z) (l : list A) : list A :=
  match l with
  | nil => nil
  | x :: l' => sort_insert comparefn x (Array_sort comparefn l')
  end.

(** [aVal > bVal] for property values read from objects; a missing
    property is [undefined], which compares false with everything.  The
    values are of any type [V] with its [>]; [a < b] is [b > a]. *)
Definition value_gt {V} (gt : V -> V -> bool) (aVal bVal : option V) : bool :=
  match aVal, bVal with
  | Some x, Some y => gt x y
  | _, _ => false
  end.

Definition value_lt {V} (gt : V -> V -> bool) (aVal bVal : option V) : bool :=
  value_gt gt bVal aVal.

(** [sortByProperty(array, property, ascending)] *)
Definition sortByProperty {V} (gt : V -> V -> bool)
    (array : list (gmap string V)) (property : string) (ascending : bool)
  : list (gmap string V) :=
  Array_sort
    (fun a b =>
       let aVal := a !! property in
       let bVal := b !! property in
       if ascending
       then (if value_gt gt aVal bVal then 1 else -1)
       else (if value_lt gt aVal bVal then 1 else -1))
    array.

End Utils.

(** ** Data model *)

(** A property of the response body that the program uses as a number:
    absent ([undefined]), [null], or a number. *)
Inductive leaf :=
| Absent
| Null
| Num (x : number).

(** ToNumber and ToBoolean on such a value, and [v || d]. *)
Definition leaf_number (v : leaf) : number :=
  match v with
  | Absent => Number.NaN
  | Null => Number.zero
  | Num x => x
  end.

Definition leaf_truthy (v : leaf) : bool :=
  match v with
  | Num x => Number.truthy x
  | _ => false
  end.

Definition leaf_or (v : leaf) (d : number) : number :=
  if leaf_truthy v then leaf_number v else d.

(** [a || b] on strings that may be absent: the empty string is falsy. *)
Definition string_truthy (s : option string) : bool :=
  match s with
  | Some (String _ _) => true
  | _ => false
  end.

Definition string_or (a b : option string) : option string :=
  if string_truthy a then a else b.

(** The [date] of a game: the ISO form of an instant, in milliseconds since
    the epoch; of the instant that [setDate] makes of the instant [ms]
    when it sets the day of the month back by [days], on the calendar of
    the local time zone; or the [startTime] the endpoint gave. *)
Inductive date_value :=
| Instant (ms : Z)
| DaysBefore (ms : Z) (days : Z)
| StartTime (s : option string).

(** The instant of [DaysBefore ms days], by [Date.prototype.getDate] and
    [Date.prototype.setDate]: the local time of [ms] is moved back by
    [days] whole days and read as a local time again.  [localTZA t true]
    is the offset of the zone at the instant [t], and [localTZA t false]
    the offset it has at the local time [t]. *)
Definition setDate_back (localTZA : Z -> bool -> Z) (ms days : Z) : Z :=
  let t := ms + localTZA ms true in
  let newDate := t - days * 86400000 in
  newDate - localTZA newDate false.

Module Standing.
Record t := {
  id : leaf;
  name : option string;
  wins : number;
  losses : number;
  winPct : number;
  streak : string;
  points : number;
  gamesPlayed : number
}.
End Standing.

Module Game.
Record t := {
  id : leaf;
  homeTeam : option string;
  awayTeam : option string;
  homeScore : number;
  awayScore : number;
  date : date_value;
  status : string;
  winner : option string
}.
End Game.

Module Stats.
Record t := {
  totalTeams : number;
  gamesToday : number;
  topScorer : option string;
  avgScore : number
}.
End Stats.

(** The result objects of the fetch functions. *)
Record result (A : Type) := {
  success : bool;
  data : A;
  league : string;
  source : option string;
  timestamp : Z
}.
Arguments success {A} r.
Arguments data {A} r.
Arguments league {A} r.
Arguments source {A} r.
Arguments timestamp {A} r.

Record dataset := {
  all_success : bool;
  standings : list Standing.t;
  games : list Game.t;
  stats : Stats.t;
  all_league : string;
  all_timestamp : Z
}.

(** ** js/config-public.js and the configuration template *)

Record api_config := {
  API_KEY : option string;
  BASE_URL : string;
  SEASON : string;
  LEAGUES : list (string * string);
  timeout : Z;
  retries : Z;
  format : string
}.

Definition config_public : api_config := {|
  API_KEY := None;
  BASE_URL := "https://api.mysportsfeeds.com/v2.1/pull";
  SEASON := "2024-2025-regular";
  LEAGUES := [("NBA", "nba"); ("NFL", "nfl"); ("MLB", "mlb"); ("NHL", "nhl")];
  timeout := 10000;
  retries := 3;
  format := "json"
|}.

Definition config_template : api_config := {|
  API_KEY := Some "YOUR_MYSPORTSFEEDS_API_KEY_HERE";
  BASE_URL := "https://api.mysportsfeeds.com/v2.1/pull";
  SEASON := "2024-2025-regular";
  LEAGUES := [("NBA", "nba"); ("NFL", "nfl"); ("MLB", "mlb"); ("NHL", "nhl")];
  timeout := 10000;
  retries := 3;
  format := "json"
|}.

(** ** The network

    What the endpoint answers is given by the environment.  A response body
    is read only through the properties the transforms use, so it is typed
    by them: a property that is [undefined] or [null] where an object or an
    array is dereferenced is [None] (the dereference throws a TypeError), and
    an entry that is not an object reads as one without properties. *)

Record raw_team := {
  team_id : leaf;
  abbreviation : option string;
  city : option string
}.

Record raw_stats := {
  stats_wins : leaf;
  stats_losses : leaf;
  stats_streak : option string;
  stats_pointsFor : leaf;
  stats_gamesPlayed : leaf
}.

Record raw_standing := {
  standing_team : option raw_team;
  standing_stats : option raw_stats
}.

Record raw_schedule := {
  schedule_id : leaf;
  schedule_homeTeam : option raw_team;
  schedule_awayTeam : option raw_team;
  startTime : option string;
  playedStatus : option string
}.

Record raw_score := {
  homeScoreTotal : leaf;
  awayScoreTotal : leaf
}.

Record raw_game := {
  game_schedule : option raw_schedule;
  game_score : option raw_score
}.

(** The parsed body: its [standings] and [games] arrays, [None] when the
    property is missing or is not an array. *)
Record json_body := {
  body_standings : option (list (option raw_standing));
  body_games : option (list (option raw_game))
}.

Inductive http_body :=
| NotJson
| Json (data : json_body).

Inductive fetch_outcome :=
| NetworkFailure (latency : Z) (message : string)
| Response (latency : Z) (status : Z) (statusText : string) (body : http_body).

Record request := {
  url : string;
  method : string;
  credentials : string;
  accept : string;
  request_timeout : Z
}.

Record environment := {
  API_CONFIG : api_config;
  fetch : request -> fetch_outcome;
  now : Z
}.

(** ** Strings *)

(** [toLowerCase] and [toUpperCase] on the ASCII letters; other bytes are
    kept.  No character outside ASCII lowers to a letter of "nba", "nfl",
    "mlb" or "epl", so the league switch is decided on the ASCII letters. *)
Definition lower_ascii (c : ascii) : ascii :=
  let n := nat_of_ascii c in
  if ((65 <=? n) && (n <=? 90))%nat then ascii_of_nat (n + 32) else c.

Definition upper_ascii (c : ascii) : ascii :=
  let n := nat_of_ascii c in
  if ((97 <=? n) && (n <=? 122))%nat then ascii_of_nat (n - 32) else c.

Fixpoint map_string (f : ascii -> ascii) (s : string) : string :=
  match s with
  | EmptyString => EmptyString
  | String c s' => String (f c) (map_string f s')
  end.

Definition toLowerCase (s : string) : string := map_string lower_ascii s.
Definition toUpperCase (s : string) : string := map_string upper_ascii s.

(** ** js/api.js *)

Module Api.

Import Number Js Utils.

Definition NBA_TEAMS : list string :=
  ["Lakers"; "Celtics"; "Warriors"; "Nets"; "Bucks"; "Heat";
   "Suns"; "Nuggets"; "Mavericks"; "Clippers"; "76ers"; "Raptors"].

Definition NFL_TEAMS : list string :=
  ["Chiefs"; "Bills"; "49ers"; "Eagles"; "Cowboys"; "Bengals";
   "Patriots"; "Packers"; "Ravens"; "Steelers"; "Rams"; "Seahawks"].

Definition MLB_TEAMS : list string :=
  ["Yankees"; "Dodgers"; "Red Sox"; "Astros"; "Braves"; "Cubs";
   "Cardinals"; "Giants"; "Mets"; "Phillies"; "Rays"; "Blue Jays"].

Definition EPL_TEAMS : list string :=
  ["Man City"; "Arsenal"; "Liverpool"; "Chelsea"; "Man United"; "Tottenham";
   "Newcastle"; "Brighton"; "Aston Villa"; "West Ham"; "Leicester"; "Everton"].

(** [createAuthHeaders()] and the request of [fetchFromMySportsFeeds]:
    the credentials are the API key and the fixed password, before their
    base64 encoding. *)
Definition key_text (k : option string) : string :=
  match k with
  | Some s => s
  | None => "null"
  end.

Definition make_request (cfg : api_config) (endpoint league : string) : request := {|
  url := BASE_URL cfg +:+ "/" +:+ league +:+ "/" +:+ SEASON cfg +:+ "/"
         +:+ endpoint +:+ ".json";
  method := "GET";
  credentials := key_text (API_KEY cfg) +:+ ":MYSPORTSFEEDS";
  accept := "application/json";
  request_timeout := timeout cfg
|}.

(** [response.ok] *)
Definition ok (status : Z) : bool := (200 <=? status) && (status <=? 299).

(** [fetchFromMySportsFeeds(endpoint, league)] *)
Definition fetchFromMySportsFeeds (env : environment) (endpoint league : string)
  : M json_body :=
  try_catch
    (match fetch env (make_request (API_CONFIG env) endpoint league) with
     | NetworkFailure latency msg =>
         do _ <- delay latency;
         throw (TypeError msg)
     | Response latency status statusText body =>
         do _ <- delay latency;
         if negb (ok status)
         then throw (Error ("API Error: " +:+ digits status +:+ " " +:+ statusText))
         else match body with
              | NotJson => throw (SyntaxError "Unexpected token in JSON")
              | Json data => ret data
              end
     end)
    (fun error => throw error).

(** [isAPIConfigured()] *)
Definition isAPIConfigured (cfg : api_config) : bool :=
  string_truthy (API_KEY cfg)
  && negb (bool_decide (API_KEY cfg = Some "YOUR_API_KEY_HERE"))
  && negb (bool_decide (API_KEY cfg = Some "YOUR_MYSPORTSFEEDS_API_KEY_HERE")).

(** [simulateNetworkDelay(minMs, maxMs)] *)
Definition simulateNetworkDelay (minMs maxMs : Z) : M unit :=
  do delayTime <- getRandomInt minMs maxMs;
  delay delayTime.

(** [new Date().getTime()] *)
Definition Date_now (env : environment) : M Z :=
  fun _ st => Normal (now env + elapsed st) st.

(** The callback of [teams.map(...)] in [generateMockTeams]. *)
Definition mock_team (name : string) (index : Z) : M Standing.t :=
  do wins <- getRandomInt 5 45;
  do losses <- getRandomInt 5 45;
  let wins := of_Z wins in
  let losses := of_Z losses in
  let total := add wins losses in
  let winPct := toFixed3 (div wins total) in
  do streak <- getRandomInt 1 8;
  do u <- Math_random;
  let streakType := if 2 ^ 52 <? u then "W" else "L" in
  do points <- getRandomInt 80 120;
  ret {| Standing.id := Num (of_Z (index + 1));
         Standing.name := Some name;
         Standing.wins := wins;
         Standing.losses := losses;
         Standing.winPct := parseFloat winPct;
         Standing.streak := streakType +:+ digits streak;
         Standing.points := of_Z points;
         Standing.gamesPlayed := total |}.

(** [generateMockTeams(teams)] *)
Definition generateMockTeams (teams : list string) : M (list Standing.t) :=
  mapi mock_team teams.

(** [[homeTeam, awayTeam].sort()]: [undefined] goes last, strings are
    ordered by their code units, and equal elements keep their places. *)
Definition sort_pair (a b : option string) : option string * option string :=
  match a, b with
  | Some x, Some y => if String.ltb y x then (b, a) else (a, b)
  | None, Some _ => (b, a)
  | _, _ => (a, b)
  end.

(** An element of [join]: [undefined] is printed as the empty string. *)
Definition join_text (a : option string) : string :=
  match a with
  | Some s => s
  | None => ""
  end.

(** [[homeTeam, awayTeam].sort().join('-')] *)
Definition pairKey (homeTeam awayTeam : option string) : string :=
  let '(x, y) := sort_pair homeTeam awayTeam in
  join_text x +:+ "-" +:+ join_text y.

(** The [do ... while (usedPairs.has(pairKey))] loop of
    [generateMockGames]; [fuel] bounds its iterations, and the loop does
    not return when it needs more. *)
Fixpoint pick_matchup (fuel : nat) (teams : list string) (usedPairs : gset string)
  : M (option string * option string * string) :=
  match fuel with
  | O => hang
  | S fuel' =>
      do homeTeam <- getRandomElement teams;
      do awayTeam <- getRandomElement (filter (fun t => Some t <> homeTeam) teams);
      let key := pairKey homeTeam awayTeam in
      if decide (key ∈ usedPairs)
      then pick_matchup fuel' teams usedPairs
      else ret (homeTeam, awayTeam, key)
  end.

Definition day_ms : Z := 86400000.

(** The [for] loop of [generateMockGames], from iteration [i] with
    [remaining] iterations to go. *)
Fixpoint games_loop (env : environment) (fuel : nat) (teams : list string)
    (remaining : nat) (i : Z) (usedPairs : gset string) (games : list Game.t)
  : M (list Game.t) :=
  match remaining with
  | O => ret games
  | S remaining' =>
      do p <- pick_matchup fuel teams usedPairs;
      let '(homeTeam, awayTeam, key) := p in
      let usedPairs := {[key]} ∪ usedPairs in
      do homeScore <- getRandomInt 80 130;
      do awayScore <- getRandomInt 80 130;
      let homeScore := of_Z homeScore in
      let awayScore := of_Z awayScore in
      do today <- Date_now env;
      do back <- getRandomInt 0 7;
      let game := {|
        Game.id := Num (of_Z (i + 1));
        Game.homeTeam := homeTeam;
        Game.awayTeam := awayTeam;
        Game.homeScore := homeScore;
        Game.awayScore := awayScore;
        Game.date := DaysBefore today back;
        Game.status := "final";
        Game.winner := if gtb homeScore awayScore then homeTeam else awayTeam
      |} in
      games_loop env fuel teams remaining' (i + 1) usedPairs (games ++ [game])
  end.

(** [generateMockGames(teams, count)] *)
Definition generateMockGames (env : environment) (fuel : nat)
    (teams : list string) (count : nat) : M (list Game.t) :=
  games_loop env fuel teams count 0 ∅ [].

(** The [switch (league.toLowerCase())] of both fetch functions. *)
Definition roster (league : string) : list string :=
  let l := toLowerCase league in
  if String.eqb l "nba" then NBA_TEAMS
  else if String.eqb l "nfl" then NFL_TEAMS
  else if String.eqb l "mlb" then MLB_TEAMS
  else if String.eqb l "epl" then EPL_TEAMS
  else NBA_TEAMS.

(** The callback of [data.standings.map(...)] in [fetchStandings]. *)
Definition transform_standing (entry : option raw_standing) (index : Z)
  : M Standing.t :=
  match entry with
  | None => throw (TypeError "Cannot read properties of null (reading 'team')")
  | Some standing =>
      match standing_team standing with
      | None => throw (TypeError "Cannot read properties of undefined (reading 'id')")
      | Some team =>
          match standing_stats standing with
          | None =>
              throw (TypeError "Cannot read properties of undefined (reading 'wins')")
          | Some stats =>
              let w := leaf_number (stats_wins stats) in
              let l := leaf_number (stats_losses stats) in
              do points <-
                (if leaf_truthy (stats_pointsFor stats)
                 then ret (leaf_number (stats_pointsFor stats))
                 else do p <- getRandomInt 80 120; ret (of_Z p));
              ret {| Standing.id := team_id team;
                     Standing.name := string_or (abbreviation team) (city team);
                     Standing.wins := leaf_or (stats_wins stats) zero;
                     Standing.losses := leaf_or (stats_losses stats) zero;
                     Standing.winPct :=
                       or_else (parseFloat (toFixed3 (div w (add w l)))) zero;
                     Standing.streak :=
                       join_text (string_or (stats_streak stats) (Some "N/A"));
                     Standing.points := points;
                     Standing.gamesPlayed :=
                       leaf_or (stats_gamesPlayed stats) (add w l) |}
          end
      end
  end.

(** The real-endpoint attempt of [fetchStandings]: the body of its inner
    [try] block. *)
Definition real_standings (env : environment) (league : string)
  : M (result (list Standing.t)) :=
  do data <- fetchFromMySportsFeeds env "standings" league;
  do standings <-
    match body_standings data with
    | None => throw (TypeError "Cannot read properties of undefined (reading 'map')")
    | Some entries => mapi transform_standing entries
    end;
  do ts <- Date_now env;
  ret {| success := true; data := standings; league := toUpperCase league;
         source := Some "MySportsFeeds"; timestamp := ts |}.

(** The mock path of [fetchStandings]: what follows its inner [if]. *)
Definition mock_standings (env : environment) (league : string)
  : M (result (list Standing.t)) :=
  do _ <- simulateNetworkDelay 300 800;
  let teams := roster league in
  do standings <- generateMockTeams teams;
  do ts <- Date_now env;
  ret {| success := true; data := standings; league := toUpperCase league;
         source := Some "Mock Data"; timestamp := ts |}.

(** [fetchStandings(league)].  The inner [try] either returns the result
    of the real endpoint ([Some]) or, its error caught and logged, falls
    through ([None]). *)
Definition fetchStandings (env : environment) (league : string)
  : M (result (list Standing.t)) :=
  try_catch
    (do returned <-
       (if isAPIConfigured (API_CONFIG env)
        then try_catch
               (do r <- real_standings env league; ret (Some r))
               (fun apiError => ret None)
        else ret None);
     match returned with
     | Some r => ret r
     | None => mock_standings env league
     end)
    (fun error => throw error).

(** The callback of [data.games.slice(0, 6).map(...)] in
    [fetchRecentGames]. *)
Definition transform_game (entry : option raw_game) (index : Z) : M Game.t :=
  match entry with
  | None => throw (TypeError "Cannot read properties of null (reading 'schedule')")
  | Some game =>
      match game_schedule game with
      | None => throw (TypeError "Cannot read properties of undefined (reading 'id')")
      | Some schedule =>
          match schedule_homeTeam schedule, schedule_awayTeam schedule with
          | Some home, Some away =>
              let hs := match game_score game with
                        | Some sc => homeScoreTotal sc
                        | None => Absent
                        end in
              let aws := match game_score game with
                         | Some sc => awayScoreTotal sc
                         | None => Absent
                         end in
              ret {| Game.id := schedule_id schedule;
                     Game.homeTeam := string_or (abbreviation home) (city home);
                     Game.awayTeam := string_or (abbreviation away) (city away);
                     Game.homeScore := leaf_or hs zero;
                     Game.awayScore := leaf_or aws zero;
                     Game.date := StartTime (startTime schedule);
                     Game.status :=
                       if bool_decide (playedStatus schedule = Some "COMPLETED")
                       then "final" else "scheduled";
                     Game.winner :=
                       if gtb (leaf_number hs) (leaf_number aws)
                       then abbreviation home else abbreviation away |}
          | _, _ =>
              throw (TypeError
                "Cannot read properties of undefined (reading 'abbreviation')")
          end
      end
  end.

Definition real_games (env : environment) (league : string)
  : M (result (list Game.t)) :=
  do data <- fetchFromMySportsFeeds env "games" league;
  do games <-
    match body_games data with
    | None => throw (TypeError "Cannot read properties of undefined (reading 'slice')")
    | Some entries => mapi transform_game (take 6 entries)
    end;
  do ts <- Date_now env;
  ret {| success := true; data := games; league := toUpperCase league;
         source := Some "MySportsFeeds"; timestamp := ts |}.

Definition mock_games (env : environment) (fuel : nat) (league : string)
  : M (result (list Game.t)) :=
  do _ <- simulateNetworkDelay 300 800;
  let teams := roster league in
  do games <- generateMockGames env fuel teams 6;
  do ts <- Date_now env;
  ret {| success := true; data := games; league := toUpperCase league;
         source := Some "Mock Data"; timestamp := ts |}.

(** [fetchRecentGames(league)] *)
Definition fetchRecentGames (env : environment) (fuel : nat) (league : string)
  : M (result (list Game.t)) :=
  try_catch
    (do returned <-
       (if isAPIConfigured (API_CONFIG env)
        then try_catch
               (do r <- real_games env league; ret (Some r))
               (fun apiError => ret None)
        else ret None);
     match returned with
     | Some r => ret r
     | None => mock_games env fuel league
     end)
    (fun error => throw error).

(** [fetchDashboardStats(league)] *)
Definition fetchDashboardStats (env : environment) (league : string)
  : M (result Stats.t) :=
  try_catch
    (do _ <- simulateNetworkDelay 200 500;
     let totalTeams := of_Z 12 in
     do gamesToday <- getRandomInt 3 8;
     do topScorer <- getRandomElement
       ["LeBron James"; "Stephen Curry"; "Kevin Durant"; "Giannis Antetokounmpo"];
     do avgScore <- getRandomInt 105 115;
     do ts <- Date_now env;
     ret {| success := true;
            data := {| Stats.totalTeams := totalTeams;
                       Stats.gamesToday := of_Z gamesToday;
                       Stats.topScorer := topScorer;
                       Stats.avgScore := of_Z avgScore |};
            league := toUpperCase league;
            source := None;
            timestamp := ts |})
    (fun error => throw error).

(** *** [fetchAllData]

    The three requests are started together and each runs on its own:
    its draws from [Math.random], in the order it makes them, are its
    tape, and its clock starts when [fetchAllData] is called.  A request
    settles when its last timer or response has elapsed. *)

Inductive settled (A : Type) :=
| Fulfilled (a : A) (at_ms : Z)
| Rejected (e : error) (at_ms : Z)
| Frozen (at_ms : Z).
Arguments Fulfilled {A} a at_ms.
Arguments Rejected {A} e at_ms.
Arguments Frozen {A} at_ms.

Inductive event :=
| Fulfil
| Reject (e : error)
| Freeze.

Definition event_of {A} (o : outcome A) : Z * event :=
  match o with
  | Normal _ st => (elapsed st, Fulfil)
  | Throw e st => (elapsed st, Reject e)
  | Hang st => (elapsed st, Freeze)
  end.

(** The first request, in the order they settle (the order of the array
    among those settling together), that does not fulfil. *)
Fixpoint first_failure (events : list (Z * event)) : option (Z * event) :=
  match events with
  | nil => None
  | (t, Fulfil) :: rest => first_failure rest
  | (t, ev) :: rest =>
      match first_failure rest with
      | Some (t', ev') => if t' <? t then Some (t', ev') else Some (t, ev)
      | None => Some (t, ev)
      end
  end.

(** [fetchAllData(league)] over the three fetch functions it calls:
    [await Promise.all([...])] fulfils once all three have, and rejects
    with the first rejection; the [catch] logs and rethrows. *)
Definition fetchAllData_of
    (fetchStandings : string -> M (result (list Standing.t)))
    (fetchRecentGames : string -> M (result (list Game.t)))
    (fetchDashboardStats : string -> M (result Stats.t))
    (env : environment) (league : string)
    (tapes : tape * tape * tape) (started : Z) : settled dataset :=
  let '(tp1, tp2, tp3) := tapes in
  let st := {| cursor := O; elapsed := started |} in
  let r1 := fetchStandings league tp1 st in
  let r2 := fetchRecentGames league tp2 st in
  let r3 := fetchDashboardStats league tp3 st in
  match r1, r2, r3 with
  | Normal a st1, Normal b st2, Normal c st3 =>
      let t := Z.max (elapsed st1) (Z.max (elapsed st2) (elapsed st3)) in
      Fulfilled {| all_success := true;
                   standings := data a;
                   games := data b;
                   stats := data c;
                   all_league := toUpperCase league;
                   all_timestamp := now env + t |} t
  | _, _, _ =>
      match first_failure [event_of r1; event_of r2; event_of r3] with
      | Some (t, Reject e) => Rejected e t
      | Some (t, _) => Frozen t
      | None => Frozen started
      end
  end.

Definition fetchAllData (env : environment) (fuel : nat) (league : string)
    (tapes : tape * tape * tape) (started : Z) : settled dataset :=
  fetchAllData_of (fetchStandings env) (fetchRecentGames env fuel)
                  (fetchDashboardStats env) env league tapes started.

End Api.

(** ** The mock-only API module

    The repository's other version of the API module has no real endpoint:
    [fetchStandings] and [fetchRecentGames] wait, fail with probability
    0.05, and otherwise generate mock data. *)

Module ApiMock.

Import Number Js Utils.

(** [Math.random() < 0.05] for the draw [ticks / 2^53]; the double 0.05
    is [3602879701896397 / 2^56]. *)
Definition below_0_05 (ticks : Z) : bool := ticks * 8 <? 3602879701896397.

(** [fetchStandings(league)] *)
Definition fetchStandings (env : environment) (league : string)
  : M (result (list Standing.t)) :=
  try_catch
    (do _ <- Api.simulateNetworkDelay 300 800;
     do u <- Math_random;
     if below_0_05 u
     then throw (Error "Network error: Unable to fetch standings")
     else
       let teams := Api.roster league in
       do standings <- Api.generateMockTeams teams;
       do ts <- Api.Date_now env;
       ret {| success := true; data := standings; league := toUpperCase league;
              source := None; timestamp := ts |})
    (fun error => throw error).

(** [fetchRecentGames(league)] *)
Definition fetchRecentGames (env : environment) (fuel : nat) (league : string)
  : M (result (list Game.t)) :=
  try_catch
    (do _ <- Api.simulateNetworkDelay 300 800;
     do u <- Math_random;
     if below_0_05 u
     then throw (Error "Network error: Unable to fetch games")
     else
       let teams := Api.roster league in
       do games <- Api.generateMockGames env fuel teams 6;
       do ts <- Api.Date_now env;
       ret {| success := true; data := games; league := toUpperCase league;
              source := None; timestamp := ts |})
    (fun error => throw error).

Definition fetchAllData (env : environment) (fuel : nat) (league : string)
    (tapes : tape * tape * tape) (started : Z) : Api.settled dataset :=
  Api.fetchAllData_of (fetchStandings env) (fetchRecentGames env fuel)
                      (Api.fetchDashboardStats env) env league tapes started.

End ApiMock.

(** ** js/ui.js: loading and error indicators, notifications *)

Module Ui.

(** What the page shows: the loading marker, the error box and its text,
    the dimming of the main content, the data last rendered and the
    notifications emitted so far.  [rendered] is the data of the last
    call of [updateUI] that returned.  [updateUI] writes the statistics,
    the standings table, the two charts and the games in this order, and
    a call that throws leaves what it wrote before on the page:
    [interrupted] is the data of such a call, parts of which the page
    shows in place of those of [rendered], until [updateUI] returns
    again. *)
Record view := {
  loading_hidden : bool;
  error_hidden : bool;
  error_text : string;
  opacity : string;
  rendered : option dataset;
  interrupted : option dataset;
  notifications : list (string * string)
}.

Definition showLoading (v : view) : view :=
  {| loading_hidden := false; error_hidden := true; error_text := error_text v;
     opacity := "0.5"; rendered := rendered v; interrupted := interrupted v;
     notifications := notifications v |}.

Definition hideLoading (v : view) : view :=
  {| loading_hidden := true; error_hidden := error_hidden v;
     error_text := error_text v; opacity := "1"; rendered := rendered v;
     interrupted := interrupted v; notifications := notifications v |}.

Definition showError (message : string) (v : view) : view :=
  {| loading_hidden := true; error_hidden := false; error_text := message;
     opacity := opacity v; rendered := rendered v; interrupted := interrupted v;
     notifications := notifications v |}.

Definition hideError (v : view) : view :=
  {| loading_hidden := loading_hidden v; error_hidden := true;
     error_text := error_text v; opacity := opacity v; rendered := rendered v;
     interrupted := interrupted v; notifications := notifications v |}.

Definition showNotification (message type : string) (v : view) : view :=
  {| loading_hidden := loading_hidden v; error_hidden := error_hidden v;
     error_text := error_text v; opacity := opacity v; rendered := rendered v;
     interrupted := interrupted v;
     notifications := notifications v ++ [(message, type)] |}.

(** [updateUI(data)] when every render succeeds. *)
Definition updateUI (d : dataset) (v : view) : view :=
  {| loading_hidden := loading_hidden v; error_hidden := error_hidden v;
     error_text := error_text v; opacity := opacity v; rendered := Some d;
     interrupted := None; notifications := notifications v |}.

(** [updateUI(data)] when one of its renders throws. *)
Definition interruptUI (d : dataset) (v : view) : view :=
  {| loading_hidden := loading_hidden v; error_hidden := error_hidden v;
     error_text := error_text v; opacity := opacity v; rendered := rendered v;
     interrupted := Some d; notifications := notifications v |}.

Definition initial : view :=
  {| loading_hidden := true; error_hidden := true; error_text := "";
     opacity := "1"; rendered := None; interrupted := None; notifications := [] |}.

End Ui.

(** ** js/app.js: the controller

    The handlers are async functions: a call runs up to its first [await]
    and the rest runs when the awaited promise settles.  The page is the
    application state, the view, and the calls of [fetchAllData] that have
    not settled yet, each with what its caller does once [loadData]
    returns. *)

Module App.

Import Ui.

Record state := {
  currentLeague : string;
  allData : option dataset;
  isLoading : bool;
  autoRefreshInterval : option nat
}.

(** What awaits the promise of a [loadData()] call. *)
Inductive caller :=
| Nothing           (* handleLeagueChange, handleRetry, the interval callback, a direct call *)
| AfterRefresh      (* handleRefresh: the success notification *)
| AfterInit.        (* init: setupAutoRefresh(60000) *)

Record page := {
  app : state;
  ui : view;
  in_flight : list (string * caller);
  next_timer : nat
}.

Definition set_loading (b : bool) (s : state) : state :=
  {| currentLeague := currentLeague s; allData := allData s; isLoading := b;
     autoRefreshInterval := autoRefreshInterval s |}.

Definition set_data (d : dataset) (s : state) : state :=
  {| currentLeague := currentLeague s; allData := Some d; isLoading := isLoading s;
     autoRefreshInterval := autoRefreshInterval s |}.

Definition set_league (l : string) (s : state) : state :=
  {| currentLeague := l; allData := allData s; isLoading := isLoading s;
     autoRefreshInterval := autoRefreshInterval s |}.

(** [setupAutoRefresh(intervalMs)]: the interval in place, if any, is
    cleared and a new one is set. *)
Definition setupAutoRefresh (p : page) : page :=
  {| app := {| currentLeague := currentLeague (app p); allData := allData (app p);
               isLoading := isLoading (app p);
               autoRefreshInterval := Some (next_timer p) |};
     ui := ui p; in_flight := in_flight p; next_timer := S (next_timer p) |}.

(** The rest of the caller, once its [await loadData()] returns. *)
Definition resume_caller (k : caller) (p : page) : page :=
  match k with
  | Nothing => p
  | AfterRefresh =>
      {| app := app p;
         ui := showNotification "Data refreshed successfully!" "success" (ui p);
         in_flight := in_flight p; next_timer := next_timer p |}
  | AfterInit => setupAutoRefresh p
  end.

(** [loadData()] up to its [await fetchAllData(state.currentLeague)]:
    with the flag set it returns at once, and its caller goes on;
    otherwise it sets the flag, shows the loading state and starts the
    fetch. *)
Definition loadData (k : caller) (p : page) : page :=
  if isLoading (app p) then resume_caller k p
  else
    {| app := set_loading true (app p);
       ui := hideError (showLoading (ui p));
       in_flight := in_flight p ++ [(currentLeague (app p), k)];
       next_timer := next_timer p |}.

(** How an awaited [fetchAllData] ends, and whether [updateUI(data)]
    then throws (a chart that cannot be drawn). *)
Inductive fetched :=
| Loaded (d : dataset) (render_error : option Js.error)
| Failed (e : Js.error).

(** The [try], [catch] and [finally] blocks of [loadData], for the state
    and the view. *)
Definition loadData_settle (r : fetched) (s : state) (v : view) : state * view :=
  let '(s1, v1) :=
    match r with
    | Loaded d None => (set_data d s, hideLoading (updateUI d v))
    | Loaded d (Some e) =>
        (set_data d s,
         showError ("Failed to load data: " +:+ Js.message e)
           (hideLoading (interruptUI d v)))
    | Failed e =>
        (s, showError ("Failed to load data: " +:+ Js.message e) (hideLoading v))
    end in
  (set_loading false s1, v1).

(** What happens on the page. *)
Inductive input :=
| Init
| LeagueChange (newLeague : string)
| Refresh
| Retry
| Tick
| Call                       (* loadData() called directly *)
| Settled (r : fetched).     (* the oldest fetch in flight settles *)

Definition step (i : input) (p : page) : page :=
  match i with
  | Init => loadData AfterInit p
  | LeagueChange newLeague =>
      if String.eqb newLeague (currentLeague (app p)) then p
      else
        loadData Nothing
          {| app := set_league newLeague (app p);
             ui := showNotification
                     ("Switching to " +:+ toUpperCase newLeague +:+ "...") "info"
                     (ui p);
             in_flight := in_flight p; next_timer := next_timer p |}
  | Refresh =>
      loadData AfterRefresh
        {| app := app p;
           ui := showNotification "Refreshing data..." "info" (ui p);
           in_flight := in_flight p; next_timer := next_timer p |}
  | Retry =>
      loadData Nothing
        {| app := app p; ui := hideError (ui p);
           in_flight := in_flight p; next_timer := next_timer p |}
  | Tick =>
      match autoRefreshInterval (app p) with
      | Some _ => loadData Nothing p
      | None => p
      end
  | Call => loadData Nothing p
  | Settled r =>
      match in_flight p with
      | nil => p
      | (_, k) :: rest =>
          let '(s, v) := loadData_settle r (app p) (ui p) in
          resume_caller k
            {| app := s; ui := v; in_flight := rest; next_timer := next_timer p |}
      end
  end.

Definition initial : page :=
  {| app := {| currentLeague := "nba"; allData := None; isLoading := false;
               autoRefreshInterval := None |};
     ui := Ui.initial; in_flight := []; next_timer := O |}.

Definition run (inputs : list input) : page := fold_left (fun p i => step i p) inputs initial.

End App.

(** ** js/utils.js: strings

    The length of a string is its number of UTF-16 code units, and
    [toLowerCase], [trim] and [\d], [\B] look at characters; on ASCII
    strings, which is what the dashboard handles, these are the bytes. *)

Module Text.

Import Number.

(** [str.trim()]: white space is removed from both ends. *)
Fixpoint trim_end (s : string) : string :=
  match s with
  | EmptyString => EmptyString
  | String c s' =>
      match trim_end s' with
      | EmptyString => if Number.is_space c then EmptyString else String c EmptyString
      | t => String c t
      end
  end.

Definition trim (s : string) : string := trim_end (Number.trim_start s).

(** [s.includes(t)] *)
Fixpoint includes (s t : string) : bool :=
  String.prefix t s ||
  match s with
  | EmptyString => false
  | String _ s' => includes s' t
  end.

(** [str.slice(0, end)] for an integer [end]: a negative [end] counts from
    the end of the string. *)
Definition slice0 (str : string) (finish : Z) : string :=
  let len := Z.of_nat (String.length str) in
  let to := if finish <? 0 then Z.max (len + finish) 0 else Z.min finish len in
  String.substring 0 (Z.to_nat to) str.

(** [truncateString(str, maxLength)] for an integer [maxLength] *)
Definition truncateString (str : string) (maxLength : Z) : string :=
  if Z.of_nat (String.length str) <=? maxLength then str
  else slice0 str (maxLength - 3) +:+ "...".

(** [\w] *)
Definition is_word (c : ascii) : bool :=
  let n := nat_of_ascii c in
  (((48 <=? n) && (n <=? 57)) || ((65 <=? n) && (n <=? 90)) ||
   ((97 <=? n) && (n <=? 122)) || (n =? 95))%nat.

Definition word_at (c : option ascii) : bool :=
  match c with
  | Some c => is_word c
  | None => false
  end.

(** [\B] between two characters, [None] being an end of the string *)
Definition non_boundary (before after : option ascii) : bool :=
  Bool.eqb (word_at before) (word_at after).

Definition next_is_digit (s : string) : bool :=
  match s with
  | String c _ => Number.is_digit c
  | EmptyString => false
  end.

(** [(?=(\d{3})+(?!\d))]: some number of groups of three digits follow,
    and no digit after them. *)
Fixpoint groups_ahead (s : string) : bool :=
  match s with
  | String d1 (String d2 (String d3 t)) =>
      Number.is_digit d1 && Number.is_digit d2 && Number.is_digit d3 &&
      (negb (next_is_digit t) || groups_ahead t)
  | _ => false
  end.

(** [s.replace(/\B(?=(\d{3})+(?!\d))/g, ',')], [before] being the
    character that precedes [s]: a comma is put at every position where
    the pattern matches. *)
Fixpoint insert_commas (before : option ascii) (s : string) : string :=
  match s with
  | EmptyString => EmptyString
  | String c s' =>
      let rest := String c (insert_commas (Some c) s') in
      if non_boundary before (Some c) && groups_ahead s then String "," rest else rest
  end.

(** [num.toString()] for an integer of magnitude below 10^21 *)
Definition integer_toString (n : Z) : string :=
  if n <? 0 then "-" +:+ Number.digits (- n) else Number.digits n.

(** [formatNumber(num)] for such an integer *)
Definition formatNumber (num : Z) : string :=
  insert_commas None (integer_toString num).

(** [filterBySearch(array, searchTerm, properties)]; [text item prop] is
    [String(item[prop])]. *)
Definition filterBySearch {T} (text : T -> string -> string) (array : list T)
    (searchTerm : string) (properties : list string) : list T :=
  let term := trim (toLowerCase searchTerm) in
  if String.eqb term "" then array
  else
    List.filter
      (fun item =>
         existsb (fun prop => includes (toLowerCase (text item prop)) term) properties)
      array.

(** [String(v)] for a value that is a string or [undefined] *)
Definition String_of (v : option string) : string :=
  match v with
  | Some s => s
  | None => "undefined"
  end.

(** [String(o[prop])] for an object whose properties hold strings. *)
Definition object_text (o : gmap string string) (prop : string) : string :=
  String_of (o !! prop).

End Text.

(** ** js/utils.js: debounce

    [debounce(func, wait)] returns a function that shares the variable
    [timeout] with the timers it sets.  The state is that variable, the
    timers that are set and have neither fired nor been cleared, and the
    calls of [func] made so far. *)

Module Debounce.

Section Debounced.
Context {A : Type}.

Record t := {
  timeout : option nat;
  timers : list (nat * (Z * A));
  next_id : nat;
  calls : list (Z * A)
}.

Definition initial : t :=
  {| timeout := None; timers := []; next_id := O; calls := [] |}.

(** [clearTimeout(id)]: nothing happens for [undefined] and for a timer
    that is no longer set. *)
Definition clearTimeout (id : option nat) (l : list (nat * (Z * A))) : list (nat * (Z * A)) :=
  match id with
  | Some i => List.filter (fun tm => negb (Nat.eqb (fst tm) i)) l
  | None => l
  end.

(** [executedFunction(...args)] at the time [now]: the timer in
    [timeout] is cleared and a new one is set, due after [wait]
    milliseconds. *)
Definition executedFunction (wait : Z) (now : Z) (args : A) (d : t) : t :=
  {| timeout := Some (next_id d);
     timers := clearTimeout (timeout d) (timers d) ++ [(next_id d, (now + wait, args))];
     next_id := S (next_id d);
     calls := calls d |}.

Definition find_timer (id : nat) (l : list (nat * (Z * A))) : option (Z * A) :=
  snd <$> List.find (fun tm => Nat.eqb (fst tm) id) l.

(** The timer [id] fires at the time [now], not before it is due: its
    callback [later] clears the timer in [timeout] and calls [func]. *)
Definition later (now : Z) (id : nat) (d : t) : t :=
  match find_timer id (timers d) with
  | Some (due, args) =>
      if due <=? now
      then {| timeout := timeout d;
              timers := clearTimeout (timeout d) (clearTimeout (Some id) (timers d));
              next_id := next_id d;
              calls := calls d ++ [(now, args)] |}
      else d
  | None => d
  end.

(** What happens to the debounced function. *)
Inductive event :=
| Call (now : Z) (args : A)
| Fire (now : Z) (id : nat).

Definition step (wait : Z) (d : t) (e : event) : t :=
  match e with
  | Call now args => executedFunction wait now args d
  | Fire now id => later now id d
  end.

Definition run (wait : Z) (events : list event) : t :=
  fold_left (step wait) events initial.

End Debounced.

Arguments t A : clear implicits.
Arguments event A : clear implicits.

End Debounce.

(** ** Searching

    [searchData] of js/api.js, and [handleSearch] of js/app.js, which
    filters the data already loaded. *)

Module Search.

Import Number Js Utils Api.




(** The argument of a call of [updateUI]: all the data, or the object
    that [handleSearch] builds of the statistics and the filtered
    standings and games. *)
Inductive shown :=
| Everything (d : dataset)
| Filtered (stats : Stats.t) (standings : list Standing.t) (games : list Game.t).

(** What a call of [handleSearch] does: its calls of [updateUI], the
    notifications it shows, and the error with which its promise
    rejects, if any. *)
Record effects := {
  updates : list shown;
  notes : list (string * string);
  rejected : option Js.error
}.

(** [String(item[prop])] for the properties that [handleSearch] lists:
    ['name'] of a standing, ['homeTeam'] and ['awayTeam'] of a game. *)
Definition standing_text (row : Standing.t) (prop : string) : string :=
  Text.String_of (Standing.name row).

Definition game_text (g : Game.t) (prop : string) : string :=
  Text.String_of (if String.eqb prop "homeTeam" then Game.homeTeam g else Game.awayTeam g).

(** [handleSearch(event)] for the text [value] of the search box;
    [render_error] is the error that [updateUI] throws, if it does. *)
Definition handleSearch (value : string) (s : App.state) (render_error : option Js.error)
  : effects :=
  let query := Text.trim value in
  match App.allData s with
  | None => {| updates := []; notes := []; rejected := None |}
  | Some allData =>
      if String.eqb query ""
      then {| updates := [Everything allData]; notes := []; rejected := render_error |}
      else
        let filteredStandings :=
          Text.filterBySearch standing_text (standings allData) query ["name"] in
        let filteredGames :=
          Text.filterBySearch game_text (games allData) query ["homeTeam"; "awayTeam"] in
        let update := Filtered (stats allData) filteredStandings filteredGames in
        match render_error with
        | Some error =>
            {| updates := [update]; notes := [("Search failed", "error")];
               rejected := None |}
        | None =>
            {| updates := [update];
               notes := if ((length filteredStandings =? 0) && (length filteredGames =? 0))%nat
                        then [("No results found", "error")] else [];
               rejected := None |}
        end
  end.

End Search.

(** * Specification

    The vocabulary of the statements, and the data of their examples. *)

Import Number Js Utils Api.

(** ** Runs *)

(** The state after a draw, the draw read in a state, and the state after
    a wait. *)
Definition advance (st : state) : state :=
  {| cursor := S (cursor st); elapsed := elapsed st |}.

Definition draw (tp : tape) (st : state) : Z := tp (cursor st) mod 2 ^ 53.

Definition waited (ms : Z) (st : state) : state :=
  {| cursor := cursor st; elapsed := elapsed st + ms |}.

Definition is_throw {A} (o : outcome A) : Prop :=
  match o with
  | Throw _ _ => True
  | _ => False
  end.

Definition is_hang {A} (o : outcome A) : Prop :=
  match o with
  | Hang _ => True
  | _ => False
  end.

(** ** Mock games *)

(** The key under which [generateMockGames] records a game. *)
Definition matchup_key (g : Game.t) : string :=
  pairKey (Game.homeTeam g) (Game.awayTeam g).

(** Two games have the same unordered pair of teams. *)
Definition same_pairing (g1 g2 : Game.t) : Prop :=
  (Game.homeTeam g1 = Game.homeTeam g2 /\ Game.awayTeam g1 = Game.awayTeam g2) \/
  (Game.homeTeam g1 = Game.awayTeam g2 /\ Game.awayTeam g1 = Game.homeTeam g2).

(** What the generator guarantees of each game it makes: the home team is
    an element of the team list, the away team an element of the list
    without the home team, and the winner is chosen by the scores. *)
Definition generated_from (teams : list string) (g : Game.t) : Prop :=
  (exists i, Game.homeTeam g = teams !! i /\
             (teams <> [] -> is_Some (Game.homeTeam g))) /\
  (exists j, Game.awayTeam g =
             filter (fun t => Some t <> Game.homeTeam g) teams !! j /\
             (filter (fun t => Some t <> Game.homeTeam g) teams <> [] ->
              is_Some (Game.awayTeam g))) /\
  Game.winner g = (if gtb (Game.homeScore g) (Game.awayScore g)
                   then Game.homeTeam g else Game.awayTeam g) /\
  Game.status g = "final".

(** The matchups the retry loop can draw from a team list, and their keys. *)
Definition all_matchups (teams : list string) : list (option string * option string) :=
  match teams with
  | [] => [(None, None)]
  | _ =>
      flat_map
        (fun h =>
           match filter (fun t => Some t <> Some h) teams with
           | [] => [(Some h, None)]
           | others => map (fun a => (Some h, Some a)) others
           end)
        teams
  end.

Definition pair_keys (teams : list string) : list string :=
  remove_dups (map (fun p => pairKey (fst p) (snd p)) (all_matchups teams)).

(** The unordered pairs of distinct names of a team list. *)
Fixpoint pairs_of (l : list string) : list (string * string) :=
  match l with
  | [] => []
  | x :: l' => map (fun y => (x, y)) l' ++ pairs_of l'
  end.

Definition unordered_pairs (teams : list string) : list (string * string) :=
  pairs_of (remove_dups teams).

(** Four names, six pairs, five keys: ["a-b", "c"] and ["a", "b-c"] both
    join to "a-b-c". *)
Definition hyphen_teams : list string := ["a"; "a-b"; "b-c"; "c"].

(** The draw that makes [Math.floor(u * len)] equal to [i]. *)
Definition lucky_draw (len i : Z) : Z := (i * 2 ^ 53 + len - 1) / len.

(** A tape with two entries replaced. *)
Definition patch (tp : tape) (c : nat) (d1 d2 : Z) : tape :=
  fun n => if (n =? c)%nat then d1 else if (n =? S c)%nat then d2 else tp n.

(** What the retry loop draws when [Math.random()] gives the same number
    [c / 2^53] every time. *)
Definition drawn_home (teams : list string) (c : Z) : option string :=
  teams !! Z.to_nat (floor_scaled (c mod 2 ^ 53) (Z.of_nat (length teams))).

Definition drawn_away (teams : list string) (c : Z) : option string :=
  let others := filter (fun t => Some t <> drawn_home teams c) teams in
  others !! Z.to_nat (floor_scaled (c mod 2 ^ 53) (Z.of_nat (length others))).

Definition drawn_key (teams : list string) (c : Z) : string :=
  pairKey (drawn_home teams c) (drawn_away teams c).

(** ** Mock standings *)

(** The record [generateMockTeams] makes for a team, from its draws. *)
Definition mock_standing (name : string) (index w l streak : Z) (won : bool) (points : Z)
  : Standing.t :=
  {| Standing.id := Num (of_Z (index + 1));
     Standing.name := Some name;
     Standing.wins := of_Z w;
     Standing.losses := of_Z l;
     Standing.winPct := parseFloat (toFixed3 (div (of_Z w) (add (of_Z w) (of_Z l))));
     Standing.streak := (if won then "W" else "L") +:+ digits streak;
     Standing.points := of_Z points;
     Standing.gamesPlayed := add (of_Z w) (of_Z l) |}.

Definition is_mock_standing (name : string) (r : Standing.t) : Prop :=
  exists index w l streak won points,
    5 <= w <= 45 /\ 5 <= l <= 45 /\ 1 <= streak <= 8 /\ 80 <= points <= 120 /\
    r = mock_standing name index w l streak won points.

(** ** The real endpoint *)

(** A malformed entry of the [standings] array: [null], or without the
    [team] or the [stats] object. *)
Definition malformed (entry : option raw_standing) : Prop :=
  match entry with
  | None => True
  | Some s => standing_team s = None \/ standing_stats s = None
  end.

(** The real endpoint fails: a network error, a status outside 200-299, or
    a malformed body. *)
Definition standings_endpoint_fails (env : environment) (league : string) : Prop :=
  match fetch env (make_request (API_CONFIG env) "standings" league) with
  | NetworkFailure _ _ => True
  | Response _ status _ body =>
      ok status = false \/
      match body with
      | NotJson => True
      | Json d =>
          match body_standings d with
          | None => True
          | Some entries => Exists malformed entries
          end
      end
  end.

(** A response row with both objects present. *)
Definition row (team : raw_team) (stats : raw_stats) : option raw_standing :=
  Some {| standing_team := Some team; standing_stats := Some stats |}.

(** ** The invariant of a team standing *)

(** [wins + losses == gamesPlayed] *)
Definition games_add_up (r : Standing.t) : bool :=
  eqb (add (Standing.wins r) (Standing.losses r)) (Standing.gamesPlayed r).

(** The win percentage of the data model: [wins / (wins + losses)] to three
    decimals, zero when no games were played. *)
Definition win_percentage (wins losses : number) : number :=
  let total := add wins losses in
  if eqb total zero then zero
  else parseFloat (toFixed3 (div wins total)).

Definition standing_invariant (r : Standing.t) : Prop :=
  games_add_up r = true /\
  Standing.winPct r = win_percentage (Standing.wins r) (Standing.losses r).

(** ** Three-decimal strings *)

(** [s] is a digit, a point and three digits, and reads [n / 1000]. *)
Definition reads_thousandths (s : string) (n : Z) : bool :=
  match s with
  | String d0 (String "." (String d1 (String d2 (String d3 EmptyString)))) =>
      is_digit d0 && is_digit d1 && is_digit d2 && is_digit d3 &&
      (n =? 1000 * (Z.of_nat (nat_of_ascii d0) - 48)
            + 100 * (Z.of_nat (nat_of_ascii d1) - 48)
            + 10 * (Z.of_nat (nat_of_ascii d2) - 48)
            + (Z.of_nat (nat_of_ascii d3) - 48))
  | _ => false
  end.

Definition up_to (k : nat) : list Z := map Z.of_nat (seq 0 (S k)).

(** Structural equality of doubles. *)
Definition same_number (x y : number) : bool :=
  match x, y with
  | S754_zero s, S754_zero s' => Bool.eqb s s'
  | S754_infinity s, S754_infinity s' => Bool.eqb s s'
  | S754_nan, S754_nan => true
  | S754_finite s m e, S754_finite s' m' e' => Bool.eqb s s' && Pos.eqb m m' && Z.eqb e e'
  | _, _ => false
  end.

(** The double of an integer below 2^53: its 53-digit mantissa and its
    exponent. *)
Definition mantissa53 (X : Z) : positive := Z.to_pos (X * 2 ^ (53 - Zdigits2 X)).
Definition exponent53 (X : Z) : Z := Zdigits2 X - 53.

Abbreviation fexp64 := (fexp prec emax).

(** ** Sorting *)

(** The comparator places [x] after [y]. *)
Definition places_after {A} (comparefn : A -> A -> Z) (x y : A) : Prop :=
  0 < comparefn x y.

(** The comparator is a strict linear order on the elements of [l]. *)
Definition consistent_on {A} (comparefn : A -> A -> Z) (l : list A) : Prop :=
  NoDup l /\
  (forall x y, x ∈ l -> y ∈ l -> x <> y ->
     places_after comparefn x y \/ places_after comparefn y x) /\
  (forall x y, x ∈ l -> y ∈ l ->
     places_after comparefn x y -> ~ places_after comparefn y x) /\
  (forall x y z, x ∈ l -> y ∈ l -> z ∈ l ->
     places_after comparefn x y -> places_after comparefn y z ->
     places_after comparefn x z).

(** Every element is placed after the ones before it. *)
Definition ascending {A} (comparefn : A -> A -> Z) (l : list A) : Prop :=
  StronglySorted (fun x y => places_after comparefn y x) l.

(** The values at [property] are pairwise distinct. *)
Definition pairwise_distinct {V} (array : list (gmap string V)) (property : string) : Prop :=
  forall i j a b, array !! i = Some a -> array !! j = Some b -> i <> j ->
                  a !! property <> b !! property.

(** The values at [property] are mutually comparable: [>] orders every two
    different ones one way, and is asymmetric and transitive on them. *)
Definition comparable {V} (gt : V -> V -> bool) (array : list (gmap string V))
    (property : string) : Prop :=
  (forall a b, a ∈ array -> b ∈ array -> a !! property <> b !! property ->
     value_gt gt (a !! property) (b !! property) = true \/
     value_gt gt (b !! property) (a !! property) = true) /\
  (forall a b, a ∈ array -> b ∈ array ->
     value_gt gt (a !! property) (b !! property) = true ->
     value_gt gt (b !! property) (a !! property) = false) /\
  (forall a b c, a ∈ array -> b ∈ array -> c ∈ array ->
     value_gt gt (a !! property) (b !! property) = true ->
     value_gt gt (b !! property) (c !! property) = true ->
     value_gt gt (a !! property) (c !! property) = true).

(** The comparator of [sortByProperty]. *)
Definition by_property {V} (gt : V -> V -> bool) (property : string) (ascending : bool)
  : gmap string V -> gmap string V -> Z :=
  fun a b =>
    let aVal := a !! property in
    let bVal := b !! property in
    if ascending
    then (if value_gt gt aVal bVal then 1 else -1)
    else (if value_lt gt aVal bVal then 1 else -1).

(** Two rows, with the numbers 1 and [NaN] at ["k"]. *)
Definition incomparable_rows : list (gmap string number) :=
  [ {[ "k" := of_Z 1 ]}; {[ "k" := NaN ]} ].

(** Three rows with the numbers 3, 1 and 2 at ["k"]. *)
Definition numbered_rows : list (gmap string Z) :=
  [ {[ "k" := 3 ]}; {[ "k" := 1 ]}; {[ "k" := 2 ]} ].

(** ** The controller *)

(** The pages the controller can reach. *)
Inductive reachable : App.page -> Prop :=
| reachable_initial : reachable App.initial
| reachable_step i p : reachable p -> reachable (App.step i p).

(** The flag is set exactly while a fetch is in flight, and there is at
    most one. *)
Definition guarded (p : App.page) : Prop :=
  (App.isLoading (App.app p) = true /\ exists f, App.in_flight p = [f]) \/
  (App.isLoading (App.app p) = false /\ App.in_flight p = []).

(** ** Examples *)

Definition sample_tape : tape := fun n => Z.of_nat n * 1234567890123457 + 987654321.

Definition zero_tape : tape := fun _ => 0.

(** The public configuration, no endpoint in use. *)
Definition env_public : environment :=
  {| API_CONFIG := config_public;
     fetch := fun _ => NetworkFailure 10 "Failed to fetch";
     now := 1700000000000 |}.

Definition config_keyed : api_config :=
  {| API_KEY := Some "demo-key";
     BASE_URL := BASE_URL config_public;
     SEASON := SEASON config_public;
     LEAGUES := LEAGUES config_public;
     timeout := 10000; retries := 3; format := "json" |}.

(** A configured key and an unreachable endpoint. *)
Definition env_down : environment :=
  {| API_CONFIG := config_keyed;
     fetch := fun _ => NetworkFailure 30 "Failed to fetch";
     now := 1700000000000 |}.

(** A hockey row: 40 wins, 30 losses and 12 overtime losses in 82 games. *)
Definition nhl_stats : raw_stats :=
  {| stats_wins := Num (of_Z 40); stats_losses := Num (of_Z 30);
     stats_streak := None; stats_pointsFor := Num (of_Z 250);
     stats_gamesPlayed := Num (of_Z 82) |}.

Definition nhl_team : raw_team :=
  {| team_id := Num (of_Z 11); abbreviation := Some "BOS"; city := Some "Boston" |}.

(** A configured key and an endpoint that answers with that row. *)
Definition nhl_env : environment :=
  {| API_CONFIG := config_keyed;
     fetch := fun _ => Response 120 200 "OK"
                (Json {| body_standings := Some [row nhl_team nhl_stats];
                         body_games := None |});
     now := 1700000000000 |}.

(** A row without [gamesPlayed]. *)
Definition plain_stats : raw_stats :=
  {| stats_wins := Num (of_Z 39); stats_losses := Num (of_Z 41);
     stats_streak := Some "W2"; stats_pointsFor := Num (of_Z 110);
     stats_gamesPlayed := Absent |}.

(** ** Generated records *)

(** The game that [generateMockGames] makes in its iteration [i] (from
    0), when the clock shows [el] milliseconds since the start: its id,
    its scores and its date, up to seven days back on the calendar. *)
Definition mock_game_at (env : environment) (el : Z) (i : nat) (g : Game.t) : Prop :=
  Game.id g = Num (of_Z (Z.of_nat i + 1)) /\
  Game.status g = "final" /\
  exists homeScore awayScore back,
    Game.homeScore g = of_Z homeScore /\ 80 <= homeScore <= 130 /\
    Game.awayScore g = of_Z awayScore /\ 80 <= awayScore <= 130 /\
    Game.date g = DaysBefore (now env + el) back /\ 0 <= back <= 7.

(** The offsets of the local time zone differ by [shift] milliseconds at
    most: none for a zone that never changes its clocks, an hour where
    summer time is kept. *)
Definition offsets_within (localTZA : Z -> bool -> Z) (shift : Z) : Prop :=
  forall t b t' b', Z.abs (localTZA t b - localTZA t' b') <= shift.

(** The standing that [generateMockTeams] makes at index [i] (from 0). *)
Definition mock_standing_at (teams : list string) (i : nat) (r : Standing.t) : Prop :=
  Standing.id r = Num (of_Z (Z.of_nat i + 1)) /\
  Standing.name r = teams !! i /\
  exists streak points,
    (Standing.streak r = "W" +:+ digits streak \/ Standing.streak r = "L" +:+ digits streak) /\
    1 <= streak <= 8 /\
    Standing.points r = of_Z points /\ 80 <= points <= 120.

(** ** The page while it loads *)

(** The loading marker is shown, the error box hidden and the content
    dimmed. *)
Definition loading_view (v : Ui.view) : Prop :=
  Ui.loading_hidden v = false /\ Ui.error_hidden v = true /\ Ui.opacity v = "0.5".

(** While the flag is set the view is the loading view. *)
Definition shows_loading (p : App.page) : Prop :=
  App.isLoading (App.app p) = true -> loading_view (App.ui p).

(** The two notifications of [handleRefresh]. *)
Definition refresh_notes : list (string * string) :=
  [("Refreshing data...", "info"); ("Data refreshed successfully!", "success")].

(** ** Search terms *)

(** A string of white space only. *)
Fixpoint blank (s : string) : bool :=
  match s with
  | EmptyString => true
  | String c s' => Number.is_space c && blank s'
  end.

(** Two objects to search: one with a name, one without. *)
Definition named_rows : list (gmap string string) :=
  [ {[ "name" := "Lakers" ]}; ∅ ].

(** ** Numerals *)

(** A string of decimal digits. *)
Fixpoint digit_string (s : string) : bool :=
  match s with
  | EmptyString => true
  | String c s' => Number.is_digit c && digit_string s'
  end.

(** The character of a decimal digit. *)
Definition digit_char (d : Z) : ascii := ascii_of_nat (48 + Z.to_nat d).

(** The three digits of a number below 1000. *)
Definition three_digits (r : Z) : string :=
  String (digit_char (r / 100))
    (String (digit_char (r / 10 mod 10)) (String (digit_char (r mod 10)) "")).

(** ** Debounced calls *)

(** The calls among the events, and the last of them. *)
Fixpoint calls_of {A} (events : list (Debounce.event A)) : list (Z * A) :=
  match events with
  | [] => []
  | Debounce.Call now args :: rest => (now, args) :: calls_of rest
  | Debounce.Fire _ _ :: rest => calls_of rest
  end.

(** At most one timer is set: the one in [timeout], for the arguments of
    the latest call and due [wait] milliseconds after it. *)
Definition one_timer {A} (wait : Z) (events : list (Debounce.event A)) (d : Debounce.t A) : Prop :=
  Debounce.timers d = [] \/
  exists id now args,
    Debounce.timers d = [(id, (now + wait, args))] /\
    Debounce.timeout d = Some id /\
    last (calls_of events) = Some (now, args).

(** Calls of the debounced function one after the other, as events. *)
Definition burst_events {A} (burst : list (Z * A)) : list (Debounce.event A) :=
  map (fun c => Debounce.Call (fst c) (snd c)) burst.

(** ** A games response *)

(** A team that comes without an abbreviation. *)
Definition seattle : raw_team :=
  {| team_id := Num (of_Z 12); abbreviation := None; city := Some "Seattle" |}.

(** A game that has not been played: Boston at Seattle. *)
Definition upcoming : raw_schedule :=
  {| schedule_id := Num (of_Z 501);
     schedule_homeTeam := Some seattle; schedule_awayTeam := Some nhl_team;
     startTime := Some "2024-01-15T00:00:00.000Z";
     playedStatus := Some "UNPLAYED" |}.

(** A configured key and an endpoint that answers with that game seven
    times over. *)
Definition games_env : environment :=
  {| API_CONFIG := config_keyed;
     fetch := fun _ => Response 120 200 "OK"
                (Json {| body_standings := None;
                         body_games :=
                           Some (replicate 7 (Some {| game_schedule := Some upcoming;
                                                      game_score := None |})) |});
     now := 1700000000000 |}.

(** ** Searching the loaded data *)



(** Two standings and a game, loaded. *)
Definition lakers_row : Standing.t :=
  {| Standing.id := Num (of_Z 1); Standing.name := Some "Lakers";
     Standing.wins := of_Z 30; Standing.losses := of_Z 20;
     Standing.winPct := of_Z 0; Standing.streak := "W3";
     Standing.points := of_Z 110; Standing.gamesPlayed := of_Z 50 |}.

Definition celtics_row : Standing.t :=
  {| Standing.id := Num (of_Z 2); Standing.name := Some "Celtics";
     Standing.wins := of_Z 35; Standing.losses := of_Z 15;
     Standing.winPct := of_Z 0; Standing.streak := "L1";
     Standing.points := of_Z 112; Standing.gamesPlayed := of_Z 50 |}.

Definition lakers_game : Game.t :=
  {| Game.id := Num (of_Z 1); Game.homeTeam := Some "Celtics";
     Game.awayTeam := Some "Lakers"; Game.homeScore := of_Z 101;
     Game.awayScore := of_Z 99; Game.date := Instant 1700000000000;
     Game.status := "final"; Game.winner := Some "Celtics" |}.

Definition loaded_data : dataset :=
  {| all_success := true; standings := [lakers_row; celtics_row];
     games := [lakers_game];
     stats := {| Stats.totalTeams := of_Z 12; Stats.gamesToday := of_Z 5;
                 Stats.topScorer := Some "LeBron James"; Stats.avgScore := of_Z 110 |};
     all_league := "NBA"; all_timestamp := 1700000000500 |}.

Definition loaded_state : App.state :=
  {| App.currentLeague := "nba"; App.allData := Some loaded_data;
     App.isLoading := false; App.autoRefreshInterval := None |}.

(** * Proofs *)

(** ** Doubles

    What the functions of [SpecFloat] compute on the integers below 2^53:
    the conversion and the sum are exact, and the quotient is within one
    unit in the last place. *)

(** *** Digits *)
Lemma digits2_pos_size m : digits2_pos m = Pos.size m.
Proof. induction m; simpl; congruence. Qed.

Lemma Zdigits2_pos m : Zdigits2 (Zpos m) = Zpos (Pos.size m).
Proof. simpl. now rewrite digits2_pos_size. Qed.

Lemma size_bounds m : 2 ^ (Zpos (Pos.size m) - 1) <= Zpos m < 2 ^ Zpos (Pos.size m).
Proof.
  split.
  - pose proof (Pos.size_le m) as H.
    assert (H' : 2 ^ Zpos (Pos.size m) <= 2 * Zpos m).
    { rewrite <- Pos2Z.inj_pow. change (2 * Zpos m) with (Zpos (m~0)). now apply Pos2Z.pos_le_pos. }
    replace (Zpos (Pos.size m)) with (Zpos (Pos.size m) - 1 + 1) in H' by lia.
    rewrite Z.pow_add_r in H' by lia. lia.
  - pose proof (Pos.size_gt m) as H. rewrite <- Pos2Z.inj_pow. now apply Pos2Z.pos_lt_pos.
Qed.

(** The number of digits is determined by the bounds. *)
Lemma size_unique m d : 0 < d -> 2 ^ (d - 1) <= Zpos m < 2 ^ d -> Zpos (Pos.size m) = d.
Proof.
  intros Hd [Hlo Hhi]. pose proof (size_bounds m) as [Hlo' Hhi'].
  destruct (Z.lt_trichotomy (Zpos (Pos.size m)) d) as [H|[H|H]]; [|exact H|]; exfalso.
  - assert (2 ^ Zpos (Pos.size m) <= 2 ^ (d - 1)) by (apply Z.pow_le_mono_r; lia). lia.
  - assert (2 ^ d <= 2 ^ (Zpos (Pos.size m) - 1)) by (apply Z.pow_le_mono_r; lia). lia.
Qed.

(** *** Right shifts *)
Lemma div2_xI p : Zpos p~1 / 2 = Zpos p.
Proof. symmetry. apply (Z.div_unique_pos _ _ _ 1); lia. Qed.

Lemma div2_xO p : Zpos p~0 / 2 = Zpos p.
Proof. symmetry. apply (Z.div_unique_pos _ _ _ 0); lia. Qed.

Lemma pow2_xI p : 2 ^ Zpos p~1 = 2 * (2 ^ Zpos p * 2 ^ Zpos p).
Proof.
  rewrite (Pos2Z.inj_xI p).
  replace (2 * Zpos p + 1) with (1 + (Zpos p + Zpos p)) by lia.
  rewrite !Z.pow_add_r by lia. reflexivity.
Qed.

Lemma pow2_xO p : 2 ^ Zpos p~0 = 2 ^ Zpos p * 2 ^ Zpos p.
Proof.
  rewrite (Pos2Z.inj_xO p).
  replace (2 * Zpos p) with (Zpos p + Zpos p) by lia.
  rewrite !Z.pow_add_r by lia. reflexivity.
Qed.

Lemma shr_1_m mrs : 0 <= shr_m mrs -> shr_m (shr_1 mrs) = shr_m mrs / 2.
Proof.
  destruct mrs as [m r s]. simpl. intros Hm.
  destruct m as [|[p|p|]|p]; simpl; try lia; try reflexivity.
  - now rewrite div2_xI.
  - now rewrite div2_xO.
Qed.

Lemma shr_1_nonneg mrs : 0 <= shr_m mrs -> 0 <= shr_m (shr_1 mrs).
Proof. intros H. rewrite shr_1_m by exact H. apply Z.div_pos; lia. Qed.

Lemma iter_shr_m p : forall mrs,
  0 <= shr_m mrs ->
  shr_m (SpecFloat.iter_pos shr_1 p mrs) = shr_m mrs / 2 ^ Zpos p.
Proof.
  induction p as [p IH|p IH|]; intros mrs Hm; cbn [SpecFloat.iter_pos].
  - assert (H1 := shr_1_nonneg mrs Hm).
    assert (H2 : 0 <= shr_m (SpecFloat.iter_pos shr_1 p (shr_1 mrs))).
    { rewrite IH by exact H1. apply Z.div_pos; lia. }
    rewrite IH by exact H2. rewrite IH by exact H1. rewrite shr_1_m by exact Hm.
    rewrite !Z.div_div by lia. rewrite pow2_xI. f_equal.
  - assert (H2 : 0 <= shr_m (SpecFloat.iter_pos shr_1 p mrs)).
    { rewrite IH by exact Hm. apply Z.div_pos; lia. }
    rewrite IH by exact H2. rewrite IH by exact Hm.
    rewrite !Z.div_div by lia. now rewrite pow2_xO.
  - now rewrite shr_1_m.
Qed.

(** An exact shift: the bits shifted out are zero. *)
Lemma shr_1_exact m :
  0 <= m -> (2 | m) ->
  shr_1 {| shr_m := m; shr_r := false; shr_s := false |} =
  {| shr_m := m / 2; shr_r := false; shr_s := false |}.
Proof.
  intros Hm [k Hk]. destruct m as [|[p|p|]|p]; simpl; try lia; try reflexivity.
  now rewrite div2_xO.
Qed.

Lemma iter_shr_exact p : forall m,
  0 <= m -> (2 ^ Zpos p | m) ->
  SpecFloat.iter_pos shr_1 p {| shr_m := m; shr_r := false; shr_s := false |} =
  {| shr_m := m / 2 ^ Zpos p; shr_r := false; shr_s := false |}.
Proof.
  induction p as [p IH|p IH|]; intros m Hm Hdiv; cbn [SpecFloat.iter_pos].
  - rewrite pow2_xI in *. destruct Hdiv as [k Hk].
    assert (Hp : 0 < 2 ^ Zpos p) by lia.
    assert (E1 : m / 2 = k * 2 ^ Zpos p * 2 ^ Zpos p).
    { symmetry. apply (Z.div_unique_pos _ _ _ 0); lia. }
    rewrite shr_1_exact; [|lia|exists (k * 2 ^ Zpos p * 2 ^ Zpos p); lia].
    assert (E2 : m / 2 / 2 ^ Zpos p = k * 2 ^ Zpos p).
    { rewrite E1. apply Z.div_mul. lia. }
    rewrite IH; [|rewrite E1; nia|rewrite E1; exists (k * 2 ^ Zpos p); lia].
    rewrite IH; [|rewrite E2; nia|rewrite E2; exists k; lia].
    f_equal. rewrite E2. rewrite Z.div_mul by lia.
    rewrite Hk, Z.div_mul by lia. reflexivity.
  - rewrite pow2_xO in *. destruct Hdiv as [k Hk].
    assert (Hp : 0 < 2 ^ Zpos p) by lia.
    assert (E1 : m / 2 ^ Zpos p = k * 2 ^ Zpos p).
    { symmetry. apply (Z.div_unique_pos _ _ _ 0); nia. }
    rewrite IH; [|lia|exists (k * 2 ^ Zpos p); lia].
    rewrite IH; [|rewrite E1; nia|rewrite E1; exists k; lia].
    f_equal. rewrite E1. rewrite Z.div_mul by lia.
    rewrite Hk, Z.div_mul by lia. reflexivity.
  - now apply shr_1_exact.
Qed.

Lemma fexp64_eq e : fexp64 e = Z.max (e - 53) (-1074).
Proof. reflexivity. Qed.

Lemma iter_xO m k : Zpos (Pos.iter xO m k) = Zpos m * 2 ^ Zpos k.
Proof.
  induction k as [|k IH] using Pos.peano_ind.
  - simpl. lia.
  - rewrite Pos.iter_succ, Pos2Z.inj_xO, IH, Pos2Z.inj_succ, Z.pow_succ_r by lia. lia.
Qed.

(** The digits of an exact or rounded-down quotient by a power of two. *)
Lemma size_div_pow2 m n q :
  0 <= n -> n < Zpos (Pos.size m) -> Zpos q = Zpos m / 2 ^ n ->
  Zpos (Pos.size q) = Zpos (Pos.size m) - n.
Proof.
  intros Hn Hlt Hq. pose proof (size_bounds m) as [Hlo Hhi].
  apply size_unique; [lia|]. rewrite Hq.
  assert (Hp : 0 < 2 ^ n) by (apply Z.pow_pos_nonneg; lia).
  split.
  - apply Z.div_le_lower_bound; [lia|].
    rewrite <- Z.pow_add_r by lia. replace (n + (Zpos (Pos.size m) - n - 1)) with (Zpos (Pos.size m) - 1) by lia.
    exact Hlo.
  - apply Z.div_lt_upper_bound; [lia|].
    rewrite <- Z.pow_add_r by lia. replace (n + (Zpos (Pos.size m) - n)) with (Zpos (Pos.size m)) by lia.
    exact Hhi.
Qed.

(** [shr_fexp] on a mantissa that needs no shift or a right shift. *)
Lemma shr_fexp_m m e l :
  e <= fexp64 (Zpos (Pos.size m) + e) ->
  let ec := fexp64 (Zpos (Pos.size m) + e) in
  exists mrs, shr_fexp prec emax (Zpos m) e l = (mrs, ec) /\
              shr_m mrs = Zpos m / 2 ^ (ec - e).
Proof.
  intros Hle ec. unfold shr_fexp. rewrite Zdigits2_pos. fold ec.
  unfold shr. destruct (ec - e) as [|n|n] eqn:En; try lia.
  - eexists. split; [f_equal; lia|]. destruct l as [|[]]; simpl; now rewrite Z.div_1_r.
  - eexists. split; [f_equal; lia|]. rewrite iter_shr_m; [|destruct l as [|[]]; simpl; lia].
    destruct l as [|[]]; reflexivity.
Qed.

Lemma shr_fexp_exact m e :
  e <= fexp64 (Zpos (Pos.size m) + e) ->
  let ec := fexp64 (Zpos (Pos.size m) + e) in
  (2 ^ (ec - e) | Zpos m) ->
  shr_fexp prec emax (Zpos m) e loc_Exact =
  ({| shr_m := Zpos m / 2 ^ (ec - e); shr_r := false; shr_s := false |}, ec).
Proof.
  intros Hle ec Hdiv. unfold shr_fexp. rewrite Zdigits2_pos. fold ec.
  unfold shr. destruct (ec - e) as [|n|n] eqn:En; try lia.
  - simpl. rewrite Z.div_1_r. f_equal. lia.
  - simpl shr_record_of_loc. rewrite iter_shr_exact; [f_equal; lia|lia|exact Hdiv].
Qed.

(** A mantissa that is already in place is kept. *)
Lemma shr_fexp_keep m e :
  fexp64 (Zpos (Pos.size m) + e) = e ->
  shr_fexp prec emax (Zpos m) e loc_Exact =
  ({| shr_m := Zpos m; shr_r := false; shr_s := false |}, e).
Proof.
  intros Hc. rewrite shr_fexp_exact; rewrite ?Hc, ?Z.sub_diag; try lia.
  - now rewrite Z.pow_0_r, Z.div_1_r.
  - exists (Zpos m). rewrite Z.pow_0_r. lia.
Qed.

Lemma finish_keep s m e :
  fexp64 (Zpos (Pos.size m) + e) = e -> e <= 971 ->
  (let '(mrs, e') := shr_fexp prec emax (Zpos m) e loc_Exact in
   match shr_m mrs with
   | 0 => S754_zero s
   | Zpos m => if e' <=? emax - prec then S754_finite s m e' else S754_infinity s
   | Zneg _ => S754_nan
   end) = S754_finite s m e.
Proof.
  intros Hc He. rewrite (shr_fexp_keep m e Hc). cbn [shr_m].
  change (emax - prec) with 971. destruct (Z.leb_spec e 971); [reflexivity|lia].
Qed.

Lemma round_aux_keep s m e :
  fexp64 (Zpos (Pos.size m) + e) = e -> e <= 971 ->
  binary_round_aux prec emax s (Zpos m) e loc_Exact = S754_finite s m e.
Proof.
  intros Hc He. unfold binary_round_aux.
  rewrite (shr_fexp_keep m e Hc). cbn [shr_m loc_of_shr_record round_nearest_even].
  now apply finish_keep.
Qed.

(** Rounding a value that is representable is exact. *)
Lemma round_aux_exact s m e q :
  let ec := fexp64 (Zpos (Pos.size m) + e) in
  e <= ec -> ec <= 971 -> ec - e < Zpos (Pos.size m) ->
  Zpos m = Zpos q * 2 ^ (ec - e) ->
  binary_round_aux prec emax s (Zpos m) e loc_Exact = S754_finite s q ec.
Proof.
  intros ec Hle Hmax Hlt Hq.
  assert (Hp : 0 < 2 ^ (ec - e)) by (apply Z.pow_pos_nonneg; lia).
  assert (Hdiv : Zpos m / 2 ^ (ec - e) = Zpos q) by (rewrite Hq; apply Z.div_mul; lia).
  unfold binary_round_aux.
  rewrite shr_fexp_exact; [|exact Hle|exists (Zpos q); exact Hq].
  fold ec. rewrite Hdiv. cbn [shr_m loc_of_shr_record round_nearest_even].
  assert (Hsz : Zpos (Pos.size q) = Zpos (Pos.size m) - (ec - e)).
  { apply size_div_pow2; [lia|exact Hlt|now symmetry]. }
  assert (Hc : fexp64 (Zpos (Pos.size q) + ec) = ec).
  { rewrite Hsz. replace (Zpos (Pos.size m) - (ec - e) + ec) with (Zpos (Pos.size m) + e) by lia.
    reflexivity. }
  now apply finish_keep.
Qed.

Lemma Zdigits2_range X : 0 < X < 2 ^ 53 -> 1 <= Zdigits2 X <= 53.
Proof.
  intros [H0 H1]. destruct X as [|x|x]; try lia. rewrite Zdigits2_pos.
  pose proof (size_bounds x) as [Hlo _]. split; [lia|].
  destruct (Z.le_gt_cases (Zpos (Pos.size x)) 53) as [H|H]; [exact H|exfalso].
  assert (2 ^ 53 <= 2 ^ (Zpos (Pos.size x) - 1)) by (apply Z.pow_le_mono_r; lia). lia.
Qed.

Lemma mantissa53_spec X :
  0 < X < 2 ^ 53 ->
  Zpos (mantissa53 X) = X * 2 ^ (53 - Zdigits2 X) /\
  Zpos (Pos.size (mantissa53 X)) = 53.
Proof.
  intros HX. pose proof (Zdigits2_range X HX) as Hd.
  assert (Hp : 0 < 2 ^ (53 - Zdigits2 X)) by (apply Z.pow_pos_nonneg; lia).
  assert (Hm : Zpos (mantissa53 X) = X * 2 ^ (53 - Zdigits2 X)).
  { unfold mantissa53. rewrite Z2Pos.id; [reflexivity|nia]. }
  split; [exact Hm|].
  apply size_unique; [lia|]. rewrite Hm.
  destruct X as [|x|x]; try lia. rewrite Zdigits2_pos in *.
  pose proof (size_bounds x) as [Hlo Hhi].
  replace (2 ^ (53 - 1)) with (2 ^ (Zpos (Pos.size x) - 1) * 2 ^ (53 - Zpos (Pos.size x))).
  2:{ rewrite <- Z.pow_add_r by lia. f_equal. lia. }
  replace (2 ^ 53) with (2 ^ Zpos (Pos.size x) * 2 ^ (53 - Zpos (Pos.size x))).
  2:{ rewrite <- Z.pow_add_r by lia. f_equal. lia. }
  split; nia.
Qed.

Lemma of_Z_pos X :
  0 < X < 2 ^ 53 -> of_Z X = S754_finite false (mantissa53 X) (exponent53 X).
Proof.
  intros HX. pose proof (Zdigits2_range X HX) as Hd.
  pose proof (mantissa53_spec X HX) as [Hm Hsz].
  destruct X as [|x|x]; try lia.
  unfold of_Z, binary_normalize, binary_round.
  change (fexp prec emax (Zpos (digits2_pos x) + 0)) with (fexp64 (Zdigits2 (Zpos x) + 0)).
  rewrite Z.add_0_r, fexp64_eq, Z.max_l by lia.
  unfold shl_align.
  destruct (Zdigits2 (Zpos x) - 53 - 0) as [|n|n] eqn:En; try lia.
  - assert (E : mantissa53 (Zpos x) = x).
    { apply Pos2Z.inj. rewrite Hm. replace (53 - Zdigits2 (Zpos x)) with 0 by lia. lia. }
    rewrite <- E at 1.
    replace 0 with (exponent53 (Zpos x)) at 1 by (unfold exponent53; lia).
    apply round_aux_keep; [|unfold exponent53; lia].
    rewrite Hsz, fexp64_eq. unfold exponent53. lia.
  - assert (E : Pos.iter xO x n = mantissa53 (Zpos x)).
    { apply Pos2Z.inj. rewrite Hm, iter_xO. f_equal. f_equal. lia. }
    rewrite E.
    replace (Zdigits2 (Zpos x) - 53) with (exponent53 (Zpos x)) by reflexivity.
    apply round_aux_keep; [|unfold exponent53; lia].
    rewrite Hsz, fexp64_eq. unfold exponent53. lia.
Qed.

Lemma of_Z_0 : of_Z 0 = zero.
Proof. reflexivity. Qed.

Lemma Zdigits2_mono X Y : 0 < X <= Y -> Zdigits2 X <= Zdigits2 Y.
Proof.
  intros H. destruct X as [|x|x], Y as [|y|y]; try lia. rewrite !Zdigits2_pos.
  pose proof (size_bounds x) as [Hx _]. pose proof (size_bounds y) as [_ Hy].
  destruct (Z.le_gt_cases (Zpos (Pos.size x)) (Zpos (Pos.size y))) as [H'|H']; [exact H'|exfalso].
  assert (2 ^ Zpos (Pos.size y) <= 2 ^ (Zpos (Pos.size x) - 1)) by (apply Z.pow_le_mono_r; lia). lia.
Qed.

Lemma shl_align_fst m e e' :
  e' <= e -> Zpos (fst (shl_align m e e')) = Zpos m * 2 ^ (e - e').
Proof.
  intros H. unfold shl_align. destruct (e' - e) as [|n|n] eqn:En; try lia; simpl fst.
  - replace (e - e') with 0 by lia. lia.
  - rewrite iter_xO. f_equal. f_equal. lia.
Qed.

(** The digits of an integer scaled by a power of two. *)
Lemma size_mul_pow2 m k q :
  0 <= k -> Zpos q = Zpos m * 2 ^ k -> Zpos (Pos.size q) = Zpos (Pos.size m) + k.
Proof.
  intros Hk Hq. pose proof (size_bounds m) as [Hlo Hhi].
  assert (Hp : 0 < 2 ^ k) by (apply Z.pow_pos_nonneg; lia).
  apply size_unique; [lia|]. rewrite Hq.
  replace (Zpos (Pos.size m) + k - 1) with (Zpos (Pos.size m) - 1 + k) by lia.
  rewrite !Z.pow_add_r by lia. split; nia.
Qed.

(** Integer addition below 2^53 is exact. *)
Lemma add_of_Z w l :
  0 <= w -> 0 <= l -> w + l < 2 ^ 53 -> add (of_Z w) (of_Z l) = of_Z (w + l).
Proof.
  intros Hw Hl Hsum.
  destruct (Z.eq_dec w 0) as [->|Hw0].
  { rewrite of_Z_0, Z.add_0_l. destruct (Z.eq_dec l 0) as [->|Hl0]; [reflexivity|].
    rewrite (of_Z_pos l) by lia. reflexivity. }
  destruct (Z.eq_dec l 0) as [->|Hl0].
  { rewrite of_Z_0, Z.add_0_r. rewrite (of_Z_pos w) by lia. reflexivity. }
  rewrite (of_Z_pos w), (of_Z_pos l), (of_Z_pos (w + l)) by lia.
  pose proof (mantissa53_spec w ltac:(lia)) as [Hmw Hsw].
  pose proof (mantissa53_spec l ltac:(lia)) as [Hml Hsl].
  pose proof (mantissa53_spec (w + l) ltac:(lia)) as [Hmt Hst].
  pose proof (Zdigits2_range w ltac:(lia)) as Hdw.
  pose proof (Zdigits2_range l ltac:(lia)) as Hdl.
  pose proof (Zdigits2_range (w + l) ltac:(lia)) as Hdt.
  pose proof (Zdigits2_mono w (w + l) ltac:(lia)) as Hwt.
  pose proof (Zdigits2_mono l (w + l) ltac:(lia)) as Hlt.
  unfold add, SFadd, exponent53.
  set (ez := Z.min (Zdigits2 w - 53) (Zdigits2 l - 53)).
  cbn [cond_Zopp]. rewrite !shl_align_fst by lia.
  rewrite Hmw, Hml.
  assert (HM : w * 2 ^ (53 - Zdigits2 w) * 2 ^ (Zdigits2 w - 53 - ez) +
               l * 2 ^ (53 - Zdigits2 l) * 2 ^ (Zdigits2 l - 53 - ez) =
               (w + l) * 2 ^ (- ez)).
  { rewrite <- !Z.mul_assoc, <- !Z.pow_add_r by lia.
    replace (53 - Zdigits2 w + (Zdigits2 w - 53 - ez)) with (- ez) by lia.
    replace (53 - Zdigits2 l + (Zdigits2 l - 53 - ez)) with (- ez) by lia. lia. }
  rewrite HM.
  assert (Hp : 0 < 2 ^ (- ez)) by (apply Z.pow_pos_nonneg; lia).
  assert (HposM : 0 < (w + l) * 2 ^ (- ez)) by (apply Z.mul_pos_pos; lia).
  destruct ((w + l) * 2 ^ (- ez)) as [|M|M] eqn:EM; try lia.
  assert (Ht : exists t, w + l = Zpos t) by (destruct (w + l) as [|t|t]; try lia; eauto).
  destruct Ht as [t Et].
  assert (HsM : Zpos (Pos.size M) = Zdigits2 (w + l) - ez).
  { rewrite Et, Zdigits2_pos. replace (Zpos (Pos.size t) - ez) with (Zpos (Pos.size t) + - ez) by lia.
    apply size_mul_pow2; [lia|]. rewrite <- Et. now symmetry. }
  unfold binary_normalize, binary_round.
  rewrite digits2_pos_size, HsM.
  replace (Zdigits2 (w + l) - ez + ez) with (Zdigits2 (w + l)) by lia.
  assert (Hf : fexp prec emax (Zdigits2 (w + l)) = Zdigits2 (w + l) - 53).
  { rewrite fexp64_eq. lia. }
  rewrite Hf. unfold shl_align.
  destruct (Zdigits2 (w + l) - 53 - ez) as [|n|n] eqn:En; try lia.
  - replace ez with (Zdigits2 (w + l) - 53) at 1 by lia.
    assert (E : M = mantissa53 (w + l)).
    { apply Pos2Z.inj. rewrite Hmt, <- EM. f_equal. f_equal. lia. }
    rewrite E. apply round_aux_keep; [|lia]. rewrite Hst, fexp64_eq. lia.
  - assert (Hec : fexp64 (Zpos (Pos.size M) + ez) = Zdigits2 (w + l) - 53).
    { rewrite HsM. replace (Zdigits2 (w + l) - ez + ez) with (Zdigits2 (w + l)) by lia. exact Hf. }
    rewrite <- Hec. apply round_aux_exact; rewrite ?Hec; try lia.
    rewrite Hmt, <- EM, <- Z.mul_assoc, <- Z.pow_add_r by lia. f_equal. f_equal. lia.
Qed.

Lemma round_nearest_even_cases m l :
  round_nearest_even m l = m \/ round_nearest_even m l = m + 1.
Proof. destruct l as [|[]]; simpl; auto. destruct (Z.even m); auto. Qed.

Lemma finish_carry s e :
  -1074 <= e -> e + 1 <= 971 ->
  (let '(mrs, e') := shr_fexp prec emax (2 ^ 53) e loc_Exact in
   match shr_m mrs with
   | 0 => S754_zero s
   | Zpos m => if e' <=? emax - prec then S754_finite s m e' else S754_infinity s
   | Zneg _ => S754_nan
   end) = S754_finite s (2 ^ 52)%positive (e + 1).
Proof.
  intros He1 He2.
  change (2 ^ 53) with (Zpos (2 ^ 53)%positive).
  assert (Hsz : Zpos (Pos.size (2 ^ 53)%positive) = 54) by reflexivity.
  assert (Hec : fexp64 (Zpos (Pos.size (2 ^ 53)%positive) + e) = e + 1).
  { rewrite Hsz, fexp64_eq. lia. }
  rewrite shr_fexp_exact; rewrite ?Hec; try lia.
  - replace (e + 1 - e) with 1 by lia. cbn [shr_m].
    change (Zpos (2 ^ 53)%positive / 2 ^ 1) with (Zpos (2 ^ 52)%positive).
    change (emax - prec) with 971. destruct (Z.leb_spec (e + 1) 971); [reflexivity|lia].
  - replace (e + 1 - e) with 1 by lia. exists (2 ^ 52). reflexivity.
Qed.

(** Rounding a mantissa of at least 53 digits, whatever the bits below it:
    the mantissa is cut to 53 digits and kept or incremented, the
    increment carrying into the exponent when it reaches 2^53. *)
Lemma round_aux_faithful s m e l :
  let d := Zpos (Pos.size m) in
  let ec := d + e - 53 in
  let m1 := Zpos m / 2 ^ (ec - e) in
  53 <= d -> -1074 <= ec -> ec + 1 <= 971 ->
  exists m' e',
    binary_round_aux prec emax s (Zpos m) e l = S754_finite s m' e' /\
    2 ^ 52 <= m1 < 2 ^ 53 /\
    ((Zpos m' = m1 /\ e' = ec) \/
     (Zpos m' = m1 + 1 /\ e' = ec) \/
     (Zpos m' = 2 ^ 52 /\ m1 + 1 = 2 ^ 53 /\ e' = ec + 1)).
Proof.
  intros d ec m1 Hd Hlo Hhi.
  assert (Hf : fexp64 (Zpos (Pos.size m) + e) = ec).
  { rewrite fexp64_eq. fold d. unfold ec. lia. }
  assert (Hp : 0 < 2 ^ (ec - e)) by (apply Z.pow_pos_nonneg; unfold ec; lia).
  pose proof (size_bounds m) as [Hmlo Hmhi]. fold d in Hmlo, Hmhi.
  assert (Hm1 : 2 ^ 52 <= m1 < 2 ^ 53).
  { unfold m1. split.
    - apply Z.div_le_lower_bound; [lia|]. rewrite <- Z.pow_add_r by (unfold ec; lia).
      replace (ec - e + 52) with (d - 1) by (unfold ec; lia). exact Hmlo.
    - apply Z.div_lt_upper_bound; [lia|]. rewrite <- Z.pow_add_r by (unfold ec; lia).
      replace (ec - e + 53) with d by (unfold ec; lia). exact Hmhi. }
  destruct (shr_fexp_m m e l) as (mrs & Hs & Hsm); [rewrite Hf; unfold ec; lia|].
  rewrite Hf in Hs, Hsm. fold m1 in Hsm. clearbody m1.
  unfold binary_round_aux. rewrite Hs, Hsm.
  destruct m1 as [|p1|p1]; try lia.
  assert (Hsz1 : Zpos (Pos.size p1) = 53) by (apply size_unique; lia).
  destruct (round_nearest_even_cases (Zpos p1) (loc_of_shr_record mrs)) as [-> | ->].
  - exists p1, ec. split; [|split; [exact Hm1|left; auto]].
    apply finish_keep; [rewrite Hsz1, fexp64_eq; lia|lia].
  - change (Zpos p1 + 1) with (Zpos (p1 + 1)).
    destruct (Z.eq_dec (Zpos (p1 + 1)) (2 ^ 53)) as [E|NE].
    + exists (2 ^ 52)%positive, (ec + 1). split; [|split; [exact Hm1|right; right]].
      * rewrite E. apply finish_carry; lia.
      * split; [reflexivity|]. split; [|reflexivity]. rewrite Pos2Z.inj_add in E. exact E.
    + exists (p1 + 1)%positive, ec. split; [|split; [exact Hm1|right; left; split; [lia|reflexivity]]].
      apply finish_keep; [|lia].
      assert (Hsz2 : Zpos (Pos.size (p1 + 1)) = 53) by (apply size_unique; lia).
      rewrite Hsz2, fexp64_eq. lia.
Qed.

Lemma pow2_le_inv a b : 0 <= b -> 2 ^ a <= 2 ^ b -> a <= b.
Proof.
  intros Hb H. destruct (Z.le_gt_cases a b) as [|Hgt]; [assumption|exfalso].
  assert (2 ^ b < 2 ^ a) by (apply Z.pow_lt_mono_r; lia). lia.
Qed.

(** The quotient of two integers below 2^53, [X <= Y]: a double [m * 2^-E]
    within [2^-52] of [X / Y], and not above [1 + 2^-52]. *)
Lemma div_of_Z X Y :
  0 < X -> X <= Y -> Y < 2 ^ 53 ->
  exists m E,
    div (of_Z X) (of_Z Y) = S754_finite false m (- E) /\
    52 <= E /\
    Z.abs (Zpos m * Y - X * 2 ^ E) * 2 ^ 52 <= Y * 2 ^ E /\
    Zpos m <= 2 ^ E + 1.
Proof.
  intros HX HXY HY.
  rewrite (of_Z_pos X), (of_Z_pos Y) by lia.
  pose proof (mantissa53_spec X ltac:(lia)) as [Hmx Hsx].
  pose proof (mantissa53_spec Y ltac:(lia)) as [Hmy Hsy].
  pose proof (Zdigits2_range X ltac:(lia)) as HdX.
  pose proof (Zdigits2_range Y ltac:(lia)) as HdY.
  pose proof (size_bounds (mantissa53 X)) as [Hxlo Hxhi]. rewrite Hsx in Hxlo, Hxhi.
  pose proof (size_bounds (mantissa53 Y)) as [Hylo Hyhi]. rewrite Hsy in Hylo, Hyhi.
  set (mx := mantissa53 X) in *. set (my := mantissa53 Y) in *.
  set (a := 53 - Zdigits2 X) in *. set (b := 53 - Zdigits2 Y) in *.
  unfold div, SFdiv, SFdiv_core_binary, exponent53.
  rewrite !Zdigits2_pos. fold mx my. rewrite Hsx, Hsy.
  set (e' := Z.min _ _).
  assert (He' : e' = b - a - 53).
  { unfold e'. rewrite fexp64_eq. unfold a, b. lia. }
  replace (Zdigits2 X - 53 - (Zdigits2 Y - 53) - e') with 53 by (rewrite He'; unfold a, b; lia).
  rewrite Z.shiftl_mul_pow2 by lia.
  pose proof (Z_div_mod (Zpos mx * 2 ^ 53) (Zpos my) ltac:(lia)) as Hdm.
  destruct (Z.div_eucl (Zpos mx * 2 ^ 53) (Zpos my)) as [q r].
  destruct Hdm as [Hq Hr].
  assert (Hq52 : 2 ^ 52 <= q < 2 ^ 54).
  { change (2 ^ 53) with 9007199254740992 in *. change (2 ^ 52) with 4503599627370496 in *.
    change (2 ^ 54) with 18014398509481984. change (2 ^ (53 - 1)) with 4503599627370496 in *. nia. }
  destruct q as [|qp|qp]; try lia.
  pose proof (size_bounds qp) as [Hqlo Hqhi].
  assert (Hsq : 53 <= Zpos (Pos.size qp) <= 54).
  { split.
    - destruct (Z.le_gt_cases 53 (Zpos (Pos.size qp))) as [|Hgt]; [assumption|exfalso].
      assert (2 ^ Zpos (Pos.size qp) <= 2 ^ 52) by (apply Z.pow_le_mono_r; lia). lia.
    - destruct (Z.le_gt_cases (Zpos (Pos.size qp)) 54) as [|Hgt]; [assumption|exfalso].
      assert (2 ^ 54 <= 2 ^ (Zpos (Pos.size qp) - 1)) by (apply Z.pow_le_mono_r; lia). lia. }
  destruct (round_aux_faithful (xorb false false) qp e' (new_location (Zpos my) r))
    as (m' & e'' & Hround & Hm1 & Hcases); try lia.
  rewrite Hround. simpl xorb.
  set (n := Zpos (Pos.size qp) - 53) in *.
  replace (Zpos (Pos.size qp) + e' - 53 - e') with n in * by (unfold n; lia).
  replace (Zpos (Pos.size qp) + e' - 53) with (e' + n) in * by (unfold n; lia).
  set (m1 := Zpos qp / 2 ^ n) in *.
  set (E := 53 + a - b - n).
  assert (HE0 : 0 <= E) by (unfold E, a, b, n; lia).
  assert (Hn : 0 <= n <= 1) by (unfold n; lia).
  assert (Hpn : 0 < 2 ^ n) by (apply Z.pow_pos_nonneg; lia).
  assert (Hm1q : m1 * 2 ^ n <= Zpos qp < (m1 + 1) * 2 ^ n).
  { unfold m1. pose proof (Z.mul_div_le (Zpos qp) (2 ^ n) Hpn).
    pose proof (Z.mul_succ_div_gt (Zpos qp) (2 ^ n) Hpn). lia. }
  assert (Hscale : Zpos mx * 2 ^ 53 = X * 2 ^ E * (2 ^ n * 2 ^ b)).
  { rewrite Hmx. rewrite <- (Z.pow_add_r 2 n b) by (unfold b; lia).
    rewrite <- !Z.mul_assoc, <- !Z.pow_add_r by (unfold a, b, E in *; lia).
    f_equal. f_equal. unfold E. lia. }
  assert (Hpb : 0 < 2 ^ n * 2 ^ b).
  { apply Z.mul_pos_pos; [lia|]. apply Z.pow_pos_nonneg; unfold b; lia. }
  assert (Hlow : m1 * Y <= X * 2 ^ E).
  { apply (Z.mul_le_mono_pos_r _ _ (2 ^ n * 2 ^ b) Hpb).
    rewrite <- Hscale, Hq.
    replace (m1 * Y * (2 ^ n * 2 ^ b)) with ((m1 * 2 ^ n) * (Y * 2 ^ b)) by ring.
    rewrite <- Hmy.
    transitivity (Zpos qp * Zpos my); [apply Z.mul_le_mono_nonneg_r; lia | lia]. }
  assert (Hupp : X * 2 ^ E < (m1 + 1) * Y).
  { apply (Z.mul_lt_mono_pos_r (2 ^ n * 2 ^ b) _ _ Hpb).
    rewrite <- Hscale, Hq.
    replace ((m1 + 1) * Y * (2 ^ n * 2 ^ b)) with (((m1 + 1) * 2 ^ n) * (Y * 2 ^ b)) by ring.
    rewrite <- Hmy.
    apply Z.lt_le_trans with (Zpos my * (Zpos qp + 1)); [lia|].
    rewrite (Z.mul_comm (Zpos my)). apply Z.mul_le_mono_nonneg_r; lia. }
  assert (Hm1E : m1 <= 2 ^ E).
  { assert (HpE : 0 < 2 ^ E) by (apply Z.pow_pos_nonneg; lia).
    apply (Z.mul_le_mono_pos_r _ _ Y ltac:(lia)).
    transitivity (X * 2 ^ E); [exact Hlow|].
    rewrite (Z.mul_comm (2 ^ E)). apply Z.mul_le_mono_nonneg_r; lia. }
  assert (HE52 : 52 <= E) by (apply pow2_le_inv; lia).
  assert (HpE : 2 ^ 52 <= 2 ^ E) by (apply Z.pow_le_mono_r; lia).
  destruct Hcases as [[Hm He]|[[Hm He]|(Hm & Hc & He)]].
  - exists m', E. rewrite He. split; [f_equal; unfold E; lia|]. split; [exact HE52|].
    rewrite Hm. split; [|lia].
    rewrite Z.abs_neq by lia.
    transitivity (Y * 2 ^ 52);
      [apply Z.mul_le_mono_nonneg_r; lia | apply Z.mul_le_mono_nonneg_l; lia].
  - exists m', E. rewrite He. split; [f_equal; unfold E; lia|]. split; [exact HE52|].
    rewrite Hm. split; [|lia].
    rewrite Z.abs_eq by lia.
    transitivity (Y * 2 ^ 52);
      [apply Z.mul_le_mono_nonneg_r; lia | apply Z.mul_le_mono_nonneg_l; lia].
  - assert (HE53 : 53 <= E).
    { destruct (Z.eq_dec E 52) as [E52|]; [|lia].
      rewrite E52 in Hm1E. change (2 ^ 53) with (2 * 2 ^ 52) in Hc. lia. }
    exists m', (E - 1). rewrite He. split; [f_equal; unfold E; lia|]. split; [lia|].
    assert (HEs : 2 ^ E = 2 * 2 ^ (E - 1)).
    { rewrite <- Z.pow_succ_r by lia. f_equal. lia. }
    assert (Hp1 : 2 ^ 52 <= 2 ^ (E - 1)) by (apply Z.pow_le_mono_r; lia).
    rewrite Hm. split; [|lia].
    assert (Hm1v : m1 = 2 * 2 ^ 52 - 1) by (change (2 ^ 53) with (2 * 2 ^ 52) in Hc; lia).
    rewrite HEs, Hm1v in Hlow, Hupp.
    set (P := 2 ^ (E - 1)) in *.
    set (D := 2 ^ 52 * Y - X * P).
    assert (HD : 0 <= D /\ 2 * D <= Y) by (unfold D; lia).
    rewrite Z.abs_eq by lia. fold D.
    transitivity (Y * 2 ^ 52); [|apply Z.mul_le_mono_nonneg_l; lia].
    apply Z.mul_le_mono_nonneg_r; lia.
Qed.

(** ** Win percentage *)

Lemma up_to_In k n : 0 <= n <= Z.of_nat k -> In n (up_to k).
Proof.
  intros H. unfold up_to. apply in_map_iff. exists (Z.to_nat n). split; [lia|].
  apply in_seq. lia.
Qed.

Lemma fixed3_reads n : 0 <= n <= 1000 -> reads_thousandths (fixed3 n) n = true.
Proof.
  intros H.
  assert (Hall : forallb (fun n => reads_thousandths (fixed3 n) n) (up_to 1000) = true)
    by (vm_compute; reflexivity).
  rewrite forallb_forall in Hall. apply Hall. apply up_to_In. lia.
Qed.

(** [toFixed(3)] of a positive double [m * 2^-E] that is at most about 1. *)
Lemma toFixed3_small m E :
  52 <= E -> Zpos m <= 2 ^ E + 1 ->
  let n := (2 * 1000 * Zpos m + 2 ^ E) / 2 ^ (E + 1) in
  toFixed3 (S754_finite false m (- E)) = fixed3 n /\
  0 <= n <= 1000 /\
  Z.abs (2 * 2 ^ E * n - 2000 * Zpos m) <= 2 ^ E.
Proof.
  intros HE Hm n.
  assert (HpE : 2 ^ 52 <= 2 ^ E) by (apply Z.pow_le_mono_r; lia).
  assert (Hs : 2 ^ (E + 1) = 2 * 2 ^ E) by (rewrite Z.pow_add_r by lia; lia).
  change (2 ^ 52) with 4503599627370496 in HpE.
  assert (Hp : 0 < 2 ^ (E + 1)) by lia.
  pose proof (Z.mul_div_le (2 * 1000 * Zpos m + 2 ^ E) (2 ^ (E + 1)) Hp) as Hlo.
  pose proof (Z.mul_succ_div_gt (2 * 1000 * Zpos m + 2 ^ E) (2 ^ (E + 1)) Hp) as Hhi.
  fold n in Hlo, Hhi. rewrite Hs in Hlo, Hhi.
  assert (Hn : 0 <= n <= 1000).
  { split.
    - unfold n. apply Z.div_pos; lia.
    - assert (n < 1001); [|lia]. apply Z.div_lt_upper_bound; [lia|]. rewrite Hs. lia. }
  split; [|split; [exact Hn|]].
  - unfold n. destruct E as [|p|p]; try lia.
    change (- Zpos p) with (Zneg p). unfold toFixed3, at_least_1e21, thousandths.
    change (10 ^ 21) with 1000000000000000000000.
    destruct (Z.leb_spec (1000000000000000000000 * 2 ^ Zpos p) (Zpos m)); [lia|reflexivity].
  - apply Z.abs_le. nia.
Qed.

Lemma accuracy_combine m E n X Y :
  0 < Y -> 0 <= E ->
  Z.abs (Zpos m * Y - X * 2 ^ E) * 2 ^ 52 <= Y * 2 ^ E ->
  Z.abs (2 * 2 ^ E * n - 2000 * Zpos m) <= 2 ^ E ->
  2 ^ 53 * Z.abs (n * Y - 1000 * X) <= (2 ^ 52 + 2000) * Y.
Proof.
  intros HY HE H2 H1.
  assert (HA : 0 < 2 ^ E) by (apply Z.pow_pos_nonneg; lia).
  set (A := 2 ^ E) in *. set (a1 := 2 * A * n - 2000 * Zpos m) in *.
  set (a2 := Zpos m * Y - X * A) in *. set (T := n * Y - 1000 * X).
  assert (HT : 2 * A * T = a1 * Y + 2000 * a2) by (unfold a1, a2, T; ring).
  assert (Habs : 2 * A * Z.abs T <= Z.abs a1 * Y + 2000 * Z.abs a2).
  { replace (2 * A * Z.abs T) with (Z.abs (2 * A * T)).
    2:{ rewrite Z.abs_mul, (Z.abs_eq (2 * A)) by lia. reflexivity. }
    rewrite HT. etransitivity; [apply Z.abs_triangle|].
    rewrite !Z.abs_mul, (Z.abs_eq Y), (Z.abs_eq 2000) by lia. lia. }
  assert (Hb1 : Z.abs a1 * Y <= A * Y) by (apply Z.mul_le_mono_nonneg_r; lia).
  apply (Z.mul_le_mono_pos_l _ _ A HA).
  change (2 ^ 53) with (2 ^ 52 * 2). change (2 ^ 52) with 4503599627370496 in *.
  set (AT := A * Z.abs T) in *.
  replace (2 * A * Z.abs T) with (2 * AT) in Habs by (unfold AT; ring).
  replace (A * (4503599627370496 * 2 * Z.abs T)) with (4503599627370496 * (2 * AT)) by (unfold AT; ring).
  replace (A * ((4503599627370496 + 2000) * Y)) with (4503599627370496 * (A * Y) + 2000 * (Y * A)) by ring.
  lia.
Qed.

(** The quotient of two counts, to three decimals: [toFixed(3)] gives the
    digits of a thousandth [n] that is as near the exact quotient as the
    rounding of the division allows. *)
Lemma quotient_fixed3 X Y :
  0 <= X -> X <= Y -> 0 < Y -> Y < 2 ^ 53 ->
  exists n,
    toFixed3 (div (of_Z X) (of_Z Y)) = fixed3 n /\
    0 <= n <= 1000 /\
    2 ^ 53 * Z.abs (n * Y - 1000 * X) <= (2 ^ 52 + 2000) * Y.
Proof.
  intros HX HXY HY HY53.
  destruct (Z.eq_dec X 0) as [->|HX0].
  - exists 0. rewrite of_Z_0, (of_Z_pos Y) by lia.
    split; [reflexivity|]. split; [lia|]. simpl Z.abs. lia.
  - destruct (div_of_Z X Y) as (m & E & Hdiv & HE & Hacc & Hm); try lia.
    destruct (toFixed3_small m E HE Hm) as (Hfix & Hn & Hround).
    eexists. rewrite Hdiv. split; [exact Hfix|]. split; [exact Hn|].
    apply (accuracy_combine m E); try lia; assumption.
Qed.

(** Below 2^41 games the thousandth is a nearest one to the exact
    quotient. *)
Lemma nearest_thousandth n X Y :
  0 < Y < 2 ^ 41 ->
  2 ^ 53 * Z.abs (n * Y - 1000 * X) <= (2 ^ 52 + 2000) * Y ->
  2 * Z.abs (n * Y - 1000 * X) <= Y.
Proof.
  intros HY Hacc.
  change (2 ^ 53) with 9007199254740992 in Hacc.
  change (2 ^ 52) with 4503599627370496 in Hacc.
  change (2 ^ 41) with 2199023255552 in HY.
  lia.
Qed.

(** C4: for non-negative integers [wins] and [losses] (counts that a
    JavaScript number holds exactly, their sum below 2^53),
    [calculateWinPercentage] returns "0.000" when [wins + losses = 0];
    otherwise it returns [(wins / total).toFixed(3)], which is a digit, a
    point and three digits reading a thousandth [n / 1000] between 0 and 1
    that is nearest to [wins / (wins + losses)]: exactly so below 2^41
    games, and within the rounding of the division above. *)
Theorem calculateWinPercentage_spec wins losses :
  0 <= wins -> 0 <= losses -> wins + losses < 2 ^ 53 ->
  (wins + losses = 0 ->
     calculateWinPercentage (of_Z wins) (of_Z losses) = "0.000") /\
  (0 < wins + losses ->
     calculateWinPercentage (of_Z wins) (of_Z losses) =
       toFixed3 (div (of_Z wins) (of_Z (wins + losses))) /\
     exists n,
       calculateWinPercentage (of_Z wins) (of_Z losses) = fixed3 n /\
       reads_thousandths (fixed3 n) n = true /\
       0 <= n <= 1000 /\
       2 ^ 53 * Z.abs (n * (wins + losses) - 1000 * wins)
         <= (2 ^ 52 + 2000) * (wins + losses) /\
       (wins + losses < 2 ^ 41 ->
          2 * Z.abs (n * (wins + losses) - 1000 * wins) <= wins + losses)).
Proof.
  intros Hw Hl Hsum.
  unfold calculateWinPercentage. rewrite add_of_Z by lia.
  split.
  - intros H0. rewrite H0. reflexivity.
  - intros Hpos.
    assert (Hnz : eqb (of_Z (wins + losses)) zero = false).
    { rewrite of_Z_pos by lia. reflexivity. }
    rewrite Hnz. split; [reflexivity|].
    destruct (quotient_fixed3 wins (wins + losses)) as (n & Hfix & Hn & Hacc); try lia.
    exists n. split; [exact Hfix|]. split; [now apply fixed3_reads|]. split; [exact Hn|].
    split; [exact Hacc|].
    intros Hsmall. apply nearest_thousandth; [lia | exact Hacc].
Qed.

(** 39 wins and 41 losses: the quotient 0.4875 is not a double, the
    nearest double lies below it, and [toFixed(3)] gives "0.487". *)
Lemma calculateWinPercentage_spec_witness :
  calculateWinPercentage (of_Z 39) (of_Z 41) = "0.487" /\
  calculateWinPercentage (of_Z 0) (of_Z 0) = "0.000" /\
  exists n,
    calculateWinPercentage (of_Z 39) (of_Z 41) = fixed3 n /\
    2 * Z.abs (n * (39 + 41) - 1000 * 39) <= 39 + 41.
Proof.
  split; [vm_compute; reflexivity|].
  split.
  - apply (calculateWinPercentage_spec 0 0); lia.
  - destruct (calculateWinPercentage_spec 39 41) as [_ H]; [lia | lia | vm_compute; reflexivity |].
    destruct H as (_ & n & Hfix & _ & _ & _ & Hnear); [lia|].
    exists n. split; [exact Hfix|]. apply Hnear. vm_compute. reflexivity.
Defined.

(** ** Mock games *)

Lemma floor_scaled_range ticks n :
  0 < n -> 0 <= floor_scaled (ticks mod 2 ^ 53) n < n.
Proof.
  intros Hn. unfold floor_scaled.
  assert (H := Z.mod_pos_bound ticks (2 ^ 53) ltac:(lia)).
  split.
  - apply Z.div_pos; nia.
  - apply Z.div_lt_upper_bound; nia.
Qed.

Lemma bind_Normal {A B} (m : M A) (k : A -> M B) tp st b st2 :
  bind m k tp st = Normal b st2 ->
  exists a st1, m tp st = Normal a st1 /\ k a tp st1 = Normal b st2.
Proof.
  unfold bind. destruct (m tp st) as [a st1|e st1|st1]; try discriminate.
  intros H. eauto.
Qed.

Lemma getRandomInt_run min max tp st :
  getRandomInt min max tp st =
  Normal (floor_scaled (draw tp st) (max - min + 1) + min) (advance st).
Proof. reflexivity. Qed.

Lemma getRandomElement_run {A} (l : list A) tp st :
  getRandomElement l tp st =
  Normal (l !! Z.to_nat (floor_scaled (draw tp st) (Z.of_nat (length l)))) (advance st).
Proof. reflexivity. Qed.

Lemma getRandomInt_range min max tp st :
  min <= max -> min <= floor_scaled (draw tp st) (max - min + 1) + min <= max.
Proof.
  intros H. pose proof (floor_scaled_range (tp (cursor st)) (max - min + 1) ltac:(lia)).
  unfold draw. lia.
Qed.

(** An element drawn from a non-empty array is one of its elements. *)
Lemma random_index_lookup {A} (l : list A) ticks :
  l <> [] -> exists x, l !! Z.to_nat (floor_scaled (ticks mod 2 ^ 53) (Z.of_nat (length l))) = Some x.
Proof.
  intros Hl.
  assert (0 < Z.of_nat (length l)) by (destruct l; [congruence | simpl; lia]).
  pose proof (floor_scaled_range ticks _ H).
  apply lookup_lt_is_Some_2. lia.
Qed.

Lemma ltb_asym (x y : string) : String.ltb x y = true -> String.ltb y x = false.
Proof.
  unfold String.ltb. rewrite (String.compare_antisym y x).
  destruct (String.compare x y); simpl; congruence.
Qed.

Lemma ltb_total (x y : string) :
  String.ltb x y = false -> String.ltb y x = false -> x = y.
Proof.
  unfold String.ltb. rewrite (String.compare_antisym y x).
  destruct (String.compare x y) eqn:E; simpl; try congruence.
  intros _ _. now apply String.compare_eq_iff.
Qed.

Lemma pairKey_sym a b : pairKey a b = pairKey b a.
Proof.
  unfold pairKey, sort_pair.
  destruct a as [x|], b as [y|]; try reflexivity.
  destruct (String.ltb y x) eqn:E1, (String.ltb x y) eqn:E2; try reflexivity.
  - apply ltb_asym in E1. congruence.
  - rewrite (ltb_total _ _ E2 E1). reflexivity.
Qed.

Lemma same_pairing_key g1 g2 : same_pairing g1 g2 -> matchup_key g1 = matchup_key g2.
Proof.
  unfold matchup_key. intros [[-> ->]|[-> ->]]; [reflexivity | apply pairKey_sym].
Qed.

(** What the retry loop returns. *)
Lemma pick_matchup_spec fuel teams used tp st h a key st' :
  pick_matchup fuel teams used tp st = Normal (h, a, key) st' ->
  key = pairKey h a /\ (key ∉ used) /\ elapsed st' = elapsed st /\
  (exists i, h = teams !! i /\ (teams <> [] -> is_Some h)) /\
  (exists j, a = filter (fun t => Some t <> h) teams !! j /\
             (filter (fun t => Some t <> h) teams <> [] -> is_Some a)).
Proof.
  revert tp st. induction fuel as [|fuel IH]; intros tp st; simpl; [discriminate|].
  unfold bind at 1. rewrite getRandomElement_run.
  unfold bind at 1. rewrite getRandomElement_run.
  set (hh := teams !! _). set (aa := filter _ teams !! _).
  destruct (decide (pairKey hh aa ∈ used)) as [Hin|Hnin].
  - intros H. apply IH in H. simpl in H. exact H.
  - unfold ret. intros [= <- <- <- <-]. simpl. repeat split; auto.
    + exists (Z.to_nat (floor_scaled (draw tp st) (Z.of_nat (length teams)))). split; [reflexivity|].
      intros Hne. apply random_index_lookup. exact Hne.
    + eexists. split; [reflexivity|].
      intros Hne. apply random_index_lookup. exact Hne.
Qed.

Lemma games_loop_spec env fuel teams remaining :
  forall i used games tp st out st',
  games_loop env fuel teams remaining i used games tp st = Normal out st' ->
  (forall g, g ∈ games -> matchup_key g ∈ used) ->
  NoDup (matchup_key <$> games) ->
  Forall (generated_from teams) games ->
  NoDup (matchup_key <$> out) /\
  Forall (generated_from teams) out /\
  length out = (length games + remaining)%nat.
Proof.
  induction remaining as [|r IH]; intros i used games tp st out st'; simpl.
  - unfold ret. intros [= <- <-] _ Hnd Hall. repeat split; auto.
  - intros H Hused Hnd Hall.
    apply bind_Normal in H. destruct H as ([[h a] key] & st1 & Hpick & H).
    apply pick_matchup_spec in Hpick.
    destruct Hpick as (Hkey & Hfresh & _ & Hh & Ha).
    unfold bind in H at 1. rewrite getRandomInt_run in H.
    unfold bind in H at 1. rewrite getRandomInt_run in H.
    unfold bind in H at 1. unfold Date_now in H at 1.
    unfold bind in H at 1. rewrite getRandomInt_run in H.
    apply IH in H.
    + destruct H as (H1 & H2 & H3). repeat split; auto.
      rewrite H3, length_app. simpl. lia.
    + intros g Hg. apply elem_of_app in Hg. destruct Hg as [Hg|Hg].
      * apply elem_of_union_r. auto.
      * apply list_elem_of_singleton in Hg. subst g.
        apply elem_of_union_l, elem_of_singleton.
        unfold matchup_key. simpl. auto.
    + rewrite fmap_app. apply NoDup_app. split; [exact Hnd|]. split.
      * intros k Hk Hk'. simpl in Hk'. apply list_elem_of_singleton in Hk'.
        unfold matchup_key in Hk' at 1. simpl in Hk'. subst k.
        apply list_elem_of_fmap in Hk. destruct Hk as (g & Hg1 & Hg2).
        apply Hfresh. rewrite Hkey, Hg1. auto.
      * simpl. apply NoDup_singleton.
    + apply Forall_app. split; [exact Hall|]. constructor; [|constructor].
      unfold generated_from. simpl. auto.
Qed.

Lemma generateMockGames_spec env fuel teams count tp st out st' :
  generateMockGames env fuel teams count tp st = Normal out st' ->
  NoDup (matchup_key <$> out) /\
  Forall (generated_from teams) out /\
  length out = count.
Proof.
  unfold generateMockGames. intros H. apply games_loop_spec in H.
  - exact H.
  - intros g Hg. inversion Hg.
  - constructor.
  - constructor.
Qed.

(** C6: for every team list, a result of mock game generation with count 6
    has six games and no two of them have the same unordered pair of home
    and away team; the loop enforces it with the key of the sorted pair,
    which is the same for both orders of a pair and differs between any
    two games of one result. *)
Theorem generateMockGames_unique_pairings env fuel teams tp st games st' :
  generateMockGames env fuel teams 6 tp st = Normal games st' ->
  length games = 6%nat /\
  (forall h a, pairKey h a = pairKey a h) /\
  forall i j g1 g2, games !! i = Some g1 -> games !! j = Some g2 -> i <> j ->
    ~ same_pairing g1 g2 /\ matchup_key g1 <> matchup_key g2.
Proof.
  intros H. apply generateMockGames_spec in H. destruct H as (Hnd & _ & Hlen).
  split; [exact Hlen|]. split; [apply pairKey_sym|].
  intros i j g1 g2 H1 H2 Hij.
  assert (Hk : matchup_key g1 <> matchup_key g2).
  { intros E. apply Hij.
    eapply NoDup_lookup; [exact Hnd| |].
    - rewrite list_lookup_fmap, H1. reflexivity.
    - rewrite list_lookup_fmap, H2. simpl. now rewrite E. }
  split; [|exact Hk].
  intros Hs. apply Hk. now apply same_pairing_key.
Qed.

(** Six games over the NBA roster. *)
Lemma generateMockGames_unique_pairings_witness :
  exists games st',
    generateMockGames env_public 10 NBA_TEAMS 6 sample_tape start = Normal games st' /\
    length games = 6%nat /\
    forall i j g1 g2, games !! i = Some g1 -> games !! j = Some g2 -> i <> j ->
      ~ same_pairing g1 g2.
Proof.
  assert (H : exists games st',
             generateMockGames env_public 10 NBA_TEAMS 6 sample_tape start = Normal games st')
    by (eexists _, _; vm_compute; reflexivity).
  destruct H as (games & st' & H). exists games, st'. split; [exact H|].
  destruct (generateMockGames_unique_pairings _ _ _ _ _ _ _ H) as (Hlen & _ & Hu).
  split; [exact Hlen|].
  intros i j g1 g2 H1 H2 Hij. exact (proj1 (Hu i j g1 g2 H1 H2 Hij)).
Defined.

Lemma compare_cont_Eq_sym m1 m2 : Pos.compare_cont Eq m1 m2 = Eq -> Pos.compare_cont Eq m2 m1 = Eq.
Proof.
  intros H. apply Pos.compare_eq in H. subst. apply Pos.compare_refl.
Qed.

Lemma SFcompare_Eq_sym x y : SFcompare x y = Some Eq -> SFcompare y x = Some Eq.
Proof.
  destruct x as [sx|sx| |sx mx ex], y as [sy|sy| |sy my ey]; simpl;
    try destruct sx; try destruct sy; simpl; try congruence.
  all: destruct (Z.compare ex ey) eqn:E; try congruence;
       apply Z.compare_eq in E; subst; rewrite Z.compare_refl;
       intros [= H]; f_equal.
  - destruct (Pos.compare_cont Eq mx my) eqn:E; simpl in H; try congruence.
    now rewrite (compare_cont_Eq_sym _ _ E).
  - now apply compare_cont_Eq_sym.
Qed.

Lemma eqb_not_gtb x y : eqb x y = true -> gtb x y = false.
Proof.
  unfold eqb, gtb, SFeqb, SFltb. intros H.
  destruct (SFcompare x y) as [[]|] eqn:E; try discriminate.
  now rewrite (SFcompare_Eq_sym _ _ E).
Qed.

Lemma generated_home_away_differ teams g :
  teams <> [] -> generated_from teams g -> Game.homeTeam g <> Game.awayTeam g.
Proof.
  intros Hne ((i & Hh & Hsome) & (j & Ha & _) & _) E.
  destruct (Hsome Hne) as [x Hx].
  rewrite <- E, Hx in Ha. symmetry in Ha.
  apply list_elem_of_lookup_2 in Ha. apply list_elem_of_filter in Ha.
  destruct Ha as [Ha _]. now apply Ha.
Qed.

(** C9: in every game of a result of mock game generation (over a team
    list that is not empty), equal scores make the away team the winner;
    the winner is the home team or the away team, and it is the home team
    if and only if [homeScore > awayScore]. *)
Theorem generateMockGames_winner env fuel teams count tp st games st' g :
  teams <> [] ->
  generateMockGames env fuel teams count tp st = Normal games st' ->
  g ∈ games ->
  (eqb (Game.homeScore g) (Game.awayScore g) = true -> Game.winner g = Game.awayTeam g) /\
  (Game.winner g = Game.homeTeam g \/ Game.winner g = Game.awayTeam g) /\
  (Game.winner g = Game.homeTeam g <-> gtb (Game.homeScore g) (Game.awayScore g) = true).
Proof.
  intros Hne H Hg. apply generateMockGames_spec in H. destruct H as (_ & Hall & _).
  rewrite Forall_forall in Hall. specialize (Hall g Hg).
  pose proof (generated_home_away_differ teams g Hne Hall) as Hdiff.
  destruct Hall as (_ & _ & Hw & _).
  repeat split.
  - intros E. apply eqb_not_gtb in E. now rewrite E in Hw.
  - destruct (gtb _ _); auto.
  - intros E. destruct (gtb _ _); [reflexivity|]. congruence.
  - intros E. now rewrite E in Hw.
Qed.

(** With the same draw for both scores the game ends 80 to 80, and the
    away team is its winner. *)
Lemma generateMockGames_winner_witness :
  exists g st',
    generateMockGames env_public 1 NBA_TEAMS 1 zero_tape start = Normal [g] st' /\
    eqb (Game.homeScore g) (Game.awayScore g) = true /\
    Game.homeTeam g = Some "Lakers" /\
    Game.winner g = Some "Celtics" /\
    Game.winner g = Game.awayTeam g.
Proof.
  assert (H : exists g st',
             generateMockGames env_public 1 NBA_TEAMS 1 zero_tape start = Normal [g] st')
    by (eexists _, _; vm_compute; reflexivity).
  destruct H as (g & st' & H). exists g, st'. split; [exact H|].
  assert (Hg : g = {| Game.id := Num (of_Z 1);
                      Game.homeTeam := Some "Lakers"; Game.awayTeam := Some "Celtics";
                      Game.homeScore := of_Z 80; Game.awayScore := of_Z 80;
                      Game.date := DaysBefore 1700000000000 0;
                      Game.status := "final"; Game.winner := Some "Celtics" |}).
  { vm_compute in H. injection H as <- _. reflexivity. }
  assert (Htie : eqb (Game.homeScore g) (Game.awayScore g) = true)
    by (rewrite Hg; vm_compute; reflexivity).
  split; [exact Htie|].
  split; [rewrite Hg; reflexivity|].
  split; [rewrite Hg; reflexivity|].
  refine (proj1 (generateMockGames_winner env_public 1 NBA_TEAMS 1 zero_tape start
                   [g] st' g _ H _) Htie).
  - discriminate.
  - left.
Defined.

Lemma generated_key_possible teams g :
  generated_from teams g -> matchup_key g ∈ pair_keys teams.
Proof.
  intros ((i & Hh & Hsome) & (j & Ha & Hsome') & _).
  unfold pair_keys, matchup_key. apply elem_of_remove_dups.
  apply list_elem_of_fmap. exists (Game.homeTeam g, Game.awayTeam g). split; [reflexivity|].
  unfold all_matchups. destruct teams as [|t0 teams'].
  - rewrite Ha, filter_nil, Hh, !lookup_nil.
    apply list_elem_of_singleton. reflexivity.
  - set (teams := t0 :: teams') in *.
    destruct (Hsome ltac:(discriminate)) as [x Hx]. rewrite Hx in *.
    apply list_elem_of_In, in_flat_map. exists x. split.
    + apply list_elem_of_In. eapply list_elem_of_lookup_2. symmetry. exact Hh.
    + apply list_elem_of_In.
      destruct (filter (fun t => Some t <> Some x) teams) as [|y others] eqn:Ef.
      * rewrite Ha, lookup_nil. apply list_elem_of_singleton. reflexivity.
      * destruct (Hsome' ltac:(discriminate)) as [a Hxa]. rewrite Hxa in *.
        apply (list_elem_of_fmap_2 (fun a => (Some x, Some a))).
        eapply list_elem_of_lookup_2. symmetry. exact Ha.
Qed.

Lemma lucky_draw_hits len i :
  0 <= i < len -> len <= 2 ^ 53 ->
  floor_scaled (lucky_draw len i mod 2 ^ 53) len = i.
Proof.
  intros Hi Hlen. unfold lucky_draw, floor_scaled.
  set (d := (i * 2 ^ 53 + len - 1) / len).
  assert (Hd1 : d * len <= i * 2 ^ 53 + len - 1).
  { unfold d. rewrite Z.mul_comm. apply Z.mul_div_le. lia. }
  assert (Hd2 : i * 2 ^ 53 + len - 1 < d * len + len).
  { unfold d. pose proof (Z.mul_succ_div_gt (i * 2 ^ 53 + len - 1) len ltac:(lia)). lia. }
  assert (Hd0 : 0 <= d) by (unfold d; apply Z.div_pos; lia).
  assert (Hd3 : d < 2 ^ 53) by nia.
  rewrite Z.mod_small by lia.
  symmetry. apply (Z.div_unique_pos _ _ i (d * len - i * 2 ^ 53)); lia.
Qed.

Lemma lookup_index_draw {A} (l : list A) (i : nat) x :
  l !! i = Some x -> Z.of_nat (length l) < 2 ^ 32 ->
  l !! Z.to_nat (floor_scaled (lucky_draw (Z.of_nat (length l)) (Z.of_nat i) mod 2 ^ 53)
                   (Z.of_nat (length l))) = Some x.
Proof.
  intros Hx Hlen. apply lookup_lt_Some in Hx as Hlt.
  rewrite lucky_draw_hits by lia. now rewrite Nat2Z.id.
Qed.

Lemma pick_matchup_lucky teams used h a :
  (h, a) ∈ all_matchups teams -> (pairKey h a ∉ used) -> Z.of_nat (length teams) < 2 ^ 32 ->
  exists d1 d2, forall fuel tp st,
    tp (cursor st) = d1 -> tp (S (cursor st)) = d2 ->
    pick_matchup (S fuel) teams used tp st =
    Normal (h, a, pairKey h a) (advance (advance st)).
Proof.
  intros Hin Hfresh Hlen.
  assert (Hgoal : exists d1 d2,
    teams !! Z.to_nat (floor_scaled (d1 mod 2 ^ 53) (Z.of_nat (length teams))) = h /\
    filter (fun t => Some t <> h) teams
      !! Z.to_nat (floor_scaled (d2 mod 2 ^ 53)
            (Z.of_nat (length (filter (fun t => Some t <> h) teams)))) = a).
  { unfold all_matchups in Hin. destruct teams as [|t0 teams'].
    - apply list_elem_of_singleton in Hin. injection Hin as -> ->.
      exists 0, 0. rewrite filter_nil, !lookup_nil. auto.
    - set (teams := t0 :: teams') in *.
      apply list_elem_of_In, in_flat_map in Hin. destruct Hin as (x & Hx & Hin).
      apply list_elem_of_In, list_elem_of_lookup in Hx. destruct Hx as (i & Hi).
      apply list_elem_of_In in Hin.
      exists (lucky_draw (Z.of_nat (length teams)) (Z.of_nat i)).
      destruct (filter (fun t => Some t <> Some x) teams) as [|y others] eqn:Ef.
      + apply list_elem_of_singleton in Hin. injection Hin as -> ->.
        exists 0. rewrite (lookup_index_draw _ _ _ Hi Hlen), Ef, lookup_nil. auto.
      + apply list_elem_of_fmap in Hin. destruct Hin as (y' & [= -> ->] & Hy').
        apply list_elem_of_lookup in Hy'. destruct Hy' as (j & Hj).
        exists (lucky_draw (Z.of_nat (length (y :: others))) (Z.of_nat j)).
        rewrite (lookup_index_draw _ _ _ Hi Hlen), Ef. split; [reflexivity|].
        apply lookup_index_draw; [exact Hj|].
        rewrite <- Ef. pose proof (length_filter (fun t => Some t <> Some x) teams). lia. }
  destruct Hgoal as (d1 & d2 & H1 & H2). exists d1, d2.
  intros fuel tp st Hd1 Hd2. simpl.
  unfold bind at 1. rewrite getRandomElement_run.
  unfold bind at 1. rewrite getRandomElement_run.
  unfold draw. simpl. rewrite Hd1, Hd2, H1, H2.
  destruct (decide (pairKey h a ∈ used)); [contradiction|reflexivity].
Qed.

Lemma fresh_key_exists (keys : list string) (used : gset string) :
  NoDup keys -> (size used < length keys)%nat -> exists k, k ∈ keys /\ k ∉ used.
Proof.
  intros Hnd Hsz.
  destruct (decide (Forall (fun k => k ∈ used) keys)) as [Hall|Hex].
  - exfalso.
    assert (Hsub : list_to_set keys ⊆ used).
    { intros k Hk. apply elem_of_list_to_set in Hk. rewrite Forall_forall in Hall. auto. }
    apply subseteq_size in Hsub. rewrite size_list_to_set in Hsub by exact Hnd. lia.
  - apply not_Forall_Exists in Hex; [|intros ?; apply _].
    apply Exists_exists in Hex. destruct Hex as (k & Hk & Hn). exists k. auto.
Qed.

Lemma pair_keys_matchup teams k :
  k ∈ pair_keys teams -> exists h a, (h, a) ∈ all_matchups teams /\ k = pairKey h a.
Proof.
  unfold pair_keys. rewrite elem_of_remove_dups. intros Hk.
  apply list_elem_of_fmap in Hk. destruct Hk as ([h a] & -> & Hin). eauto.
Qed.

(** The four rosters. *)
Lemma roster_cases league :
  roster league = NBA_TEAMS \/ roster league = NFL_TEAMS \/
  roster league = MLB_TEAMS \/ roster league = EPL_TEAMS.
Proof.
  unfold roster. repeat (destruct (String.eqb _ _); auto).
Qed.

(** With the same number drawn every time the second game is never
    found: the loop draws the pair of the first game again and again. *)
Lemma pick_matchup_constant fuel teams used c st :
  drawn_key teams c ∈ used -> is_hang (pick_matchup fuel teams used (fun _ => c) st).
Proof.
  intros Hin. revert st. induction fuel as [|fuel IH]; intros st; [exact I|].
  cbn [pick_matchup].
  unfold bind at 1. rewrite getRandomElement_run.
  unfold bind at 1. rewrite getRandomElement_run.
  unfold draw. fold (drawn_home teams c). fold (drawn_away teams c).
  fold (drawn_key teams c).
  destruct (decide (drawn_key teams c ∈ used)) as [_|Hn]; [apply IH | contradiction].
Qed.

Lemma pick_matchup_constant_key fuel teams used c st h a key st' :
  pick_matchup fuel teams used (fun _ => c) st = Normal (h, a, key) st' ->
  key = drawn_key teams c.
Proof.
  revert st. induction fuel as [|fuel IH]; intros st; [discriminate|].
  cbn [pick_matchup].
  unfold bind at 1. rewrite getRandomElement_run.
  unfold bind at 1. rewrite getRandomElement_run.
  unfold draw. fold (drawn_home teams c). fold (drawn_away teams c).
  fold (drawn_key teams c).
  destruct (decide (drawn_key teams c ∈ used)) as [_|_]; [apply IH|].
  unfold ret. now intros [= _ _ <- _].
Qed.

Lemma pick_matchup_no_throw fuel teams used tp st e st' :
  pick_matchup fuel teams used tp st <> Throw e st'.
Proof.
  revert st. induction fuel as [|fuel IH]; intros st; [discriminate|].
  cbn [pick_matchup].
  unfold bind at 1. rewrite getRandomElement_run.
  unfold bind at 1. rewrite getRandomElement_run.
  destruct (decide (_ ∈ used)); [apply IH | discriminate].
Qed.

Lemma generateMockGames_constant_draws env fuel teams count c st :
  (2 <= count)%nat -> is_hang (generateMockGames env fuel teams count (fun _ => c) st).
Proof.
  intros Hc. destruct count as [|[|count]]; try lia.
  unfold generateMockGames. cbn [games_loop].
  unfold bind at 1.
  destruct (pick_matchup fuel teams ∅ (fun _ => c) st) as [[[h a] key] st1|e st1|st1] eqn:Hpick;
    [|now apply pick_matchup_no_throw in Hpick|exact I].
  apply pick_matchup_constant_key in Hpick. subst key.
  unfold bind at 1. rewrite getRandomInt_run.
  unfold bind at 1. rewrite getRandomInt_run.
  unfold bind at 1. unfold Date_now at 1.
  unfold bind at 1. rewrite getRandomInt_run.
  unfold bind at 1.
  match goal with |- context [pick_matchup ?f ?t ?u ?tp ?s] =>
    pose proof (pick_matchup_constant f t u c s) as Hh;
    destruct (pick_matchup f t u tp s) as [p s2|e s2|s2] eqn:Hpick
  end.
  - exfalso. apply Hh. set_solver.
  - now apply pick_matchup_no_throw in Hpick.
  - exact I.
Qed.

(** A bound on the retries only cuts runs short: what the loop returns
    within a bound it returns within every larger one. *)
Lemma pick_matchup_fuel_mono fuel fuel' teams used tp st p st' :
  pick_matchup fuel teams used tp st = Normal p st' -> (fuel <= fuel')%nat ->
  pick_matchup fuel' teams used tp st = Normal p st'.
Proof.
  revert fuel' st. induction fuel as [|fuel IH]; intros fuel' st; [discriminate|].
  intros H Hle. destruct fuel' as [|fuel']; [lia|].
  cbn [pick_matchup] in *.
  unfold bind at 1 in H. rewrite getRandomElement_run in H.
  unfold bind at 1 in H. rewrite getRandomElement_run in H.
  unfold bind at 1. rewrite getRandomElement_run.
  unfold bind at 1. rewrite getRandomElement_run.
  destruct (decide (_ ∈ used)); [|exact H].
  apply IH; [exact H | lia].
Qed.

Lemma games_loop_fuel_mono env fuel fuel' teams remaining :
  (fuel <= fuel')%nat ->
  forall i used games tp st out st',
    games_loop env fuel teams remaining i used games tp st = Normal out st' ->
    games_loop env fuel' teams remaining i used games tp st = Normal out st'.
Proof.
  intros Hle. induction remaining as [|r IH]; intros i used games tp st out st';
    cbn [games_loop]; [auto|].
  intros H. apply bind_Normal in H. destruct H as ([[h a] key] & st1 & Hpick & H).
  unfold bind at 1. rewrite (pick_matchup_fuel_mono _ _ _ _ _ _ _ _ Hpick Hle).
  unfold bind at 1 in H. rewrite getRandomInt_run in H.
  unfold bind at 1 in H. rewrite getRandomInt_run in H.
  unfold bind at 1 in H. unfold Date_now at 1 in H.
  unfold bind at 1 in H. rewrite getRandomInt_run in H.
  unfold bind at 1. rewrite getRandomInt_run.
  unfold bind at 1. rewrite getRandomInt_run.
  unfold bind at 1. unfold Date_now at 1.
  unfold bind at 1. rewrite getRandomInt_run.
  now apply IH.
Qed.

(** The retry loop after any draws: with a fresh key left, the draws up
    to position [N] being what they may, some later draws end it. *)
Lemma pick_matchup_after teams used (tp0 : tape) (N : nat) :
  Z.of_nat (length teams) < 2 ^ 32 ->
  (size used < length (pair_keys teams))%nat ->
  forall d st, (N - cursor st <= d)%nat ->
  exists tp1 p st',
    (forall n, (n < N)%nat \/ (n < cursor st)%nat -> tp1 n = tp0 n) /\
    (cursor st + 2 <= cursor st')%nat /\ elapsed st' = elapsed st /\
    forall tp, (forall n, (n < cursor st')%nat -> tp n = tp1 n) ->
      pick_matchup (S d) teams used tp st = Normal p st'.
Proof.
  intros Hlen Hsz.
  assert (Hlucky : forall d st, (N <= cursor st)%nat ->
    exists tp1 p st',
      (forall n, (n < N)%nat \/ (n < cursor st)%nat -> tp1 n = tp0 n) /\
      (cursor st + 2 <= cursor st')%nat /\ elapsed st' = elapsed st /\
      forall tp, (forall n, (n < cursor st')%nat -> tp n = tp1 n) ->
        pick_matchup (S d) teams used tp st = Normal p st').
  { intros d st HN.
    destruct (fresh_key_exists (pair_keys teams) used) as (k & Hk & Hfresh);
      [apply NoDup_remove_dups | exact Hsz |].
    apply pair_keys_matchup in Hk. destruct Hk as (h & a & Hin & ->).
    destruct (pick_matchup_lucky teams used h a Hin Hfresh Hlen) as (d1 & d2 & Hpick).
    exists (patch tp0 (cursor st) d1 d2), (h, a, pairKey h a), (advance (advance st)).
    split; [|split; [|split]].
    - intros n Hn. unfold patch.
      destruct (Nat.eqb_spec n (cursor st)); [lia|].
      destruct (Nat.eqb_spec n (S (cursor st))); [lia|]. reflexivity.
    - cbn. lia.
    - reflexivity.
    - intros tp Htp. apply Hpick.
      + rewrite Htp by (cbn; lia). unfold patch. now rewrite Nat.eqb_refl.
      + rewrite Htp by (cbn; lia). unfold patch.
        destruct (Nat.eqb_spec (S (cursor st)) (cursor st)); [lia|].
        now rewrite Nat.eqb_refl. }
  induction d as [|d IH]; intros st Hd.
  - apply Hlucky. lia.
  - destruct (le_lt_dec N (cursor st)) as [HN|HN]; [now apply Hlucky|].
    set (h := teams !! Z.to_nat (floor_scaled (draw tp0 st) (Z.of_nat (length teams)))).
    set (others := filter (fun t => Some t <> h) teams).
    set (a := others !! Z.to_nat (floor_scaled (draw tp0 (advance st))
                                    (Z.of_nat (length others)))).
    assert (Hstep : forall tp f,
      tp (cursor st) = tp0 (cursor st) -> tp (S (cursor st)) = tp0 (S (cursor st)) ->
      pick_matchup (S f) teams used tp st =
      if decide (pairKey h a ∈ used)
      then pick_matchup f teams used tp (advance (advance st))
      else Normal (h, a, pairKey h a) (advance (advance st))).
    { intros tp f E0 E1. cbn [pick_matchup].
      unfold bind at 1. rewrite getRandomElement_run.
      unfold bind at 1. rewrite getRandomElement_run.
      unfold draw. cbn [cursor advance]. rewrite E0, E1.
      fold (draw tp0 st). fold h. fold others.
      change (tp0 (S (cursor st)) mod 2 ^ 53) with (draw tp0 (advance st)). fold a.
      destruct (decide (pairKey h a ∈ used)); reflexivity. }
    destruct (decide (pairKey h a ∈ used)) as [Hused|Hfresh].
    + destruct (IH (advance (advance st))) as (tp1 & p & st' & Hag & Hc & Hel & Hrun).
      { cbn. lia. }
      exists tp1, p, st'. cbn [cursor advance elapsed] in *.
      split; [intros n Hn; apply Hag; lia|]. split; [lia|]. split; [exact Hel|].
      intros tp Htp. rewrite Hstep.
      * destruct (decide (pairKey h a ∈ used)); [|contradiction]. now apply Hrun.
      * rewrite Htp by lia. apply Hag. lia.
      * rewrite Htp by lia. apply Hag. lia.
    + exists tp0, (h, a, pairKey h a), (advance (advance st)).
      split; [auto|]. split; [cbn; lia|]. split; [reflexivity|].
      intros tp Htp. rewrite Hstep.
      * destruct (decide (pairKey h a ∈ used)); [contradiction | reflexivity].
      * apply Htp. cbn. lia.
      * apply Htp. cbn. lia.
Qed.

(** The whole loop after any draws. *)
Lemma games_loop_after env teams (N : nat) remaining :
  Z.of_nat (length teams) < 2 ^ 32 ->
  forall i used games tp0 st,
  (size used + remaining <= length (pair_keys teams))%nat ->
  exists tp out st',
    (forall n, (n < N)%nat \/ (n < cursor st)%nat -> tp n = tp0 n) /\
    games_loop env (S N) teams remaining i used games tp st = Normal out st'.
Proof.
  intros Hlen. induction remaining as [|r IH]; intros i used games tp0 st Hsz.
  - exists tp0, games, st. split; [auto | reflexivity].
  - destruct (pick_matchup_after teams used tp0 N Hlen ltac:(lia) N st ltac:(lia))
      as (tp1 & [[h a] key] & st1 & Hag1 & Hc1 & Hel1 & Hpick).
    assert (Hkey : key ∉ used).
    { specialize (Hpick tp1 (fun _ _ => eq_refl)).
      apply pick_matchup_spec in Hpick. tauto. }
    set (st4 := advance (advance (advance st1))).
    set (hs := of_Z (floor_scaled (draw tp1 st1) (130 - 80 + 1) + 80)).
    set (aws := of_Z (floor_scaled (draw tp1 (advance st1)) (130 - 80 + 1) + 80)).
    set (back := floor_scaled (draw tp1 (advance (advance st1))) (7 - 0 + 1) + 0).
    set (game := {|
          Game.id := Num (of_Z (i + 1));
          Game.homeTeam := h;
          Game.awayTeam := a;
          Game.homeScore := hs;
          Game.awayScore := aws;
          Game.date := DaysBefore (now env + elapsed st1) back;
          Game.status := "final";
          Game.winner := if gtb hs aws then h else a
        |}).
    destruct (IH (i + 1) ({[key]} ∪ used) (games ++ [game])%list tp1 st4)
      as (tp & out & st' & Hag & Hrun).
    { rewrite size_union by set_solver. rewrite size_singleton. lia. }
    exists tp, out, st'. cbn [cursor advance st4] in Hag. split.
    + intros n Hn. rewrite Hag by lia. apply Hag1. exact Hn.
    + cbn [games_loop]. unfold bind at 1.
      rewrite (Hpick tp) by (intros n Hn; apply Hag; lia).
      unfold bind at 1. rewrite getRandomInt_run.
      unfold bind at 1. rewrite getRandomInt_run.
      unfold bind at 1. unfold Date_now at 1.
      unfold bind at 1. rewrite getRandomInt_run.
      unfold draw. cbn [cursor advance]. rewrite !Hag by lia.
      exact Hrun.
Qed.

(** C10, as stated, fails in two ways.  The four names "a", "a-b", "b-c"
    and "c" are distinct and make six unordered pairs, but ["a-b", "c"]
    and ["a", "b-c"] have the same key "a-b-c", so that only five keys
    can ever be fresh and the sixth game is never found, whatever is
    drawn.  And over the NBA roster, with its 66 keys, the loop does not
    end on every sequence of draws: when [Math.random()] gives the same
    number every time, the pair of the first game is drawn again and
    again, and no bound on the retries lets the call return. *)
Lemma generateMockGames_hyphen_teams_hang :
  NoDup hyphen_teams /\
  (2 <= length (remove_dups hyphen_teams))%nat /\
  (6 <= length (unordered_pairs hyphen_teams))%nat /\
  pairKey (Some "a-b") (Some "c") = pairKey (Some "a") (Some "b-c") /\
  (forall env fuel tp st games st',
     generateMockGames env fuel hyphen_teams 6 tp st <> Normal games st') /\
  NoDup NBA_TEAMS /\ (6 <= length (unordered_pairs NBA_TEAMS))%nat /\
  (forall env fuel c st,
     is_hang (generateMockGames env fuel NBA_TEAMS 6 (fun _ => c) st)).
Proof.
  split; [compute_done|].
  split; [vm_compute; lia|]. split; [vm_compute; lia|].
  split; [reflexivity|].
  split.
  - intros env fuel tp st games st' H.
    apply generateMockGames_spec in H. destruct H as (Hnd & Hall & Hlen).
    assert (Hincl : matchup_key <$> games ⊆ pair_keys hyphen_teams).
    { intros k Hk. apply list_elem_of_fmap in Hk. destruct Hk as (g & -> & Hg).
      apply generated_key_possible. rewrite Forall_forall in Hall. now apply Hall. }
    assert (Hle : (length (matchup_key <$> games) <= length (pair_keys hyphen_teams))%nat).
    { apply NoDup_incl_length.
      - now apply NoDup_ListNoDup.
      - intros k Hk. apply list_elem_of_In. apply Hincl. now apply list_elem_of_In. }
    rewrite length_fmap, Hlen in Hle. vm_compute in Hle. lia.
  - split; [compute_done|]. split; [vm_compute; lia|].
    intros env fuel c st. apply generateMockGames_constant_draws. lia.
Qed.

(** C10, amended: [generateMockGames(teams, count)] can always complete
    when [count] does not exceed the number of distinct keys
    [[home, away].sort().join('-')] of the pairs the loop can draw from
    [teams]: whatever has been drawn so far, in the call and in its
    retries, as many draws as one likes, some further draws make it
    return [count] games, since the retry loop always has a fresh key
    left.  The number of retries a run needs is not bounded beforehand,
    but a run that returns within some number of retries returns the
    same with any larger bound.  The fixed rosters have twelve names and
    66 keys each, which covers the default count of six. *)
Theorem generateMockGames_can_return env teams count :
  Z.of_nat (length teams) < 2 ^ 32 ->
  (count <= length (pair_keys teams))%nat ->
  (forall tp0 st N, exists tp fuel games st',
     (forall n, (n < N)%nat -> tp n = tp0 n) /\
     generateMockGames env fuel teams count tp st = Normal games st' /\
     length games = count) /\
  (forall fuel fuel' tp st games st',
     generateMockGames env fuel teams count tp st = Normal games st' ->
     (fuel <= fuel')%nat ->
     generateMockGames env fuel' teams count tp st = Normal games st') /\
  (forall league,
     length (roster league) = 12%nat /\ length (pair_keys (roster league)) = 66%nat) /\
  (forall league tp0 st N, exists tp fuel games st',
     (forall n, (n < N)%nat -> tp n = tp0 n) /\
     generateMockGames env fuel (roster league) 6 tp st = Normal games st' /\
     length games = 6%nat).
Proof.
  intros Hlen Hcount.
  assert (Hrun : forall teams' count',
    Z.of_nat (length teams') < 2 ^ 32 -> (count' <= length (pair_keys teams'))%nat ->
    forall tp0 st N, exists tp fuel games st',
     (forall n, (n < N)%nat -> tp n = tp0 n) /\
     generateMockGames env fuel teams' count' tp st = Normal games st' /\
     length games = count').
  { intros teams' count' Hl Hc tp0 st N.
    destruct (games_loop_after env teams' N count' Hl 0 ∅ [] tp0 st)
      as (tp & out & st' & Hagree & Hr).
    { rewrite size_empty. lia. }
    exists tp, (S N), out, st'. split; [intros n Hn; apply Hagree; now left|].
    split; [exact Hr|].
    apply generateMockGames_spec in Hr. apply Hr. }
  assert (Hrosters : forall league,
    length (roster league) = 12%nat /\ length (pair_keys (roster league)) = 66%nat).
  { intros league.
    destruct (roster_cases league) as [-> | [-> | [-> | ->]]]; vm_compute; split; reflexivity. }
  split; [now apply Hrun|].
  split.
  { intros fuel fuel' tp st games st' H Hle. unfold generateMockGames in *.
    now apply (games_loop_fuel_mono env fuel fuel'). }
  split; [exact Hrosters|].
  intros league. destruct (Hrosters league) as [H12 H66].
  apply Hrun; [rewrite H12; reflexivity | rewrite H66; lia].
Qed.

(** Six games over the NBA roster, after twenty draws of the same
    number, which make the loop retry. *)
Lemma generateMockGames_can_return_witness :
  (6 <= length (pair_keys NBA_TEAMS))%nat /\
  exists tp fuel games st',
    (forall n, (n < 20)%nat -> tp n = 0) /\
    generateMockGames env_public fuel NBA_TEAMS 6 tp start = Normal games st' /\
    length games = 6%nat.
Proof.
  assert (H6 : (6 <= length (pair_keys NBA_TEAMS))%nat) by (vm_compute; lia).
  split; [exact H6|].
  destruct (generateMockGames_can_return env_public NBA_TEAMS 6) as [H _];
    [vm_compute; reflexivity | exact H6 |].
  destruct (H zero_tape start 20%nat) as (tp & fuel & games & st' & Hag & Hrun & Hlen).
  exists tp, fuel, games, st'. split; [exact Hag|]. split; [exact Hrun | exact Hlen].
Defined.

(** ** Standings *)

Lemma mapi_from_total {A B} (f : A -> Z -> M B) (P : A -> B -> Prop) :
  (forall x i tp st, exists y st',
      f x i tp st = Normal y st' /\ P x y /\ elapsed st' = elapsed st) ->
  forall l i tp st, exists ys st',
    mapi_from f i l tp st = Normal ys st' /\ Forall2 P l ys /\ elapsed st' = elapsed st.
Proof.
  intros Hf. induction l as [|x l IH]; intros i tp st.
  - exists [], st. repeat split; constructor.
  - destruct (Hf x i tp st) as (y & st1 & Hy & HP & E1).
    destruct (IH (i + 1) tp st1) as (ys & st2 & Hys & Hall & E2).
    exists (y :: ys), st2. cbn [mapi_from]. unfold bind at 1. rewrite Hy.
    unfold bind at 1. rewrite Hys. unfold ret.
    split; [reflexivity|]. split; [now constructor | congruence].
Qed.

Lemma mock_team_run name index tp st :
  exists r st', mock_team name index tp st = Normal r st' /\
                is_mock_standing name r /\ elapsed st' = elapsed st.
Proof.
  unfold mock_team.
  unfold bind at 1. rewrite getRandomInt_run.
  unfold bind at 1. rewrite getRandomInt_run.
  unfold bind at 1. rewrite getRandomInt_run.
  unfold bind at 1. unfold Math_random at 1.
  unfold bind at 1. rewrite getRandomInt_run.
  unfold ret. eexists _, _. split; [reflexivity|]. split; [|reflexivity].
  eexists index, _, _, _, (2 ^ 52 <? _), _.
  split; [apply getRandomInt_range; lia|].
  split; [apply getRandomInt_range; lia|].
  split; [apply getRandomInt_range; lia|].
  split; [apply getRandomInt_range; lia|].
  unfold mock_standing. reflexivity.
Qed.

Lemma generateMockTeams_run teams tp st :
  exists out st',
    generateMockTeams teams tp st = Normal out st' /\
    Forall2 is_mock_standing teams out /\ elapsed st' = elapsed st.
Proof. apply mapi_from_total. apply mock_team_run. Qed.

Lemma mock_names teams out :
  Forall2 is_mock_standing teams out -> Standing.name <$> out = Some <$> teams.
Proof.
  induction 1 as [|name r teams out H _ IH]; [reflexivity|].
  destruct H as (index & w & l & s & won & p & _ & _ & _ & _ & ->).
  rewrite !fmap_cons, IH. reflexivity.
Qed.

Lemma bind_run {A B} (m : M A) (k : A -> M B) tp st a st1 :
  m tp st = Normal a st1 -> bind m k tp st = k a tp st1.
Proof. intros H. unfold bind. now rewrite H. Qed.

Lemma bind_throw {A B} (m : M A) (k : A -> M B) tp st e st1 :
  m tp st = Throw e st1 -> bind m k tp st = Throw e st1.
Proof. intros H. unfold bind. now rewrite H. Qed.

Lemma simulateNetworkDelay_run a b tp st :
  simulateNetworkDelay a b tp st =
  Normal tt (waited (floor_scaled (draw tp st) (b - a + 1) + a) (advance st)).
Proof. reflexivity. Qed.

Lemma mock_standings_run env league tp st :
  exists r st',
    mock_standings env league tp st = Normal r st' /\
    success r = true /\ source r = Some "Mock Data" /\
    Forall2 is_mock_standing (roster league) (data r).
Proof.
  unfold mock_standings.
  rewrite (bind_run _ _ _ _ _ _ (simulateNetworkDelay_run _ _ _ _)).
  match goal with |- context [bind (generateMockTeams ?t) _ ?tp ?s] =>
    destruct (generateMockTeams_run t tp s) as (out & st' & Hrun & Hall & _)
  end.
  rewrite (bind_run _ _ _ _ _ _ Hrun).
  unfold bind, Date_now, ret.
  eexists _, _. split; [reflexivity|]. simpl. auto.
Qed.

Lemma transform_standing_settles entry index tp st :
  (exists r st', transform_standing entry index tp st = Normal r st') \/
  (exists e st', transform_standing entry index tp st = Throw e st').
Proof.
  unfold transform_standing.
  destruct entry as [s|]; [|right; unfold throw; eauto].
  destruct (standing_team s); [|right; unfold throw; eauto].
  destruct (standing_stats s); [|right; unfold throw; eauto].
  left. destruct (leaf_truthy _); unfold bind, ret; simpl; eauto.
Qed.

Lemma transform_standing_malformed entry index tp st :
  malformed entry -> exists e, transform_standing entry index tp st = Throw e st.
Proof.
  unfold malformed, transform_standing.
  destruct entry as [s|]; [|unfold throw; eauto].
  intros [H|H].
  - rewrite H. unfold throw; eauto.
  - destruct (standing_team s); rewrite ?H; unfold throw; eauto.
Qed.

Lemma mapi_from_malformed entries :
  Exists malformed entries ->
  forall i tp st, exists e st', mapi_from transform_standing i entries tp st = Throw e st'.
Proof.
  induction 1 as [entry entries H | entry entries _ IH]; intros i tp st; cbn [mapi_from].
  - destruct (transform_standing_malformed entry i tp st H) as (e & He).
    exists e, st. now apply bind_throw.
  - destruct (transform_standing_settles entry i tp st) as [(r & st1 & Hr)|(e & st1 & He)].
    + rewrite (bind_run _ _ _ _ _ _ Hr).
      destruct (IH (i + 1) tp st1) as (e & st2 & He).
      exists e, st2. now apply bind_throw.
    + exists e, st1. now apply bind_throw.
Qed.

Lemma real_standings_throws env league tp st :
  standings_endpoint_fails env league ->
  exists e st1, real_standings env league tp st = Throw e st1.
Proof.
  unfold standings_endpoint_fails, real_standings, fetchFromMySportsFeeds.
  destruct (fetch env _) as [lat msg | lat status txt body].
  - intros _. eexists _, _. reflexivity.
  - intros [Hok | Hbody].
    + eexists _, _. unfold bind, try_catch, delay. rewrite Hok. reflexivity.
    + destruct (ok status) eqn:Hok; [|eexists _, _; reflexivity].
      destruct body as [|d].
      * eexists _, _. reflexivity.
      * destruct (body_standings d) as [entries|] eqn:Hd.
        -- match goal with |- context [bind (try_catch ?m ?h) ?k tp st] =>
             assert (Hf : try_catch m h tp st = Normal d (waited lat st))
               by reflexivity
           end.
           rewrite (bind_run _ _ _ _ _ _ Hf). rewrite Hd.
           destruct (mapi_from_malformed entries Hbody 0 tp (waited lat st)) as (e & st1 & He).
           exists e, st1. apply bind_throw. exact He.
        -- eexists _, _. unfold bind, try_catch, delay. simpl. rewrite Hd. reflexivity.
Qed.

(** C1: for every league, when the API is configured and the fetch
    from the real endpoint throws (a network error, a status outside
    200-299 or a malformed body), [fetchStandings] catches the error and
    goes on with the mock path: it returns a result with [success] true,
    source "Mock Data" and a generated standing for every team of the
    roster, and the error does not reach the caller. *)
Theorem fetchStandings_falls_back env league tp st :
  isAPIConfigured (API_CONFIG env) = true ->
  standings_endpoint_fails env league ->
  exists e st1 r st',
    real_standings env league tp st = Throw e st1 /\
    fetchStandings env league tp st = mock_standings env league tp st1 /\
    fetchStandings env league tp st = Normal r st' /\
    success r = true /\
    source r = Some "Mock Data" /\
    Forall2 is_mock_standing (roster league) (data r).
Proof.
  intros Hcfg Hfail.
  destruct (real_standings_throws env league tp st Hfail) as (e & st1 & He).
  destruct (mock_standings_run env league tp st1) as (r & st' & Hrun & Hs & Hsrc & Hall).
  exists e, st1, r, st'.
  assert (Hfetch : fetchStandings env league tp st = mock_standings env league tp st1).
  { unfold fetchStandings. rewrite Hcfg. unfold try_catch, bind. rewrite He.
    unfold ret. destruct (mock_standings env league tp st1); congruence. }
  repeat split; auto. congruence.
Qed.

(** The endpoint cannot be reached. *)
Lemma fetchStandings_falls_back_witness :
  isAPIConfigured (API_CONFIG env_down) = true /\
  standings_endpoint_fails env_down "nba" /\
  exists r st',
    fetchStandings env_down "nba" sample_tape start = Normal r st' /\
    success r = true /\ source r = Some "Mock Data" /\ length (data r) = 12%nat.
Proof.
  assert (Hc : isAPIConfigured (API_CONFIG env_down) = true) by reflexivity.
  assert (Hf : standings_endpoint_fails env_down "nba") by exact I.
  split; [exact Hc|]. split; [exact Hf|].
  destruct (fetchStandings_falls_back env_down "nba" sample_tape start Hc Hf)
    as (e & st1 & r & st' & _ & _ & Hrun & Hs & Hsrc & Hall).
  exists r, st'. split; [exact Hrun|]. split; [exact Hs|]. split; [exact Hsrc|].
  apply Forall2_length in Hall. rewrite <- Hall. reflexivity.
Defined.

(** A result of [fetchStandings] is the real endpoint's or the mock
    path's, and its source says which. *)
Lemma fetchStandings_cases env league tp st res st' :
  fetchStandings env league tp st = Normal res st' ->
  (source res = Some "MySportsFeeds" /\ real_standings env league tp st = Normal res st') \/
  (source res = Some "Mock Data" /\ exists st1, mock_standings env league tp st1 = Normal res st').
Proof.
  unfold fetchStandings. intros H.
  assert (Hmock : forall st1, mock_standings env league tp st1 = Normal res st' ->
                              source res = Some "Mock Data").
  { intros st1 H1. destruct (mock_standings_run env league tp st1) as (r & st2 & Hr & _ & Hs & _).
    congruence. }
  destruct (isAPIConfigured (API_CONFIG env)).
  - unfold try_catch, bind in H.
    destruct (real_standings env league tp st) as [r st1|e st1|st1] eqn:Hreal.
    + unfold ret in H. injection H as <- <-. left. split; [|reflexivity].
      unfold real_standings in Hreal.
      apply bind_Normal in Hreal. destruct Hreal as (d & s1 & _ & Hreal).
      apply bind_Normal in Hreal. destruct Hreal as (l & s2 & _ & Hreal).
      unfold bind, Date_now, ret in Hreal. injection Hreal as <- _. reflexivity.
    + unfold ret in H.
      destruct (mock_standings env league tp st1) as [r st2|e2 st2|st2] eqn:Hm; try discriminate.
      injection H as <- <-. right. split; [now apply (Hmock st1)|eauto].
    + discriminate.
  - unfold try_catch, bind, ret in H.
    destruct (mock_standings env league tp st) as [r st2|e2 st2|st2] eqn:Hm; try discriminate.
    injection H as <- <-. right. split; [now apply (Hmock st)|eauto].
Qed.

Lemma mock_games_source env fuel league tp st res st' :
  mock_games env fuel league tp st = Normal res st' -> source res = Some "Mock Data".
Proof.
  unfold mock_games. intros H.
  rewrite (bind_run _ _ _ _ _ _ (simulateNetworkDelay_run _ _ _ _)) in H.
  apply bind_Normal in H. destruct H as (games & st2 & _ & H).
  unfold bind, Date_now, ret in H. injection H as <- _. reflexivity.
Qed.

Lemma fetchRecentGames_cases env fuel league tp st res st' :
  fetchRecentGames env fuel league tp st = Normal res st' ->
  (source res = Some "MySportsFeeds" /\ real_games env league tp st = Normal res st') \/
  (source res = Some "Mock Data" /\
   exists st1, mock_games env fuel league tp st1 = Normal res st').
Proof.
  unfold fetchRecentGames. intros H.
  destruct (isAPIConfigured (API_CONFIG env)).
  - unfold try_catch, bind in H.
    destruct (real_games env league tp st) as [r st1|e st1|st1] eqn:Hreal.
    + unfold ret in H. injection H as <- <-. left. split; [|reflexivity].
      unfold real_games in Hreal.
      apply bind_Normal in Hreal. destruct Hreal as (d & s1 & _ & Hreal).
      apply bind_Normal in Hreal. destruct Hreal as (l & s2 & _ & Hreal).
      unfold bind, Date_now, ret in Hreal. injection Hreal as <- _. reflexivity.
    + unfold ret in H.
      destruct (mock_games env fuel league tp st1) as [r st2|e2 st2|st2] eqn:Hm;
        try discriminate.
      injection H as <- <-. right. split; [now apply mock_games_source in Hm|eauto].
    + discriminate.
  - unfold try_catch, bind, ret in H.
    destruct (mock_games env fuel league tp st) as [r st2|e2 st2|st2] eqn:Hm;
      try discriminate.
    injection H as <- <-. right. split; [now apply mock_games_source in Hm|eauto].
Qed.

Lemma NBA_others x : filter (fun t => Some t <> Some x) NBA_TEAMS <> [].
Proof.
  destruct (decide (x = "Lakers")) as [->|Hne].
  - vm_compute. discriminate.
  - intros E. assert (Hin : "Lakers" ∈ filter (fun t => Some t <> Some x) NBA_TEAMS).
    { apply list_elem_of_filter. split; [congruence|]. vm_compute. left. }
    rewrite E in Hin. inversion Hin.
Qed.

(** C8: for every league argument whose lower-case form is none of
    "nba", "nfl", "mlb" and "epl", the roster chosen is the NBA one: the
    mock path of [fetchStandings] returns a standing for each NBA team, in
    the roster's order, and the mock path of [fetchRecentGames] returns
    six games, each between two NBA teams; without an API key it does
    return them, after any draws, for some further draws.  "nhl" is such
    a league, although the configuration lists it. *)
Theorem unknown_league_gets_NBA env fuel league :
  toLowerCase league <> "nba" -> toLowerCase league <> "nfl" ->
  toLowerCase league <> "mlb" -> toLowerCase league <> "epl" ->
  roster league = NBA_TEAMS /\
  (forall tp st, exists r st',
      mock_standings env league tp st = Normal r st' /\
      Standing.name <$> data r = Some <$> NBA_TEAMS) /\
  (forall tp st r st',
      fetchStandings env league tp st = Normal r st' -> source r = Some "Mock Data" ->
      Standing.name <$> data r = Some <$> NBA_TEAMS) /\
  (forall tp st r st' g,
      fetchRecentGames env fuel league tp st = Normal r st' ->
      source r = Some "Mock Data" -> g ∈ data r ->
      exists h a, Game.homeTeam g = Some h /\ Game.awayTeam g = Some a /\
                  h ∈ NBA_TEAMS /\ a ∈ NBA_TEAMS) /\
  (forall tp st r st',
      fetchRecentGames env fuel league tp st = Normal r st' ->
      source r = Some "Mock Data" -> length (data r) = 6%nat) /\
  (isAPIConfigured (API_CONFIG env) = false ->
   forall tp0 st N, exists tp fuel' r st',
      (forall n, (n < N)%nat -> tp n = tp0 n) /\
      fetchRecentGames env fuel' league tp st = Normal r st' /\
      source r = Some "Mock Data" /\ length (data r) = 6%nat) /\
  (("NHL", "nhl") ∈ LEAGUES config_public /\ roster "nhl" = NBA_TEAMS).
Proof.
  intros H1 H2 H3 H4.
  assert (Hr : roster league = NBA_TEAMS).
  { unfold roster.
    repeat (match goal with |- context [String.eqb ?a ?b] =>
              destruct (String.eqb_spec a b); [congruence|] end).
    reflexivity. }
  assert (Hnames : forall tp st r st',
            mock_standings env league tp st = Normal r st' ->
            Standing.name <$> data r = Some <$> NBA_TEAMS).
  { intros tp st r st' Hrun.
    destruct (mock_standings_run env league tp st) as (r' & st2 & Hrun' & _ & _ & Hall).
    assert (r' = r) by congruence. subst r'.
    rewrite Hr in Hall. now apply mock_names. }
  assert (Hmock : forall fuel0 tp st r st',
            mock_games env fuel0 league tp st = Normal r st' ->
            exists games st2,
              generateMockGames env fuel0 NBA_TEAMS 6 tp st2 = Normal games st' /\
              data r = games).
  { intros fuel0 tp st r st' Hm.
    unfold mock_games in Hm. rewrite Hr in Hm.
    rewrite (bind_run _ _ _ _ _ _ (simulateNetworkDelay_run _ _ _ _)) in Hm.
    apply bind_Normal in Hm. destruct Hm as (games & st2 & Hgen & Hrest).
    unfold bind, Date_now, ret in Hrest. injection Hrest as <- <-.
    eexists _, _. split; [exact Hgen | reflexivity]. }
  split; [exact Hr|]. split; [|split; [|split; [|split; [|split]]]].
  - intros tp st.
    destruct (mock_standings_run env league tp st) as (r & st' & Hrun & _).
    exists r, st'. split; [exact Hrun|]. now apply (Hnames tp st r st').
  - intros tp st r st' Hrun Hsrc.
    destruct (fetchStandings_cases _ _ _ _ _ _ Hrun) as [[Hs _]|[_ [st1 Hm]]]; [congruence|].
    now apply (Hnames tp st1 r st').
  - intros tp st r st' g Hrun Hsrc Hg.
    destruct (fetchRecentGames_cases _ _ _ _ _ _ _ Hrun) as [[Hs _]|[_ [st1 Hm]]];
      [congruence|].
    unfold mock_games in Hm. rewrite Hr in Hm.
    rewrite (bind_run _ _ _ _ _ _ (simulateNetworkDelay_run _ _ _ _)) in Hm.
    apply bind_Normal in Hm. destruct Hm as (games & st2 & Hgen & Hrest).
    unfold bind, Date_now, ret in Hrest. injection Hrest as <- _.
    apply generateMockGames_spec in Hgen. destruct Hgen as (_ & Hall & _).
    rewrite Forall_forall in Hall. specialize (Hall g Hg).
    destruct Hall as ((i & Hh & Hsome) & (j & Ha & Hsome') & _).
    destruct (Hsome ltac:(discriminate)) as [h Hh'].
    rewrite Hh' in *.
    destruct (Hsome' (NBA_others h)) as [a Ha'].
    exists h, a. repeat split; auto.
    + eapply list_elem_of_lookup_2. symmetry. exact Hh.
    + rewrite Ha' in Ha. symmetry in Ha. apply list_elem_of_lookup_2 in Ha.
      apply list_elem_of_filter in Ha. apply Ha.
  - intros tp st r st' Hrun Hsrc.
    destruct (fetchRecentGames_cases _ _ _ _ _ _ _ Hrun) as [[Hs _]|[_ [st1 Hm]]];
      [congruence|].
    destruct (Hmock _ _ _ _ _ Hm) as (games & st2 & Hgen & ->).
    apply generateMockGames_spec in Hgen. apply Hgen.
  - intros Hc tp0 st N.
    set (st1 := waited (floor_scaled (draw tp0 st) (800 - 300 + 1) + 300) (advance st)).
    destruct (games_loop_after env NBA_TEAMS N 6 ltac:(vm_compute; reflexivity)
                0 ∅ [] tp0 st1) as (tp & out & st' & Hag & Hloop).
    { rewrite size_empty. vm_compute. lia. }
    assert (E : draw tp st = draw tp0 st).
    { unfold draw. rewrite Hag; [reflexivity|]. right. cbn. lia. }
    exists tp, (S N).
    eexists {| success := true; data := out; league := toUpperCase league;
               source := Some "Mock Data"; timestamp := now env + elapsed st' |}, st'.
    split; [intros n Hn; apply Hag; now left|].
    split; [|split; [reflexivity|]].
    + unfold fetchRecentGames. rewrite Hc. unfold try_catch.
      unfold bind at 1. unfold ret at 1. unfold mock_games. rewrite Hr.
      rewrite (bind_run _ _ _ _ _ _ (simulateNetworkDelay_run _ _ _ _)).
      rewrite E. fold st1. unfold bind at 1.
      unfold generateMockGames. rewrite Hloop.
      unfold bind, Date_now, ret. reflexivity.
    + cbn [data]. fold (generateMockGames env (S N) NBA_TEAMS 6 tp st1) in Hloop.
      apply generateMockGames_spec in Hloop. apply Hloop.
  - split; [|reflexivity]. vm_compute. do 3 right. left.
Qed.

(** The hockey league of the configuration gets basketball teams, in
    its standings and in its six games. *)
Lemma unknown_league_gets_NBA_witness :
  roster "nhl" = NBA_TEAMS /\
  (exists r st',
    fetchStandings env_public "nhl" sample_tape start = Normal r st' /\
    Standing.name <$> data r = Some <$> NBA_TEAMS) /\
  exists r st',
    fetchRecentGames env_public 10 "nhl" sample_tape start = Normal r st' /\
    length (data r) = 6%nat /\
    forall g, g ∈ data r ->
      exists h a, Game.homeTeam g = Some h /\ Game.awayTeam g = Some a /\
                  h ∈ NBA_TEAMS /\ a ∈ NBA_TEAMS.
Proof.
  destruct (unknown_league_gets_NBA env_public 10 "nhl") as (Hr & _ & Hs & Hg & Hlen & _);
    try (vm_compute; discriminate).
  split; [exact Hr|]. split.
  - assert (H : exists r st',
               fetchStandings env_public "nhl" sample_tape start = Normal r st' /\
               source r = Some "Mock Data").
    { eexists _, _. split; [vm_compute; reflexivity | reflexivity]. }
    destruct H as (r & st' & Hrun & Hsrc).
    exists r, st'. split; [exact Hrun|]. exact (Hs _ _ _ _ Hrun Hsrc).
  - assert (H : exists r st',
               fetchRecentGames env_public 10 "nhl" sample_tape start = Normal r st' /\
               source r = Some "Mock Data").
    { eexists _, _. split; [vm_compute; reflexivity | reflexivity]. }
    destruct H as (r & st' & Hrun & Hsrc).
    exists r, st'. split; [exact Hrun|].
    split; [exact (Hlen _ _ _ _ Hrun Hsrc)|].
    intros g Hin. exact (Hg _ _ _ _ g Hrun Hsrc Hin).
Defined.

(** ** The invariant of a standing *)

Lemma same_number_eq x y : same_number x y = true -> x = y.
Proof.
  destruct x as [s|s| |s m e], y as [s'|s'| |s' m' e']; simpl; try discriminate; auto.
  - intros H. apply Bool.eqb_prop in H. now subst.
  - intros H. apply Bool.eqb_prop in H. now subst.
  - intros H. apply andb_prop in H. destruct H as [H He].
    apply andb_prop in H. destruct H as [Hs Hm].
    apply Bool.eqb_prop in Hs. apply Pos.eqb_eq in Hm. apply Z.eqb_eq in He. now subst.
Qed.

(** [parseFloat] reads a three-decimal string back as the double nearest
    to it, which [|| 0] leaves as it is. *)
Lemma parseFloat_fixed3 n :
  0 <= n <= 1000 ->
  parseFloat (fixed3 n) = div (of_Z n) (of_Z 1000) /\
  or_else (parseFloat (fixed3 n)) zero = parseFloat (fixed3 n).
Proof.
  intros H.
  assert (Hall : forallb (fun n =>
            same_number (parseFloat (fixed3 n)) (div (of_Z n) (of_Z 1000)) &&
            same_number (or_else (parseFloat (fixed3 n)) zero) (parseFloat (fixed3 n)))
          (up_to 1000) = true) by (vm_compute; reflexivity).
  rewrite forallb_forall in Hall. specialize (Hall n (up_to_In 1000 n ltac:(lia))).
  apply andb_prop in Hall. destruct Hall as [H1 H2].
  split; now apply same_number_eq.
Qed.

Lemma eqb_refl_of_Z X : 0 <= X < 2 ^ 53 -> eqb (of_Z X) (of_Z X) = true.
Proof.
  intros H. destruct (Z.eq_dec X 0) as [->|]; [reflexivity|].
  rewrite of_Z_pos by lia. unfold eqb, SFeqb, SFcompare.
  rewrite Z.compare_refl. now rewrite Pos.compare_cont_refl.
Qed.

(** The three-decimal win percentage of integer counts. *)
Lemma win_percentage_of_Z w l :
  0 <= w -> 0 <= l -> w + l < 2 ^ 53 ->
  (w + l = 0 -> win_percentage (of_Z w) (of_Z l) = zero) /\
  (0 < w + l -> exists n,
     0 <= n <= 1000 /\
     toFixed3 (div (of_Z w) (add (of_Z w) (of_Z l))) = fixed3 n /\
     win_percentage (of_Z w) (of_Z l) = div (of_Z n) (of_Z 1000) /\
     2 ^ 53 * Z.abs (n * (w + l) - 1000 * w) <= (2 ^ 52 + 2000) * (w + l)).
Proof.
  intros Hw Hl Hsum.
  unfold win_percentage. rewrite add_of_Z by lia. split.
  - intros ->. reflexivity.
  - intros H.
    destruct (quotient_fixed3 w (w + l)) as (n & Hfix & Hn & Hacc); try lia.
    assert (Hnz : eqb (of_Z (w + l)) zero = false) by (rewrite of_Z_pos by lia; reflexivity).
    rewrite Hnz. exists n. rewrite Hfix.
    destruct (parseFloat_fixed3 n Hn) as [Hp _]. auto.
Qed.

Lemma mock_standing_invariant name r :
  is_mock_standing name r ->
  standing_invariant r /\
  exists w l n,
    Standing.wins r = of_Z w /\ Standing.losses r = of_Z l /\
    5 <= w <= 45 /\ 5 <= l <= 45 /\
    Standing.gamesPlayed r = of_Z (w + l) /\
    Standing.winPct r = div (of_Z n) (of_Z 1000) /\
    2 * Z.abs (n * (w + l) - 1000 * w) <= w + l.
Proof.
  intros (index & w & l & streak & won & points & Hw & Hl & _ & _ & ->).
  destruct (win_percentage_of_Z w l) as [_ Hpos]; try lia.
  destruct Hpos as (n & Hn & Hfix & Hwp & Hacc); [lia|].
  unfold standing_invariant, games_add_up, mock_standing. cbn.
  assert (Hpct : parseFloat (toFixed3 (div (of_Z w) (add (of_Z w) (of_Z l)))) =
                 win_percentage (of_Z w) (of_Z l)).
  { unfold win_percentage. rewrite add_of_Z by lia.
    assert (Hnz : eqb (of_Z (w + l)) zero = false) by (rewrite of_Z_pos by lia; reflexivity).
    now rewrite Hnz. }
  rewrite Hpct. split.
  - split; [|reflexivity]. rewrite add_of_Z by lia. apply eqb_refl_of_Z. lia.
  - exists w, l, n. rewrite add_of_Z by lia. repeat split; try lia; auto.
Qed.

Lemma transform_standing_row team stats index tp st :
  exists points st',
    transform_standing (row team stats) index tp st =
    Normal {| Standing.id := team_id team;
              Standing.name := string_or (abbreviation team) (city team);
              Standing.wins := leaf_or (stats_wins stats) zero;
              Standing.losses := leaf_or (stats_losses stats) zero;
              Standing.winPct :=
                or_else (parseFloat (toFixed3
                  (div (leaf_number (stats_wins stats))
                       (add (leaf_number (stats_wins stats))
                            (leaf_number (stats_losses stats)))))) zero;
              Standing.streak := join_text (string_or (stats_streak stats) (Some "N/A"));
              Standing.points := points;
              Standing.gamesPlayed :=
                leaf_or (stats_gamesPlayed stats)
                  (add (leaf_number (stats_wins stats)) (leaf_number (stats_losses stats))) |}
           st'.
Proof.
  unfold transform_standing, row. cbn.
  destruct (leaf_truthy (stats_pointsFor stats)); unfold bind, ret; cbn; eauto.
Qed.

Lemma leaf_or_of_Z X : 0 <= X < 2 ^ 53 -> leaf_or (Num (of_Z X)) zero = of_Z X.
Proof.
  intros H. unfold leaf_or, leaf_truthy, leaf_number.
  destruct (Z.eq_dec X 0) as [->|]; [reflexivity|].
  rewrite of_Z_pos by lia. reflexivity.
Qed.

(** C5, amended: every standing of the mock generator has
    [wins + losses == gamesPlayed], with [winPct] the quotient
    [wins / (wins + losses)] to three decimals.  A standing transformed
    from a response of the real endpoint, with integer [wins] and
    [losses], has that [winPct] too (zero when no games were played), and
    it has [wins + losses == gamesPlayed] when the response gives no
    [gamesPlayed] (or zero); when the response gives one, [gamesPlayed] is
    that number, whatever [wins] and [losses] are. *)
Theorem standings_satisfy_invariant :
  (forall env league tp st res st' r,
      fetchStandings env league tp st = Normal res st' ->
      source res = Some "Mock Data" -> r ∈ data res ->
      standing_invariant r /\
      exists w l n,
        Standing.wins r = of_Z w /\ Standing.losses r = of_Z l /\
        5 <= w <= 45 /\ 5 <= l <= 45 /\
        Standing.gamesPlayed r = of_Z (w + l) /\
        Standing.winPct r = div (of_Z n) (of_Z 1000) /\
        2 * Z.abs (n * (w + l) - 1000 * w) <= w + l) /\
  (forall team stats index tp st r st' w l,
      transform_standing (row team stats) index tp st = Normal r st' ->
      stats_wins stats = Num (of_Z w) -> stats_losses stats = Num (of_Z l) ->
      0 <= w -> 0 <= l -> w + l < 2 ^ 53 ->
      Standing.winPct r = win_percentage (Standing.wins r) (Standing.losses r) /\
      (leaf_truthy (stats_gamesPlayed stats) = false -> standing_invariant r) /\
      (leaf_truthy (stats_gamesPlayed stats) = true ->
         Standing.gamesPlayed r = leaf_number (stats_gamesPlayed stats))).
Proof.
  split.
  - intros env league tp st res st' r Hrun Hsrc Hr.
    destruct (fetchStandings_cases _ _ _ _ _ _ Hrun) as [[Hs _]|[_ [st1 Hm]]]; [congruence|].
    destruct (mock_standings_run env league tp st1) as (res' & st2 & Hr' & _ & _ & Hall).
    assert (res' = res) by congruence. subst res'.
    apply list_elem_of_lookup in Hr. destruct Hr as [i Hi].
    destruct (Forall2_lookup_r _ _ _ _ _ Hall Hi) as (name & _ & Hmock).
    now apply (mock_standing_invariant name).
  - intros team stats index tp st r st' w l Hrun Hsw Hsl Hw Hl Hsum.
    destruct (transform_standing_row team stats index tp st) as (points & st2 & Hrow).
    rewrite Hrow in Hrun. injection Hrun as <- _.
    rewrite Hsw, Hsl. cbn [leaf_number].
    unfold standing_invariant, games_add_up.
    cbn [Standing.wins Standing.losses Standing.winPct Standing.gamesPlayed].
    rewrite !leaf_or_of_Z by lia.
    assert (Hpct : or_else (parseFloat (toFixed3 (div (of_Z w) (add (of_Z w) (of_Z l))))) zero =
                   win_percentage (of_Z w) (of_Z l)).
    { destruct (win_percentage_of_Z w l Hw Hl Hsum) as [Hzero Hpos].
      destruct (Z.eq_dec (w + l) 0) as [E|NE].
      - rewrite (Hzero E). assert (w = 0) by lia. assert (l = 0) by lia. subst. reflexivity.
      - destruct (Hpos ltac:(lia)) as (n & Hn & Hfix & Hwp & _).
        rewrite Hfix, Hwp. destruct (parseFloat_fixed3 n Hn) as [Hp Hor].
        rewrite Hor. exact Hp. }
    split; [exact Hpct|]. split.
    + intros Hgp. split; [|exact Hpct].
      unfold leaf_or. rewrite Hgp.
      rewrite add_of_Z by lia. apply eqb_refl_of_Z. lia.
    + intros Hgp. unfold leaf_or. now rewrite Hgp.
Qed.

(** A response row without [gamesPlayed]. *)
Lemma standings_satisfy_invariant_witness :
  exists r st',
    transform_standing (row nhl_team plain_stats) 0 zero_tape start = Normal r st' /\
    standing_invariant r.
Proof.
  assert (H : exists r st',
             transform_standing (row nhl_team plain_stats) 0 zero_tape start = Normal r st')
    by (eexists _, _; vm_compute; reflexivity).
  destruct H as (r & st' & H). exists r, st'. split; [exact H|].
  destruct standings_satisfy_invariant as [_ Hreal].
  destruct (Hreal nhl_team plain_stats 0 zero_tape start r st' 39 41 H) as (_ & Hinv & _);
    try reflexivity; try lia.
  apply Hinv. reflexivity.
Defined.

(** C5, as stated, fails on the real endpoint: a hockey team with 40
    wins, 30 losses and 12 overtime losses comes with [gamesPlayed] 82,
    which the transform keeps, and 40 + 30 is not 82. *)
Lemma fetchStandings_breaks_invariant :
  exists res st' r,
    fetchStandings nhl_env "nhl" zero_tape start = Normal res st' /\
    source res = Some "MySportsFeeds" /\
    data res = [r] /\
    Standing.wins r = of_Z 40 /\ Standing.losses r = of_Z 30 /\
    Standing.gamesPlayed r = of_Z 82 /\
    games_add_up r = false /\
    ~ standing_invariant r.
Proof.
  eexists _, _, _. split; [vm_compute; reflexivity|].
  split; [reflexivity|]. split; [reflexivity|].
  split; [reflexivity|]. split; [reflexivity|]. split; [reflexivity|].
  split; [vm_compute; reflexivity|].
  intros [H _]. vm_compute in H. discriminate.
Qed.

(** ** All data at once *)

Lemma first_failure_None events :
  first_failure events = None -> Forall (fun ev => snd ev = Fulfil) events.
Proof.
  induction events as [|[t ev] rest IH]; intros H; [constructor|].
  cbn [first_failure] in H. destruct ev.
  - constructor; [reflexivity | auto].
  - destruct (first_failure rest) as [[t' ev']|]; [destruct (t' <? t)|]; discriminate.
  - destruct (first_failure rest) as [[t' ev']|]; [destruct (t' <? t)|]; discriminate.
Qed.

Lemma first_failure_Some events t ev :
  first_failure events = Some (t, ev) -> (t, ev) ∈ events /\ ev <> Fulfil.
Proof.
  revert t ev. induction events as [|[t0 ev0] rest IH]; intros t ev H; [discriminate|].
  cbn [first_failure] in H.
  assert (Hrest : forall t' ev', first_failure rest = Some (t', ev') ->
                                 (t', ev') ∈ (t0, ev0) :: rest /\ ev' <> Fulfil).
  { intros t' ev' H'. destruct (IH _ _ H'). split; [now right | assumption]. }
  destruct ev0.
  - auto.
  - destruct (first_failure rest) as [[t' ev']|] eqn:E.
    + destruct (t' <? t0); injection H as <- <-; [auto | split; [left | discriminate]].
    + injection H as <- <-. split; [left | discriminate].
  - destruct (first_failure rest) as [[t' ev']|] eqn:E.
    + destruct (t' <? t0); injection H as <- <-; [auto | split; [left | discriminate]].
    + injection H as <- <-. split; [left | discriminate].
Qed.

Lemma first_failure_reject events :
  Forall (fun ev => snd ev <> Freeze) events ->
  Exists (fun ev => snd ev <> Fulfil) events ->
  exists t e, first_failure events = Some (t, Reject e) /\ (t, Reject e) ∈ events.
Proof.
  intros Hall Hex.
  destruct (first_failure events) as [[t ev]|] eqn:E.
  - destruct (first_failure_Some _ _ _ E) as [Hin Hne].
    rewrite Forall_forall in Hall. specialize (Hall _ Hin). simpl in Hall.
    destruct ev as [|e|]; try congruence. exists t, e. auto.
  - apply first_failure_None in E. exfalso.
    apply Exists_exists in Hex. destruct Hex as (ev & Hin & Hne).
    rewrite Forall_forall in E. auto.
Qed.

(** [fetchAllData] of either API module is [fetchAllData_of] over the
    module's three fetch functions. *)
Lemma fetchAllData_unfold env fuel league tapes started :
  fetchAllData env fuel league tapes started =
  fetchAllData_of (fetchStandings env) (fetchRecentGames env fuel)
                  (fetchDashboardStats env) env league tapes started /\
  ApiMock.fetchAllData env fuel league tapes started =
  fetchAllData_of (ApiMock.fetchStandings env) (ApiMock.fetchRecentGames env fuel)
                  (fetchDashboardStats env) env league tapes started.
Proof. split; reflexivity. Qed.

(** C3: for every league, [fetchAllData] starts the standings, games and
    stats requests together, each at the time of the call, and waits for
    all three: when the three fulfil, it fulfils when the last of them
    does, not after the sum of their times, with the data of each, the
    league in upper case and the time of that moment.  If any of the
    three rejects, [fetchAllData] does not fulfil, so that no partial
    dataset is returned, and (when no request loops for ever) it rejects
    with the error of one of them, at the time that one rejects.  When it
    fulfils, all three requests have fulfilled, the dataset has the data
    of each, and it fulfils when the last of them does. *)
Theorem fetchAllData_all_or_nothing
    (fS : string -> M (result (list Standing.t)))
    (fG : string -> M (result (list Game.t)))
    (fD : string -> M (result Stats.t))
    env league tp1 tp2 tp3 started :
  let st := {| cursor := O; elapsed := started |} in
  let r1 := fS league tp1 st in
  let r2 := fG league tp2 st in
  let r3 := fD league tp3 st in
  let all := fetchAllData_of fS fG fD env league (tp1, tp2, tp3) started in
  (forall a st1 b st2 c st3,
     r1 = Normal a st1 -> r2 = Normal b st2 -> r3 = Normal c st3 ->
     let t := Z.max (elapsed st1) (Z.max (elapsed st2) (elapsed st3)) in
     all = Fulfilled {| all_success := true;
                        standings := data a; games := data b; stats := data c;
                        all_league := toUpperCase league;
                        all_timestamp := now env + t |} t) /\
  (is_throw r1 \/ is_throw r2 \/ is_throw r3 ->
     (forall d t, all <> Fulfilled d t) /\
     (~ is_hang r1 -> ~ is_hang r2 -> ~ is_hang r3 ->
        exists e t, all = Rejected e t /\
          (t, Reject e) ∈ [event_of r1; event_of r2; event_of r3])) /\
  (forall d t, all = Fulfilled d t ->
     exists a st1 b st2 c st3,
       r1 = Normal a st1 /\ r2 = Normal b st2 /\ r3 = Normal c st3 /\
       standings d = data a /\ games d = data b /\ stats d = data c /\
       t = Z.max (elapsed st1) (Z.max (elapsed st2) (elapsed st3))).
Proof.
  intros st r1 r2 r3 all. subst all. unfold fetchAllData_of.
  fold st. fold r1 r2 r3. clearbody r1 r2 r3.
  split; [|split].
  - intros a st1 b st2 c st3 -> -> ->. reflexivity.
  - intros Hthrow. split.
    + intros d t.
      destruct r1, r2, r3; simpl in Hthrow; try tauto;
        destruct (first_failure _) as [[? []]|]; discriminate.
    + intros H1 H2 H3.
      destruct (first_failure_reject [event_of r1; event_of r2; event_of r3]) as (t & e & Hf & Hin).
      { repeat constructor; [destruct r1|destruct r2|destruct r3]; simpl in *; tauto || discriminate. }
      { destruct Hthrow as [H|[H|H]];
          [constructor 1 | constructor 2; constructor 1 | do 2 constructor 2; constructor 1];
          [destruct r1|destruct r2|destruct r3]; simpl in *; tauto || discriminate. }
      exists e, t. split; [|exact Hin].
      destruct r1, r2, r3; simpl in Hthrow; try tauto; rewrite Hf; reflexivity.
  - intros d t H.
    destruct r1 as [a st1| |], r2 as [b st2| |], r3 as [c st3| |];
      try (destruct (first_failure _) as [[? []]|]; discriminate).
    injection H as <- <-. eexists _, _, _, _, _, _. repeat split; reflexivity.
Qed.


(** The mock-only module, with a draw below 0.05 for the standings: the
    standings request rejects, the other two fulfil, and [fetchAllData]
    rejects with the error of the standings.  With other draws for the
    standings the three requests fulfil, and [fetchAllData] fulfils with
    twelve standings and six games. *)
Lemma fetchAllData_all_or_nothing_witness :
  is_throw (ApiMock.fetchStandings env_public "nba" zero_tape start) /\
  (exists b st2, ApiMock.fetchRecentGames env_public 10 "nba" sample_tape start = Normal b st2) /\
  (exists t,
    ApiMock.fetchAllData env_public 10 "nba" (zero_tape, sample_tape, sample_tape) 0 =
    Rejected (Error "Network error: Unable to fetch standings") t) /\
  exists d t,
    ApiMock.fetchAllData env_public 10 "nba" (sample_tape, sample_tape, sample_tape) 0 =
    Fulfilled d t /\
    length (standings d) = 12%nat /\ length (games d) = 6%nat /\ 300 <= t <= 800.
Proof.
  assert (Ht : is_throw (ApiMock.fetchStandings env_public "nba" zero_tape start))
    by (vm_compute; exact I).
  split; [exact Ht|].
  split; [eexists _, _; vm_compute; reflexivity|].
  pose proof (fetchAllData_all_or_nothing
                (ApiMock.fetchStandings env_public)
                (ApiMock.fetchRecentGames env_public 10)
                (fetchDashboardStats env_public)
                env_public "nba" zero_tape sample_tape sample_tape 0) as H.
  cbv zeta in H. destruct H as (_ & Hrej & _).
  split.
  - destruct (Hrej (or_introl Ht)) as [_ H].
    destruct H as (e & t & Hall & Hin).
    + vm_compute. tauto.
    + vm_compute. tauto.
    + vm_compute. tauto.
    + exists t. unfold ApiMock.fetchAllData. rewrite Hall. f_equal.
      vm_compute in Hall. congruence.
  - assert (H1 : exists a st1,
               ApiMock.fetchStandings env_public "nba" sample_tape start = Normal a st1)
      by (eexists _, _; vm_compute; reflexivity).
    assert (H2 : exists b st2,
               ApiMock.fetchRecentGames env_public 10 "nba" sample_tape start = Normal b st2)
      by (eexists _, _; vm_compute; reflexivity).
    assert (H3 : exists c st3,
               fetchDashboardStats env_public "nba" sample_tape start = Normal c st3)
      by (eexists _, _; vm_compute; reflexivity).
    destruct H1 as (a & st1 & H1), H2 as (b & st2 & H2), H3 as (c & st3 & H3).
    pose proof (fetchAllData_all_or_nothing
                  (ApiMock.fetchStandings env_public)
                  (ApiMock.fetchRecentGames env_public 10)
                  (fetchDashboardStats env_public)
                  env_public "nba" sample_tape sample_tape sample_tape 0) as H.
    cbv zeta in H. destruct H as (Hful & _).
    eexists _, _. unfold ApiMock.fetchAllData.
    split; [exact (Hful a st1 b st2 c st3 H1 H2 H3)|].
    vm_compute in H1, H2, H3.
    injection H1 as <- <-. injection H2 as <- <-. injection H3 as <- <-.
    vm_compute. repeat split; discriminate.
Defined.

(** ** The controller *)

Lemma resume_caller_guarded k p : guarded p -> guarded (App.resume_caller k p).
Proof. destruct k; simpl; auto. Qed.

Lemma resume_caller_flag k p :
  App.isLoading (App.app (App.resume_caller k p)) = App.isLoading (App.app p).
Proof. destruct k; reflexivity. Qed.

Lemma resume_caller_in_flight k p :
  App.in_flight (App.resume_caller k p) = App.in_flight p.
Proof. destruct k; reflexivity. Qed.

Lemma loadData_guarded k p : guarded p -> guarded (App.loadData k p).
Proof.
  intros H. unfold App.loadData. destruct (App.isLoading (App.app p)) eqn:E.
  - now apply resume_caller_guarded.
  - destruct H as [[H _]|[_ H]]; [congruence|].
    left. simpl. rewrite H. eauto.
Qed.

(** The [finally] block clears the flag, however the fetch and the
    rendering ended. *)
Lemma settle_clears r s v : App.isLoading (fst (App.loadData_settle r s v)) = false.
Proof. unfold App.loadData_settle. destruct r as [d [e|]|e]; reflexivity. Qed.

Lemma step_guarded i p : guarded p -> guarded (App.step i p).
Proof.
  intros H. destruct i; simpl.
  - now apply loadData_guarded.
  - destruct (String.eqb _ _); [assumption|]. apply loadData_guarded. exact H.
  - apply loadData_guarded. exact H.
  - apply loadData_guarded. exact H.
  - destruct (App.autoRefreshInterval (App.app p)); [now apply loadData_guarded | assumption].
  - now apply loadData_guarded.
  - destruct (App.in_flight p) as [|[l k] rest] eqn:E; [assumption|].
    pose proof (settle_clears r (App.app p) (App.ui p)) as Hc.
    destruct (App.loadData_settle r (App.app p) (App.ui p)) as [s v]. simpl in Hc.
    apply resume_caller_guarded. right. simpl. split; [exact Hc|].
    destruct H as [[_ [f Hf]]|[_ Hf]]; congruence.
Qed.

Lemma reachable_guarded p : reachable p -> guarded p.
Proof.
  induction 1; [right; split; reflexivity | now apply step_guarded].
Qed.

Lemma guarded_length p : guarded p -> (length (App.in_flight p) <= 1)%nat.
Proof. intros [[_ [f ->]]|[_ ->]]; simpl; lia. Qed.

(** C2: on every page the controller can reach, the loading flag is set
    exactly while a fetch is in flight.  A [loadData()] called with the
    flag set returns at once: it starts no fetch and changes nothing (its
    caller goes on).  So no more than one fetch is in flight, now and
    after whatever happens next.  When the fetch in flight settles, the
    flag is cleared, whether the fetch fulfilled, rendering failed or the
    fetch rejected, and nothing is left in flight. *)
Theorem loadData_single_flight p :
  reachable p ->
  (App.isLoading (App.app p) = true <-> App.in_flight p <> []) /\
  (App.isLoading (App.app p) = true ->
     App.loadData App.Nothing p = p /\
     forall k, App.loadData k p = App.resume_caller k p /\
               App.in_flight (App.loadData k p) = App.in_flight p) /\
  (length (App.in_flight p) <= 1)%nat /\
  (forall i, (length (App.in_flight (App.step i p)) <= 1)%nat) /\
  (forall r, App.in_flight p <> [] ->
     App.isLoading (App.app (App.step (App.Settled r) p)) = false /\
     App.in_flight (App.step (App.Settled r) p) = []) /\
  (forall r s v, App.isLoading (fst (App.loadData_settle r s v)) = false).
Proof.
  intros Hp. apply reachable_guarded in Hp as Hg.
  split; [|split; [|split; [|split; [|split]]]].
  - destruct Hg as [[Hf [f Hin]]|[Hf Hin]]; rewrite Hf, Hin; split; congruence.
  - intros H. unfold App.loadData. rewrite H. split; [reflexivity|].
    intros k. split; [reflexivity | apply resume_caller_in_flight].
  - now apply guarded_length.
  - intros i. apply guarded_length. now apply step_guarded.
  - intros r Hin.
    pose proof (step_guarded (App.Settled r) p Hg) as Hg'.
    destruct (App.in_flight p) as [|[l k] rest] eqn:E; [congruence|].
    assert (Hflag : App.isLoading (App.app (App.step (App.Settled r) p)) = false).
    { simpl. rewrite E.
      pose proof (settle_clears r (App.app p) (App.ui p)) as Hc.
      destruct (App.loadData_settle r (App.app p) (App.ui p)) as [s v].
      rewrite resume_caller_flag. exact Hc. }
    split; [exact Hflag|].
    destruct Hg' as [[Hf _]|[_ Hnone]]; [congruence | exact Hnone].
  - apply settle_clears.
Qed.

(** The page after [init()] has started its fetch: a second [loadData()]
    leaves it as it is, and the flag is cleared when the fetch settles. *)
Lemma loadData_single_flight_witness :
  reachable (App.step App.Init App.initial) /\
  App.loadData App.Nothing (App.step App.Init App.initial) = App.step App.Init App.initial /\
  App.in_flight (App.step App.Call (App.step App.Init App.initial)) = [("nba", App.AfterInit)] /\
  forall r,
    App.isLoading (App.app (App.step (App.Settled r) (App.step App.Init App.initial))) = false.
Proof.
  assert (Hr : reachable (App.step App.Init App.initial))
    by (apply reachable_step, reachable_initial).
  split; [exact Hr|].
  destruct (loadData_single_flight _ Hr) as (_ & Hnoop & _ & _ & Hclear & _).
  split; [apply Hnoop; reflexivity|].
  split; [reflexivity|].
  intros r. apply Hclear. discriminate.
Defined.

(** ** Sorting by a property *)

Section Sorting.
Context {A : Type} (comparefn : A -> A -> Z).

Lemma sort_insert_perm x l : sort_insert comparefn x l ≡ₚ x :: l.
Proof.
  induction l as [|y l IH]; simpl; [reflexivity|].
  destruct (0 <? comparefn x y); [|reflexivity].
  rewrite IH. apply perm_swap.
Qed.

Lemma Array_sort_perm l : Array_sort comparefn l ≡ₚ l.
Proof.
  induction l as [|x l IH]; simpl; [reflexivity|].
  rewrite sort_insert_perm. now rewrite IH.
Qed.

Lemma sort_insert_ascending (u : list A) x l :
  consistent_on comparefn u -> x ∈ u -> (forall y, y ∈ l -> y ∈ u) ->
  x ∉ l -> ascending comparefn l -> ascending comparefn (sort_insert comparefn x l).
Proof.
  intros (Hnd & Htot & Hasym & Htrans) Hx.
  induction l as [|y l IH]; intros Hl Hnin Hs; simpl.
  - repeat constructor.
  - apply StronglySorted_inv in Hs. destruct Hs as [Hs Hy].
    assert (Hyu : y ∈ u) by (apply Hl; left).
    assert (Hxy : x <> y) by (intros ->; apply Hnin; left).
    destruct (Z.ltb_spec 0 (comparefn x y)) as [Hlt|Hge].
    + constructor.
      * apply IH; auto.
        -- intros z Hz. apply Hl. now right.
        -- intros Hin. apply Hnin. now right.
      * rewrite (sort_insert_perm x l). constructor; [exact Hlt | exact Hy].
    + assert (Hyx : places_after comparefn y x).
      { destruct (Htot x y Hx Hyu Hxy) as [H|H]; [unfold places_after in H; lia | exact H]. }
      constructor; [constructor; assumption|].
      constructor; [exact Hyx|].
      rewrite Forall_forall in Hy |- *. intros z Hz.
      apply (Htrans z y x); auto. apply Hl. now right.
Qed.

Lemma Array_sort_ascending l :
  consistent_on comparefn l -> ascending comparefn (Array_sort comparefn l).
Proof.
  intros Hc. pose proof Hc as (Hnd & _).
  assert (H : forall l', (forall y, y ∈ l' -> y ∈ l) -> NoDup l' ->
                         ascending comparefn (Array_sort comparefn l')).
  { induction l' as [|x l' IH]; intros Hsub Hnd'; simpl; [constructor|].
    apply NoDup_cons in Hnd'. destruct Hnd' as [Hnin Hnd'].
    apply (sort_insert_ascending l); auto.
    - apply Hsub. left.
    - intros y Hy. rewrite Array_sort_perm in Hy. apply Hsub. now right.
    - now rewrite Array_sort_perm.
    - apply IH; auto. intros y Hy. apply Hsub. now right. }
  apply H; auto.
Qed.

(** A consistent comparator leaves one way to arrange the elements. *)
Lemma ascending_unique (u l1 l2 : list A) :
  consistent_on comparefn u -> (forall y, y ∈ l1 -> y ∈ u) ->
  ascending comparefn l1 -> ascending comparefn l2 -> l1 ≡ₚ l2 -> l1 = l2.
Proof.
  intros (Hnd & Htot & Hasym & Htrans).
  revert l2. induction l1 as [|x l1 IH]; intros l2 Hsub H1 H2 Hp.
  - apply Permutation_nil_l in Hp. now subst.
  - destruct l2 as [|y l2]; [apply Permutation_nil_r in Hp; discriminate|].
    apply StronglySorted_inv in H1. destruct H1 as [H1 Hx].
    apply StronglySorted_inv in H2. destruct H2 as [H2 Hy].
    assert (x = y) as <-.
    { assert (Hxin : x ∈ y :: l2) by (rewrite <- Hp; left).
      assert (Hyin : y ∈ x :: l1) by (rewrite Hp; left).
      apply elem_of_cons in Hxin. destruct Hxin as [E|Hxin]; [exact E|].
      apply elem_of_cons in Hyin. destruct Hyin as [E|Hyin]; [now symmetry|].
      rewrite Forall_forall in Hx, Hy.
      exfalso. apply (Hasym x y); auto.
      - apply Hsub. left.
      - apply Hsub. now right. }
    f_equal. apply IH; auto.
    + intros z Hz. apply Hsub. now right.
    + now apply Permutation_cons_inv in Hp.
Qed.

End Sorting.

Lemma after_asc {V} (gt : V -> V -> bool) k a b :
  places_after (by_property gt k true) a b <-> value_gt gt (a !! k) (b !! k) = true.
Proof. unfold places_after, by_property. destruct (value_gt _ _ _); split; (lia || congruence). Qed.

Lemma after_desc {V} (gt : V -> V -> bool) k a b :
  places_after (by_property gt k false) a b <-> value_gt gt (b !! k) (a !! k) = true.
Proof.
  unfold places_after, by_property, value_lt.
  destruct (value_gt _ _ _); split; (lia || congruence).
Qed.

Lemma pairwise_distinct_NoDup {V} (array : list (gmap string V)) k :
  pairwise_distinct array k -> NoDup array.
Proof.
  intros Hd. apply NoDup_alt. intros i j a Hi Hj.
  destruct (decide (i = j)) as [|Hne]; [assumption|].
  exfalso. now apply (Hd i j a a Hi Hj Hne).
Qed.

Lemma consistent_asc {V} (gt : V -> V -> bool) array k :
  pairwise_distinct array k -> comparable gt array k ->
  consistent_on (by_property gt k true) array.
Proof.
  intros Hd (Htot & Hasym & Htrans). split; [now apply (pairwise_distinct_NoDup _ k)|].
  assert (Hkeys : forall a b, a ∈ array -> b ∈ array -> a <> b -> a !! k <> b !! k).
  { intros a b Ha Hb Hne. apply list_elem_of_lookup in Ha, Hb.
    destruct Ha as [i Hi], Hb as [j Hj]. apply (Hd i j); auto. congruence. }
  split; [|split].
  - intros a b Ha Hb Hne. rewrite !after_asc. apply Htot; auto.
  - intros a b Ha Hb. rewrite !after_asc. intros H. rewrite (Hasym a b); auto.
  - intros a b c Ha Hb Hc. rewrite !after_asc. apply Htrans; auto.
Qed.

Lemma consistent_desc {V} (gt : V -> V -> bool) array k :
  pairwise_distinct array k -> comparable gt array k ->
  consistent_on (by_property gt k false) array.
Proof.
  intros Hd (Htot & Hasym & Htrans). split; [now apply (pairwise_distinct_NoDup _ k)|].
  assert (Hkeys : forall a b, a ∈ array -> b ∈ array -> a <> b -> a !! k <> b !! k).
  { intros a b Ha Hb Hne. apply list_elem_of_lookup in Ha, Hb.
    destruct Ha as [i Hi], Hb as [j Hj]. apply (Hd i j); auto. congruence. }
  split; [|split].
  - intros a b Ha Hb Hne. rewrite !after_desc.
    destruct (Htot a b Ha Hb (Hkeys a b Ha Hb Hne)); auto.
  - intros a b Ha Hb. rewrite !after_desc. intros H. rewrite (Hasym b a); auto.
  - intros a b c Ha Hb Hc. rewrite !after_desc. intros H1 H2. apply (Htrans c b a); auto.
Qed.

Lemma StronglySorted_snoc {A} (R : A -> A -> Prop) l x :
  StronglySorted R l -> Forall (fun y => R y x) l -> StronglySorted R (l ++ [x]).
Proof.
  induction 1 as [|y l Hs IH Hy]; intros Hx; simpl.
  - repeat constructor.
  - apply Forall_cons in Hx. destruct Hx as [Hyx Hx].
    constructor; [now apply IH|].
    apply Forall_app. split; [exact Hy | now constructor].
Qed.

Lemma ascending_rev {A} (c c' : A -> A -> Z) l :
  (forall x y, places_after c x y <-> places_after c' y x) ->
  ascending c l -> ascending c' (rev l).
Proof.
  intros Hflip. unfold ascending. induction 1 as [|x l Hs IH Hx]; simpl; [constructor|].
  apply StronglySorted_snoc; [exact IH|].
  apply Forall_forall. intros y Hy.
  apply list_elem_of_In, in_rev, list_elem_of_In in Hy.
  rewrite Forall_forall in Hx. apply Hflip. now apply Hx.
Qed.

(** C7, amended: for every list of objects whose values at [property] are
    pairwise distinct and mutually comparable ([>] orders every two of
    them one way or the other, consistently),
    [sortByProperty(list, property, false)] is the reverse of
    [sortByProperty(list, property, true)]. *)
Theorem sortByProperty_descending_is_reverse {V} (gt : V -> V -> bool)
    (array : list (gmap string V)) (property : string) :
  pairwise_distinct array property ->
  comparable gt array property ->
  sortByProperty gt array property false = rev (sortByProperty gt array property true).
Proof.
  intros Hd Hc.
  change (Array_sort (by_property gt property false) array =
          rev (Array_sort (by_property gt property true) array)).
  apply (ascending_unique (by_property gt property false) array).
  - now apply consistent_desc.
  - intros y Hy. now rewrite Array_sort_perm in Hy.
  - apply Array_sort_ascending. now apply consistent_desc.
  - apply (ascending_rev (by_property gt property true)).
    + intros x y. now rewrite after_asc, after_desc.
    + apply Array_sort_ascending. now apply consistent_asc.
  - rewrite Array_sort_perm, <- Permutation_rev, Array_sort_perm. reflexivity.
Qed.

(** Integers are comparable. *)
Lemma comparable_Z (array : list (gmap string Z)) k :
  Forall (fun a => is_Some (a !! k)) array -> comparable Z.gtb array k.
Proof.
  intros Hall. rewrite Forall_forall in Hall.
  split; [|split].
  - intros a b Ha Hb Hne.
    destruct (Hall a Ha) as [x Hx], (Hall b Hb) as [y Hy].
    rewrite Hx, Hy in *. simpl.
    assert (x <> y) by congruence.
    destruct (Z.gtb_spec x y), (Z.gtb_spec y x); auto; lia.
  - intros a b Ha Hb.
    destruct (Hall a Ha) as [x Hx], (Hall b Hb) as [y Hy].
    rewrite Hx, Hy. simpl.
    destruct (Z.gtb_spec x y), (Z.gtb_spec y x); auto; lia.
  - intros a b c Ha Hb Hc.
    destruct (Hall a Ha) as [x Hx], (Hall b Hb) as [y Hy], (Hall c Hc) as [z Hz].
    rewrite Hx, Hy, Hz. simpl.
    destruct (Z.gtb_spec x y), (Z.gtb_spec y z), (Z.gtb_spec x z); auto; lia.
Qed.

Lemma numbered_rows_distinct : pairwise_distinct numbered_rows "k".
Proof.
  intros i j a b Hi Hj Hne.
  destruct i as [|[|[|i]]], j as [|[|[|j]]]; try discriminate; try congruence;
    injection Hi as <-; injection Hj as <-; vm_compute; discriminate.
Qed.

(** Rows with 3, 1 and 2. *)
Lemma sortByProperty_descending_is_reverse_witness :
  (fun o : gmap string Z => o !! "k") <$> sortByProperty Z.gtb numbered_rows "k" true =
    [Some 1; Some 2; Some 3] /\
  (fun o : gmap string Z => o !! "k") <$> sortByProperty Z.gtb numbered_rows "k" false =
    [Some 3; Some 2; Some 1] /\
  sortByProperty Z.gtb numbered_rows "k" false =
  rev (sortByProperty Z.gtb numbered_rows "k" true).
Proof.
  split; [vm_compute; reflexivity|]. split; [vm_compute; reflexivity|].
  apply sortByProperty_descending_is_reverse.
  - exact numbered_rows_distinct.
  - apply comparable_Z. repeat constructor; vm_compute; eauto.
Defined.

Lemma incomparable_rows_distinct : pairwise_distinct incomparable_rows "k".
Proof.
  intros i j a b Hi Hj Hne.
  destruct i as [|[|i]], j as [|[|j]]; try discriminate; try congruence;
    injection Hi as <-; injection Hj as <-; vm_compute; discriminate.
Qed.

(** C7, as stated, fails: the values 1 and [NaN] are distinct, but neither
    [1 > NaN] nor [1 < NaN] nor the converses hold; the comparator answers
    -1 to every question in both directions, and both sorts return the
    same array, which is not its own reverse. *)
Lemma sortByProperty_incomparable_rows :
  pairwise_distinct incomparable_rows "k" /\
  sortByProperty gtb incomparable_rows "k" false = sortByProperty gtb incomparable_rows "k" true /\
  sortByProperty gtb incomparable_rows "k" false <>
  rev (sortByProperty gtb incomparable_rows "k" true).
Proof.
  split; [exact incomparable_rows_distinct|].
  split; [reflexivity|].
  intros H.
  apply (f_equal (fun l => (fun o : gmap string number => o !! "k") <$> l)) in H.
  vm_compute in H. discriminate.
Qed.

(** The same holds of every sorting algorithm: the two comparators give
    the same answers on these rows, and no arrangement of two different
    rows is its own reverse. *)
Lemma any_sort_incomparable_rows
    (sort : (gmap string number -> gmap string number -> Z) ->
            list (gmap string number) -> list (gmap string number)) :
  (forall c l, sort c l ≡ₚ l) ->
  (forall c c' l, (forall x y, x ∈ l -> y ∈ l -> c x y = c' x y) -> sort c l = sort c' l) ->
  sort (by_property gtb "k" false) incomparable_rows <>
  rev (sort (by_property gtb "k" true) incomparable_rows).
Proof.
  intros Hperm Hext.
  rewrite (Hext (by_property gtb "k" false) (by_property gtb "k" true)).
  - pose proof (Hperm (by_property gtb "k" true) incomparable_rows) as Hp.
    destruct (sort _ incomparable_rows) as [|a [|b [|c r]]];
      try (apply Permutation_length in Hp; discriminate).
    simpl. intros [= E _].
    assert (Hnd : NoDup [a; b]).
    { rewrite Hp. apply (pairwise_distinct_NoDup _ "k"), incomparable_rows_distinct. }
    apply NoDup_cons in Hnd. destruct Hnd as [Hnin _]. apply Hnin. rewrite E. left.
  - intros x y Hx Hy. unfold incomparable_rows in Hx, Hy.
    repeat (apply elem_of_cons in Hx; destruct Hx as [->|Hx]);
      repeat (apply elem_of_cons in Hy; destruct Hy as [->|Hy]);
      try (inversion Hx); try (inversion Hy); reflexivity.
Qed.

(** ** Random integers and elements *)

(** X1: [getRandomInt(min, max)], for integers [min <= max] of magnitude
    at most 2^53 and less than 2^52 apart, makes one draw and returns an
    integer between [min] and [max], both included; and every integer
    between them is returned for some draw. *)
Theorem getRandomInt_range_exact min max st :
  - 2 ^ 53 <= min -> min <= max -> max <= 2 ^ 53 -> max - min < 2 ^ 52 ->
  (forall tp, exists n,
     getRandomInt min max tp st = Normal n (advance st) /\ min <= n <= max) /\
  (forall n, min <= n <= max ->
     exists tp, getRandomInt min max tp st = Normal n (advance st)).
Proof.
  intros _ Hle _ Hlen. change (2 ^ 52) with 4503599627370496 in Hlen.
  assert (Hwide : max - min + 1 <= 2 ^ 53)
    by (change (2 ^ 53) with 9007199254740992; lia).
  split.
  - intros tp. eexists. split; [apply getRandomInt_run|].
    now apply getRandomInt_range.
  - intros n Hn.
    exists (fun _ => lucky_draw (max - min + 1) (n - min)).
    rewrite getRandomInt_run. unfold draw.
    rewrite lucky_draw_hits by lia. f_equal. lia.
Qed.

Lemma getRandomInt_range_exact_witness :
  (exists n, getRandomInt 80 130 sample_tape start = Normal n (advance start) /\ 80 <= n <= 130) /\
  (exists tp, getRandomInt 80 130 tp start = Normal 130 (advance start)).
Proof.
  destruct (getRandomInt_range_exact 80 130 start) as [H1 H2];
    [vm_compute; discriminate | lia | vm_compute; discriminate | reflexivity |].
  split; [apply H1 | apply H2; lia].
Defined.

(** X2: [getRandomElement(array)] returns an element of a non-empty array,
    any of them for some draw, and [undefined] for an empty array. *)
Theorem getRandomElement_member {A} (array : list A) st :
  (array = [] -> forall tp, getRandomElement array tp st = Normal None (advance st)) /\
  (array <> [] -> forall tp, exists x,
     getRandomElement array tp st = Normal (Some x) (advance st) /\ x ∈ array) /\
  (Z.of_nat (length array) < 2 ^ 32 -> forall x, x ∈ array ->
     exists tp, getRandomElement array tp st = Normal (Some x) (advance st)).
Proof.
  split; [|split].
  - intros -> tp. rewrite getRandomElement_run. now rewrite lookup_nil.
  - intros Hne tp. rewrite getRandomElement_run.
    destruct (random_index_lookup array (tp (cursor st)) Hne) as [x Hx].
    exists x. unfold draw. rewrite Hx. split; [reflexivity|].
    eapply list_elem_of_lookup_2. exact Hx.
  - intros Hlen x Hx. apply list_elem_of_lookup in Hx. destruct Hx as [i Hi].
    exists (fun _ => lucky_draw (Z.of_nat (length array)) (Z.of_nat i)).
    rewrite getRandomElement_run. unfold draw.
    now rewrite (lookup_index_draw _ _ _ Hi Hlen).
Qed.

Lemma getRandomElement_member_witness :
  exists x, getRandomElement NBA_TEAMS sample_tape start = Normal (Some x) (advance start) /\
            x ∈ NBA_TEAMS.
Proof.
  destruct (getRandomElement_member NBA_TEAMS start) as (_ & H & _).
  apply H. discriminate.
Defined.

(** ** The fetch functions never reject *)

Lemma mapi_from_settles {A B} (f : A -> Z -> M B) :
  (forall x i tp st, ~ is_hang (f x i tp st)) ->
  forall l i tp st, ~ is_hang (mapi_from f i l tp st).
Proof.
  intros Hf. induction l as [|x l IH]; intros i tp st; cbn [mapi_from].
  - intros [].
  - unfold bind at 1. specialize (Hf x i tp st).
    destruct (f x i tp st) as [y st1|e st1|st1]; [|intros []|exact Hf].
    unfold bind at 1. specialize (IH (i + 1) tp st1).
    destruct (mapi_from f (i + 1) l tp st1); [intros []|intros []|exact IH].
Qed.

Lemma fetchFromMySportsFeeds_settles env endpoint league tp st :
  ~ is_hang (fetchFromMySportsFeeds env endpoint league tp st).
Proof.
  unfold fetchFromMySportsFeeds, try_catch, bind, delay, throw, ret.
  destruct (fetch env _) as [lat msg|lat status txt body]; [intros []|].
  destruct (negb (ok status)); [intros []|].
  destruct body; intros [].
Qed.

Lemma transform_standing_no_hang entry index tp st :
  ~ is_hang (transform_standing entry index tp st).
Proof.
  destruct (transform_standing_settles entry index tp st) as [(r & s & E)|(e & s & E)];
    rewrite E; intros [].
Qed.

Lemma real_standings_settles env league tp st :
  ~ is_hang (real_standings env league tp st).
Proof.
  unfold real_standings. unfold bind at 1.
  pose proof (fetchFromMySportsFeeds_settles env "standings" league tp st) as H.
  destruct (fetchFromMySportsFeeds env "standings" league tp st) as [d st1|e st1|st1];
    [|intros []|exact H].
  unfold bind at 1.
  destruct (body_standings d) as [entries|]; [|intros []].
  pose proof (mapi_from_settles transform_standing transform_standing_no_hang entries 0 tp st1) as Hm.
  unfold mapi.
  destruct (mapi_from transform_standing 0 entries tp st1); [intros []|intros []|exact Hm].
Qed.

Lemma fetchStandings_fulfils env l tp st :
  exists r st',
    fetchStandings env l tp st = Normal r st' /\
    success r = true /\
    league r = toUpperCase l /\
    (source r = Some "MySportsFeeds" \/ source r = Some "Mock Data").
Proof.
  assert (Hmock : forall st1, exists r st',
            mock_standings env l tp st1 = Normal r st' /\ success r = true /\
            league r = toUpperCase l /\ source r = Some "Mock Data").
  { intros st1. unfold mock_standings.
    rewrite (bind_run _ _ _ _ _ _ (simulateNetworkDelay_run _ _ _ _)).
    match goal with |- context [bind (generateMockTeams ?t) _ ?tp ?s] =>
      destruct (generateMockTeams_run t tp s) as (out & st' & Hrun & _)
    end.
    rewrite (bind_run _ _ _ _ _ _ Hrun).
    unfold bind, Date_now, ret. eexists _, _. split; [reflexivity|]. simpl. auto. }
  unfold fetchStandings.
  destruct (isAPIConfigured (API_CONFIG env)).
  - unfold try_catch, bind.
    pose proof (real_standings_settles env l tp st) as Hs.
    destruct (real_standings env l tp st) as [r st1|e st1|st1] eqn:Hreal.
    + unfold ret. exists r, st1. split; [reflexivity|].
      unfold real_standings in Hreal.
      apply bind_Normal in Hreal. destruct Hreal as (d & s1 & _ & Hreal).
      apply bind_Normal in Hreal. destruct Hreal as (rows & s2 & _ & Hreal).
      unfold bind, Date_now, ret in Hreal. injection Hreal as <- _. simpl. auto.
    + unfold ret. destruct (Hmock st1) as (r & st' & Hr & H1 & H2 & H3).
      exists r, st'. rewrite Hr. auto.
    + destruct Hs. exact I.
  - unfold try_catch, bind, ret.
    destruct (Hmock st) as (r & st' & Hr & H1 & H2 & H3).
    exists r, st'. rewrite Hr. auto.
Qed.

(** X3: [fetchStandings] fulfils for every league, configuration and network:
    it neither rejects nor fails to settle, and its result has [success]
    true and comes from the real endpoint or from the mock path, with
    the league in upper case. *)
Theorem fetchStandings_always_fulfils env l tp st :
  (forall e st', fetchStandings env l tp st <> Throw e st') /\
  ~ is_hang (fetchStandings env l tp st) /\
  exists r st',
    fetchStandings env l tp st = Normal r st' /\
    success r = true /\
    league r = toUpperCase l /\
    (source r = Some "MySportsFeeds" \/ source r = Some "Mock Data").
Proof.
  destruct (fetchStandings_fulfils env l tp st) as (r & st' & H & Hrest).
  split; [intros e s; rewrite H; discriminate|].
  split; [rewrite H; intros []|].
  exists r, st'. split; [exact H | exact Hrest].
Qed.

(** ** What the mock generators make *)

Lemma games_loop_games env fuel teams remaining :
  forall i used games tp st out st',
  games_loop env fuel teams remaining i used games tp st = Normal out st' ->
  i = Z.of_nat (length games) ->
  (forall j g, games !! j = Some g -> mock_game_at env (elapsed st) j g) ->
  elapsed st' = elapsed st /\
  forall j g, out !! j = Some g -> mock_game_at env (elapsed st) j g.
Proof.
  induction remaining as [|r IH]; intros i used games tp st out st'; cbn [games_loop].
  - unfold ret. intros [= <- <-] _ Hall. auto.
  - intros H Hi Hall.
    apply bind_Normal in H. destruct H as ([[h a] key] & st1 & Hpick & H).
    apply pick_matchup_spec in Hpick. destruct Hpick as (_ & _ & Hel & _).
    unfold bind in H at 1. rewrite getRandomInt_run in H.
    unfold bind in H at 1. rewrite getRandomInt_run in H.
    unfold bind in H at 1. unfold Date_now in H at 1.
    unfold bind in H at 1. rewrite getRandomInt_run in H.
    apply IH in H.
    + cbn [elapsed advance] in H. rewrite Hel in H. exact H.
    + rewrite length_app. simpl. lia.
    + cbn [elapsed advance]. rewrite Hel.
      intros j g Hj. apply lookup_app_Some in Hj. destruct Hj as [Hj|[Hlen Hj]].
      * now apply Hall.
      * apply list_lookup_singleton_Some in Hj. destruct Hj as [Hj <-].
        assert (j = length games) as -> by lia.
        split; [cbn; now rewrite Hi|]. split; [reflexivity|].
        eexists _, _, _. cbn.
        split; [reflexivity|]. split; [apply getRandomInt_range; lia|].
        split; [reflexivity|]. split; [apply getRandomInt_range; lia|].
        split; [reflexivity|]. pose proof (getRandomInt_range 0 7 tp (advance (advance st1))). lia.
Qed.

Lemma generateMockGames_elapsed env fuel teams count tp st games st' :
  generateMockGames env fuel teams count tp st = Normal games st' ->
  length games = count /\ elapsed st' = elapsed st.
Proof.
  intros H. pose proof (generateMockGames_spec _ _ _ _ _ _ _ _ H) as (_ & _ & Hlen).
  unfold generateMockGames in H. apply games_loop_games in H.
  - destruct H as [Hel _]. split; [exact Hlen | exact Hel].
  - reflexivity.
  - intros j g Hj. now rewrite lookup_nil in Hj.
Qed.

(** X4: The games of [generateMockGames(teams, count)]: there are [count] of
    them, numbered from 1 in their order, each final, with both scores
    between 80 and 130; and the generation takes no time.  The date of a
    game is the time of the call set back by zero to seven days on the
    local calendar: its instant is at most seven days back, give or take
    the change of the zone's offset, and exactly so many days back in a
    zone that does not change its clocks. *)
Theorem generateMockGames_games env fuel teams count tp st games st' :
  generateMockGames env fuel teams count tp st = Normal games st' ->
  length games = count /\
  elapsed st' = elapsed st /\
  forall i g, games !! i = Some g ->
    mock_game_at env (elapsed st) i g /\
    exists back,
      Game.date g = DaysBefore (now env + elapsed st) back /\ 0 <= back <= 7 /\
      forall localTZA shift, offsets_within localTZA shift ->
        let ms := setDate_back localTZA (now env + elapsed st) back in
        now env + elapsed st - 7 * day_ms - shift <= ms <= now env + elapsed st + shift /\
        (shift = 0 -> ms = now env + elapsed st - back * day_ms).
Proof.
  intros H. pose proof (generateMockGames_spec _ _ _ _ _ _ _ _ H) as (_ & _ & Hlen).
  unfold generateMockGames in H. apply games_loop_games in H.
  - destruct H as [Hel Hall]. split; [exact Hlen|]. split; [exact Hel|].
    intros i g Hi. specialize (Hall i g Hi). split; [exact Hall|].
    destruct Hall as (_ & _ & hs & aws & back & _ & _ & _ & _ & Hd & Hb).
    exists back. split; [exact Hd|]. split; [exact Hb|].
    intros localTZA shift Hz ms. subst ms. unfold setDate_back, day_ms.
    match goal with |- context [localTZA ?t false] =>
      pose proof (Hz (now env + elapsed st) true t false) as Ho
    end.
    apply Z.abs_le in Ho. cbv zeta. split; lia.
  - reflexivity.
  - intros j g Hj. now rewrite lookup_nil in Hj.
Qed.

Lemma generateMockGames_games_witness :
  exists games st',
    generateMockGames env_public 10 NBA_TEAMS 6 sample_tape start = Normal games st' /\
    length games = 6%nat /\ elapsed st' = 0 /\
    forall g, games !! 0%nat = Some g ->
      exists back, Game.date g = DaysBefore 1700000000000 back /\ 0 <= back <= 7.
Proof.
  assert (H : exists games st',
             generateMockGames env_public 10 NBA_TEAMS 6 sample_tape start = Normal games st')
    by (eexists _, _; vm_compute; reflexivity).
  destruct H as (games & st' & H). exists games, st'. split; [exact H|].
  destruct (generateMockGames_games _ _ _ _ _ _ _ _ H) as (Hlen & Hel & Hall).
  split; [exact Hlen|]. split; [exact Hel|].
  intros g Hg. destruct (Hall _ _ Hg) as (_ & back & Hd & Hb & _).
  exists back. split; [exact Hd | exact Hb].
Defined.

Lemma mapi_from_at {A B} (f : A -> Z -> M B) (P : nat -> B -> Prop) (l0 : list A) :
  (forall x i tp st y st', l0 !! i = Some x ->
      f x (Z.of_nat i) tp st = Normal y st' -> P i y /\ elapsed st' = elapsed st) ->
  forall l k tp st ys st',
    l = drop k l0 ->
    mapi_from f (Z.of_nat k) l tp st = Normal ys st' ->
    length ys = length l /\ elapsed st' = elapsed st /\
    forall j y, ys !! j = Some y -> P (k + j)%nat y.
Proof.
  intros Hf. induction l as [|x l IH]; intros k tp st ys st' Hl; cbn [mapi_from].
  - unfold ret. intros [= <- <-]. split; [reflexivity|]. split; [reflexivity|].
    intros j y Hj. now rewrite lookup_nil in Hj.
  - intros H. apply bind_Normal in H. destruct H as (y & st1 & Hy & H).
    apply bind_Normal in H. destruct H as (ys' & st2 & Hys & H).
    unfold ret in H. injection H as <- <-.
    assert (Hk : l0 !! k = Some x).
    { rewrite <- (Nat.add_0_r k), <- lookup_drop, <- Hl. reflexivity. }
    destruct (Hf x k tp st y st1 Hk Hy) as [HP He1].
    replace (Z.of_nat k + 1) with (Z.of_nat (S k)) in Hys by lia.
    apply IH in Hys.
    + destruct Hys as (Hlen & He2 & Hall).
      split; [simpl; now rewrite Hlen|]. split; [congruence|].
      intros [|j] y' Hj; simpl in Hj.
      * injection Hj as <-. now rewrite Nat.add_0_r.
      * replace (k + S j)%nat with (S k + j)%nat by lia. now apply Hall.
    + apply (f_equal (drop 1)) in Hl. rewrite drop_drop in Hl.
      cbn [drop] in Hl. rewrite drop_0 in Hl. rewrite Hl. f_equal. lia.
Qed.

Lemma mock_team_at teams name i tp st r st' :
  teams !! i = Some name ->
  mock_team name (Z.of_nat i) tp st = Normal r st' ->
  mock_standing_at teams i r /\ elapsed st' = elapsed st.
Proof.
  intros Hname. unfold mock_team.
  unfold bind at 1. rewrite getRandomInt_run.
  unfold bind at 1. rewrite getRandomInt_run.
  unfold bind at 1. rewrite getRandomInt_run.
  unfold bind at 1. unfold Math_random at 1.
  unfold bind at 1. rewrite getRandomInt_run.
  unfold ret. intros [= <- <-]. split; [|reflexivity].
  split; [reflexivity|]. split; [cbn; now rewrite Hname|].
  eexists _, _. cbn.
  split; [destruct (2 ^ 52 <? _); [left|right]; reflexivity|].
  split; [apply getRandomInt_range; lia|].
  split; [reflexivity|]. apply getRandomInt_range; lia.
Qed.

Lemma mock_standings_rows env l tp st :
  exists r st',
    mock_standings env l tp st = Normal r st' /\
    length (data r) = length (roster l) /\
    (forall i row, data r !! i = Some row -> mock_standing_at (roster l) i row) /\
    300 <= elapsed st' - elapsed st <= 800 /\
    timestamp r = now env + elapsed st'.
Proof.
  destruct (mock_standings_run env l tp st) as (r & st' & Hrun & _).
  exists r, st'. split; [exact Hrun|].
  unfold mock_standings in Hrun.
  rewrite (bind_run _ _ _ _ _ _ (simulateNetworkDelay_run _ _ _ _)) in Hrun.
  apply bind_Normal in Hrun. destruct Hrun as (rows & st2 & Hgen & Hrest).
  unfold bind, Date_now, ret in Hrest. injection Hrest as <- <-. cbn [data timestamp].
  unfold generateMockTeams, mapi in Hgen.
  apply (mapi_from_at mock_team (mock_standing_at (roster l)) (roster l)
           (mock_team_at (roster l)) (roster l) 0%nat) in Hgen; [|reflexivity].
  destruct Hgen as (Hlen & Hel & Hall).
  split; [exact Hlen|]. split; [exact Hall|].
  rewrite Hel. cbn [elapsed waited advance].
  pose proof (getRandomInt_range 300 800 tp st ltac:(lia)). split; [lia | reflexivity].
Qed.

(** ** Games from the real endpoint *)

(** What [fetchRecentGames] makes of an entry of the response. *)
Lemma transform_game_spec entry index tp st g st' :
  transform_game entry index tp st = Normal g st' ->
  st' = st /\
  exists game schedule home away,
    entry = Some game /\ game_schedule game = Some schedule /\
    schedule_homeTeam schedule = Some home /\ schedule_awayTeam schedule = Some away /\
    Game.id g = schedule_id schedule /\
    Game.homeTeam g = string_or (abbreviation home) (city home) /\
    Game.awayTeam g = string_or (abbreviation away) (city away) /\
    Game.date g = StartTime (startTime schedule) /\
    Game.status g =
      (if bool_decide (playedStatus schedule = Some "COMPLETED") then "final" else "scheduled") /\
    (Game.winner g = abbreviation home \/ Game.winner g = abbreviation away) /\
    (game_score game = None ->
       Game.homeScore g = zero /\ Game.awayScore g = zero /\
       Game.winner g = abbreviation away).
Proof.
  unfold transform_game.
  destruct entry as [game|]; [|discriminate].
  destruct (game_schedule game) as [schedule|] eqn:Hs; [|discriminate].
  destruct (schedule_homeTeam schedule) as [home|] eqn:Hh; [|discriminate].
  destruct (schedule_awayTeam schedule) as [away|] eqn:Ha; [|discriminate].
  unfold ret. intros [= <- <-]. split; [reflexivity|].
  exists game, schedule, home, away. cbn.
  repeat (split; [first [reflexivity | assumption]|]).
  split.
  - match goal with |- context [if ?b then _ else _] => destruct b end; auto.
  - intros ->. cbn. auto.
Qed.

(** X5: A game that comes without a score (one not played yet) is given the
    score 0 to 0 and, as its winner, the abbreviation of the away team;
    and the winner of any game is an abbreviation, also of a team that is
    shown by its city for want of one. *)
Theorem transform_game_winner schedule home away score index tp st :
  schedule_homeTeam schedule = Some home ->
  schedule_awayTeam schedule = Some away ->
  exists g,
    transform_game (Some {| game_schedule := Some schedule; game_score := score |})
                   index tp st = Normal g st /\
    (score = None ->
       Game.homeScore g = zero /\ Game.awayScore g = zero /\
       Game.winner g = abbreviation away) /\
    (Game.winner g = abbreviation home \/ Game.winner g = abbreviation away) /\
    (string_truthy (abbreviation home) = false ->
       Game.homeTeam g = city home /\
       (Game.winner g = abbreviation home -> string_truthy (Game.winner g) = false)).
Proof.
  intros Hh Ha. unfold transform_game. cbn. rewrite Hh, Ha.
  eexists. split; [reflexivity|]. cbn.
  split; [intros ->; cbn; auto|].
  split; [match goal with |- context [if ?b then _ else _] => destruct b end; auto|].
  intros Hab. unfold string_or. rewrite Hab. split; [reflexivity|].
  intros ->. exact Hab.
Qed.

Lemma mapi_from_at_rel {A B} (f : A -> Z -> M B) (P : A -> B -> Prop) :
  (forall x i tp st y st', f x i tp st = Normal y st' -> P x y /\ st' = st) ->
  forall l i tp st ys st',
    mapi_from f i l tp st = Normal ys st' -> Forall2 P l ys /\ st' = st.
Proof.
  intros Hf. induction l as [|x l IH]; intros i tp st ys st'; cbn [mapi_from].
  - unfold ret. intros [= <- <-]. split; [constructor | reflexivity].
  - intros H. apply bind_Normal in H. destruct H as (y & st1 & Hy & H).
    apply bind_Normal in H. destruct H as (ys' & st2 & Hys & H).
    unfold ret in H. injection H as <- <-.
    destruct (Hf _ _ _ _ _ _ Hy) as [HP ->].
    destruct (IH _ _ _ _ _ Hys) as [Hall ->].
    split; [now constructor | reflexivity].
Qed.

Lemma real_games_Normal env l tp st r st' :
  real_games env l tp st = Normal r st' ->
  exists d st1 entries,
    fetchFromMySportsFeeds env "games" l tp st = Normal d st1 /\
    body_games d = Some entries /\
    mapi transform_game (take 6 entries) tp st1 = Normal (data r) st' /\
    success r = true /\ source r = Some "MySportsFeeds" /\ league r = toUpperCase l.
Proof.
  unfold real_games. intros H.
  apply bind_Normal in H. destruct H as (d & st1 & Hd & H).
  apply bind_Normal in H. destruct H as (gs & st2 & Hg & H).
  unfold bind, Date_now, ret in H. injection H as <- <-.
  destruct (body_games d) as [entries|] eqn:Hb; [|discriminate].
  exists d, st1, entries. cbn. repeat split; auto.
Qed.

Lemma real_games_first_six env l tp st r st' :
  real_games env l tp st = Normal r st' ->
  exists d st1 entries,
    fetchFromMySportsFeeds env "games" l tp st = Normal d st1 /\
    body_games d = Some entries /\
    length (data r) = Nat.min 6 (length entries) /\
    forall i g, data r !! i = Some g ->
      exists game schedule,
        entries !! i = Some (Some game) /\ game_schedule game = Some schedule /\
        Game.id g = schedule_id schedule /\
        Game.date g = StartTime (startTime schedule) /\
        (Game.status g = "final" <-> playedStatus schedule = Some "COMPLETED") /\
        (playedStatus schedule <> Some "COMPLETED" -> Game.status g = "scheduled").
Proof.
  intros H. apply real_games_Normal in H.
  destruct H as (d & st1 & entries & Hd & Hb & Hmap & _).
  exists d, st1, entries. split; [exact Hd|]. split; [exact Hb|].
  unfold mapi in Hmap.
  apply (mapi_from_at_rel transform_game
           (fun entry g =>
              exists game schedule,
                entry = Some game /\ game_schedule game = Some schedule /\
                Game.id g = schedule_id schedule /\
                Game.date g = StartTime (startTime schedule) /\
                (Game.status g = "final" <-> playedStatus schedule = Some "COMPLETED") /\
                (playedStatus schedule <> Some "COMPLETED" ->
                 Game.status g = "scheduled"))) in Hmap.
  - destruct Hmap as [Hall _].
    split; [rewrite <- (Forall2_length _ _ _ Hall), length_take; lia|].
    intros i g Hi.
    destruct (Forall2_lookup_r _ _ _ _ _ Hall Hi) as (entry & He & HP).
    destruct HP as (game & schedule & -> & Hs & Hid & Hdate & Hst & Hsch).
    apply lookup_take_Some in He. destruct He as [He _].
    exists game, schedule. split; [exact He|]. split; [exact Hs|].
    split; [exact Hid|]. split; [exact Hdate|]. split; [exact Hst | exact Hsch].
  - intros x i tp0 st0 y st0' Hy. apply transform_game_spec in Hy.
    destruct Hy as (-> & game & schedule & home & away & -> & Hs & _ & _ & Hid & _ & _ & Hdate & Hst & _).
    split; [|reflexivity].
    exists game, schedule. repeat (split; [assumption || reflexivity|]).
    rewrite Hst. destruct (bool_decide_reflect (playedStatus schedule = Some "COMPLETED"));
      (split; [split|]); intros; congruence || reflexivity || discriminate.
Qed.

(** ** Games and statistics never reject *)

Lemma games_loop_no_throw env fuel teams remaining :
  forall i used games tp st e st',
    games_loop env fuel teams remaining i used games tp st <> Throw e st'.
Proof.
  induction remaining as [|r IH]; intros i used games tp st e st'; cbn [games_loop].
  - discriminate.
  - unfold bind at 1.
    destruct (pick_matchup fuel teams used tp st) as [[[h a] key] st1|e1 st1|st1] eqn:Hpick;
      [|now apply pick_matchup_no_throw in Hpick|discriminate].
    unfold bind at 1. rewrite getRandomInt_run.
    unfold bind at 1. rewrite getRandomInt_run.
    unfold bind at 1. unfold Date_now at 1.
    unfold bind at 1. rewrite getRandomInt_run.
    apply IH.
Qed.

Lemma mock_games_no_throw env fuel l tp st e st' :
  mock_games env fuel l tp st <> Throw e st'.
Proof.
  unfold mock_games.
  rewrite (bind_run _ _ _ _ _ _ (simulateNetworkDelay_run _ _ _ _)).
  unfold bind at 1.
  match goal with |- context [generateMockGames ?e ?f ?t ?c ?tp ?s] =>
    pose proof (games_loop_no_throw e f t c 0 ∅ [] tp s) as Hn;
    unfold generateMockGames;
    destruct (games_loop e f t c 0 ∅ [] tp s) as [gs s1|e1 s1|s1]
  end.
  - unfold bind, Date_now, ret. discriminate.
  - now destruct (Hn e1 s1).
  - discriminate.
Qed.

Lemma mock_games_Normal env fuel l tp st r st' :
  mock_games env fuel l tp st = Normal r st' ->
  success r = true /\ league r = toUpperCase l /\ source r = Some "Mock Data" /\
  length (data r) = 6%nat /\
  300 <= elapsed st' - elapsed st <= 800.
Proof.
  unfold mock_games. intros H.
  rewrite (bind_run _ _ _ _ _ _ (simulateNetworkDelay_run _ _ _ _)) in H.
  apply bind_Normal in H. destruct H as (gs & st2 & Hgen & H).
  unfold bind, Date_now, ret in H. injection H as <- <-. cbn.
  apply generateMockGames_elapsed in Hgen. destruct Hgen as (Hlen & Hel).
  repeat split; auto; rewrite Hel; cbn [elapsed waited advance];
    pose proof (getRandomInt_range 300 800 tp st ltac:(lia)); lia.
Qed.

Lemma fetchRecentGames_no_throw env fuel l tp st e st' :
  fetchRecentGames env fuel l tp st <> Throw e st'.
Proof.
  unfold fetchRecentGames.
  destruct (isAPIConfigured (API_CONFIG env)).
  - unfold try_catch, bind.
    destruct (real_games env l tp st) as [r st1|e1 st1|st1]; try discriminate.
    unfold ret.
    pose proof (mock_games_no_throw env fuel l tp st1) as Hn.
    destruct (mock_games env fuel l tp st1) as [r st2|e2 st2|st2]; try discriminate.
    now destruct (Hn e2 st2).
  - unfold try_catch, bind, ret.
    pose proof (mock_games_no_throw env fuel l tp st) as Hn.
    destruct (mock_games env fuel l tp st) as [r st2|e2 st2|st2]; try discriminate.
    now destruct (Hn e2 st2).
Qed.

(** X6: [fetchRecentGames] never rejects, whatever the league, the
    configuration and the network: an error of the real endpoint is
    caught and nothing in the mock path throws.  What it returns has
    [success] true and at most six games, six of them when they are
    generated. *)
Theorem fetchRecentGames_never_rejects env fuel l tp st :
  (forall e st', fetchRecentGames env fuel l tp st <> Throw e st') /\
  (forall r st', fetchRecentGames env fuel l tp st = Normal r st' ->
     success r = true /\ league r = toUpperCase l /\
     (length (data r) <= 6)%nat /\
     (source r = Some "Mock Data" -> length (data r) = 6%nat)).
Proof.
  split.
  - intros e st'. apply fetchRecentGames_no_throw.
  - intros r st' H.
    destruct (fetchRecentGames_cases _ _ _ _ _ _ _ H) as [[Hsrc Hreal]|[Hsrc [st1 Hm]]].
    + apply real_games_Normal in Hreal.
      destruct Hreal as (d & st1 & entries & _ & _ & Hmap & Hs & _ & Hl).
      split; [exact Hs|]. split; [exact Hl|]. split; [|congruence].
      unfold mapi in Hmap.
      apply (mapi_from_at_rel transform_game (fun _ _ => True)) in Hmap.
      * destruct Hmap as [Hall _]. rewrite <- (Forall2_length _ _ _ Hall), length_take. lia.
      * intros x i tp0 st0 y st0' Hy. apply transform_game_spec in Hy. now destruct Hy.
    + apply mock_games_Normal in Hm. destruct Hm as (Hs & Hl & _ & Hlen & _).
      split; [exact Hs|]. split; [exact Hl|]. split; [lia | auto].
Qed.

Lemma fetchDashboardStats_elapsed env l tp st :
  exists r st',
    fetchDashboardStats env l tp st = Normal r st' /\
    200 <= elapsed st' - elapsed st <= 500.
Proof.
  unfold fetchDashboardStats, try_catch.
  rewrite (bind_run _ _ _ _ _ _ (simulateNetworkDelay_run _ _ _ _)).
  unfold bind at 1. rewrite getRandomInt_run.
  unfold bind at 1. rewrite getRandomElement_run.
  unfold bind at 1. rewrite getRandomInt_run.
  unfold bind, Date_now, ret.
  eexists _, _. split; [reflexivity|]. cbn.
  pose proof (getRandomInt_range 200 500 tp st ltac:(lia)). lia.
Qed.

(** X7: [fetchDashboardStats] fulfils, between 200 and 500 milliseconds after
    the call and with four draws.  For every league there are 12 teams,
    from 3 to 8 games today, an average score between 105 and 115, and
    one of four basketball players as the top scorer. *)
Theorem fetchDashboardStats_values env l tp st :
  exists r st' gamesToday avgScore,
    fetchDashboardStats env l tp st = Normal r st' /\
    success r = true /\ league r = toUpperCase l /\
    Stats.totalTeams (data r) = of_Z 12 /\
    Stats.gamesToday (data r) = of_Z gamesToday /\ 3 <= gamesToday <= 8 /\
    Stats.avgScore (data r) = of_Z avgScore /\ 105 <= avgScore <= 115 /\
    (exists name, Stats.topScorer (data r) = Some name /\
       name ∈ ["LeBron James"; "Stephen Curry"; "Kevin Durant"; "Giannis Antetokounmpo"]) /\
    200 <= elapsed st' - elapsed st <= 500 /\
    cursor st' = (cursor st + 4)%nat.
Proof.
  unfold fetchDashboardStats, try_catch.
  rewrite (bind_run _ _ _ _ _ _ (simulateNetworkDelay_run _ _ _ _)).
  unfold bind at 1. rewrite getRandomInt_run.
  unfold bind at 1. rewrite getRandomElement_run.
  unfold bind at 1. rewrite getRandomInt_run.
  unfold bind, Date_now, ret.
  eexists _, _, _, _. split; [reflexivity|]. cbn.
  split; [reflexivity|]. split; [reflexivity|]. split; [reflexivity|].
  split; [reflexivity|]. split; [apply getRandomInt_range; lia|].
  split; [reflexivity|]. split; [apply getRandomInt_range; lia|].
  split.
  - match goal with |- context [?l !! ?i] =>
      destruct (random_index_lookup l
        (tp (S (S (cursor st)))) ltac:(discriminate)) as [x Hx]
    end.
    exists x. unfold draw. cbn [cursor advance waited]. cbn [length] in Hx |- *.
    split; [exact Hx|]. eapply list_elem_of_lookup_2. exact Hx.
  - pose proof (getRandomInt_range 200 500 tp st ltac:(lia)). split; lia.
Qed.

(** ** The two sources of a result *)

Lemma fetchStandings_from_mock env l tp st r st' :
  fetchStandings env l tp st = Normal r st' ->
  source r = Some "Mock Data" ->
  exists st1, mock_standings env l tp st1 = Normal r st' /\
    (isAPIConfigured (API_CONFIG env) = false -> st1 = st).
Proof.
  unfold fetchStandings.
  destruct (isAPIConfigured (API_CONFIG env)).
  - unfold try_catch, bind.
    destruct (real_standings env l tp st) as [r0 st1|e st1|st1] eqn:Hreal.
    + unfold ret. intros [= <- <-] Hsrc.
      unfold real_standings in Hreal.
      apply bind_Normal in Hreal. destruct Hreal as (d & s1 & _ & Hreal).
      apply bind_Normal in Hreal. destruct Hreal as (rows & s2 & _ & Hreal).
      unfold bind, Date_now, ret in Hreal. injection Hreal as <- _. discriminate.
    + unfold ret. intros H _. exists st1. split; [|discriminate].
      destruct (mock_standings env l tp st1); try discriminate; exact H.
    + discriminate.
  - unfold try_catch, bind, ret. intros H _. exists st. split; [|reflexivity].
    destruct (mock_standings env l tp st); try discriminate; exact H.
Qed.

(** X8: The mock standings that [fetchStandings] returns: one standing for
    each team of the league's roster, in the roster's order and numbered
    from 1, with a streak of "W" or "L" and a number from 1 to 8, and
    points between 80 and 120.  Without an API key they arrive between
    300 and 800 milliseconds after the call. *)
Theorem fetchStandings_mock_rows env l tp st r st' :
  fetchStandings env l tp st = Normal r st' ->
  source r = Some "Mock Data" ->
  length (data r) = length (roster l) /\
  (forall i row, data r !! i = Some row -> mock_standing_at (roster l) i row) /\
  timestamp r = now env + elapsed st' /\
  (isAPIConfigured (API_CONFIG env) = false -> 300 <= elapsed st' - elapsed st <= 800).
Proof.
  intros Hrun Hsrc.
  destruct (fetchStandings_from_mock _ _ _ _ _ _ Hrun Hsrc) as (st1 & Hmock & Hst).
  destruct (mock_standings_rows env l tp st1) as (r2 & st2 & Hrun2 & Hlen & Hrows & Ht & Hts).
  rewrite Hmock in Hrun2. injection Hrun2 as <- <-.
  split; [exact Hlen|]. split; [exact Hrows|]. split; [exact Hts|].
  intros Hc. rewrite <- (Hst Hc). exact Ht.
Qed.

Lemma fetchStandings_mock_rows_witness :
  exists r st',
    fetchStandings env_down "nfl" sample_tape start = Normal r st' /\
    length (data r) = 12%nat /\
    (forall row, data r !! 0%nat = Some row -> Standing.name row = Some "Chiefs").
Proof.
  assert (H : exists r st',
             fetchStandings env_down "nfl" sample_tape start = Normal r st' /\
             source r = Some "Mock Data")
    by (eexists _, _; vm_compute; split; reflexivity).
  destruct H as (r & st' & H & Hsrc). exists r, st'. split; [exact H|].
  destruct (fetchStandings_mock_rows _ _ _ _ _ _ H Hsrc) as (Hlen & Hrows & _).
  split; [exact Hlen|].
  intros row Hrow. destruct (Hrows _ _ Hrow) as (_ & Hname & _). exact Hname.
Defined.

Lemma fetchRecentGames_from_real env fuel l tp st r st' :
  fetchRecentGames env fuel l tp st = Normal r st' ->
  source r = Some "MySportsFeeds" ->
  real_games env l tp st = Normal r st'.
Proof.
  unfold fetchRecentGames.
  destruct (isAPIConfigured (API_CONFIG env)).
  - unfold try_catch, bind.
    destruct (real_games env l tp st) as [r0 st1|e st1|st1] eqn:Hreal.
    + unfold ret. now intros [= <- <-] _.
    + unfold ret. intros H Hsrc.
      destruct (mock_games env fuel l tp st1) as [r1 s1|e1 s1|s1] eqn:Hm; try discriminate.
      injection H as <- <-. apply mock_games_Normal in Hm.
      destruct Hm as (_ & _ & Hm & _). congruence.
    + discriminate.
  - unfold try_catch, bind, ret. intros H Hsrc.
    destruct (mock_games env fuel l tp st) as [r1 s1|e1 s1|s1] eqn:Hm; try discriminate.
    injection H as <- <-. apply mock_games_Normal in Hm.
    destruct Hm as (_ & _ & Hm & _). congruence.
Qed.

(** X9: The games that [fetchRecentGames] returns from the real endpoint are
    the first six games of the response (all of them when there are
    fewer), in the response's order: each has the id and the start time
    of its schedule, and is final exactly when its played status is
    "COMPLETED". *)
Theorem fetchRecentGames_first_six env fuel l tp st r st' :
  fetchRecentGames env fuel l tp st = Normal r st' ->
  source r = Some "MySportsFeeds" ->
  exists d st1 entries,
    fetchFromMySportsFeeds env "games" l tp st = Normal d st1 /\
    body_games d = Some entries /\
    length (data r) = Nat.min 6 (length entries) /\
    forall i g, data r !! i = Some g ->
      exists game schedule,
        entries !! i = Some (Some game) /\ game_schedule game = Some schedule /\
        Game.id g = schedule_id schedule /\
        Game.date g = StartTime (startTime schedule) /\
        (Game.status g = "final" <-> playedStatus schedule = Some "COMPLETED") /\
        (playedStatus schedule <> Some "COMPLETED" -> Game.status g = "scheduled").
Proof.
  intros Hrun Hsrc. apply (real_games_first_six env l tp st r st').
  now apply (fetchRecentGames_from_real env fuel).
Qed.

Lemma fetchRecentGames_first_six_witness :
  exists r st',
    fetchRecentGames games_env 10 "nhl" sample_tape start = Normal r st' /\
    length (data r) = 6%nat.
Proof.
  assert (H : exists r st',
             fetchRecentGames games_env 10 "nhl" sample_tape start = Normal r st' /\
             source r = Some "MySportsFeeds")
    by (eexists _, _; vm_compute; split; reflexivity).
  destruct H as (r & st' & H & Hsrc). exists r, st'. split; [exact H|].
  destruct (fetchRecentGames_first_six _ _ _ _ _ _ _ H Hsrc)
    as (d & st1 & entries & Hd & Hb & Hlen & _).
  vm_compute in Hd. injection Hd as <- <-. cbn in Hb. injection Hb as <-.
  exact Hlen.
Defined.

Lemma transform_game_winner_witness :
  exists g,
    transform_game (Some {| game_schedule := Some upcoming; game_score := None |})
                   0 sample_tape start = Normal g start /\
    Game.homeScore g = zero /\ Game.awayScore g = zero /\
    Game.winner g = Some "BOS" /\ Game.homeTeam g = Some "Seattle".
Proof.
  destruct (transform_game_winner upcoming seattle nhl_team None 0 sample_tape start
              eq_refl eq_refl) as (g & Hrun & Hnone & _ & Hcity).
  exists g. split; [exact Hrun|].
  destruct (Hnone eq_refl) as (Hh & Ha & Hw).
  destruct (Hcity eq_refl) as [Hhome _].
  repeat split; assumption.
Defined.

(** ** All data, from the current API module *)

Lemma fetchStandings_no_throw env l tp st e st' :
  fetchStandings env l tp st <> Throw e st'.
Proof.
  destruct (fetchStandings_fulfils env l tp st) as (r & s & H & _).
  rewrite H. discriminate.
Qed.

Lemma fetchDashboardStats_no_throw env l tp st e st' :
  fetchDashboardStats env l tp st <> Throw e st'.
Proof.
  destruct (fetchDashboardStats_elapsed env l tp st) as (r & s & H & _).
  rewrite H. discriminate.
Qed.

Lemma event_of_Reject {A} (o : outcome A) t e :
  event_of o = (t, Reject e) -> exists st, o = Throw e st.
Proof. destruct o; simpl; intros [= <- ?]; subst; eauto. Qed.

(** X10: With the fetch functions of [api.js], [fetchAllData] never rejects:
    it fulfils, or never settles when the generation of the games does
    not end. *)
Theorem fetchAllData_never_rejects env fuel l tapes started :
  (forall e t, fetchAllData env fuel l tapes started <> Rejected e t) /\
  (forall tp1 tp2 tp3 b st2,
     tapes = (tp1, tp2, tp3) ->
     fetchRecentGames env fuel l tp2 {| cursor := O; elapsed := started |} = Normal b st2 ->
     exists d t, fetchAllData env fuel l tapes started = Fulfilled d t /\
                 all_success d = true /\ games d = data b).
Proof.
  destruct tapes as [[tp1 tp2] tp3]. split.
  - intros e t H. unfold fetchAllData, fetchAllData_of in H.
    set (st := {| cursor := O; elapsed := started |}) in H.
    pose proof (fetchStandings_no_throw env l tp1 st) as H1.
    pose proof (fetchRecentGames_no_throw env fuel l tp2 st) as H2.
    pose proof (fetchDashboardStats_no_throw env l tp3 st) as H3.
    destruct (fetchStandings env l tp1 st) as [a s1|e1 s1|s1];
      [|now destruct (H1 e1 s1)|];
      (destruct (fetchRecentGames env fuel l tp2 st) as [b s2|e2 s2|s2];
        [|now destruct (H2 e2 s2)|]);
      (destruct (fetchDashboardStats env l tp3 st) as [c s3|e3 s3|s3];
        [|now destruct (H3 e3 s3)|]);
      try discriminate;
      destruct (first_failure _) as [[t' ev]|] eqn:Hf; try discriminate;
      apply first_failure_Some in Hf; destruct Hf as [Hin Hne];
      destruct ev; try discriminate;
      repeat (apply elem_of_cons in Hin; destruct Hin as [Hin|Hin]; [discriminate|]);
      inversion Hin.
  - intros tp1' tp2' tp3' b st2 [= <- <- <-] Hg.
    unfold fetchAllData, fetchAllData_of. rewrite Hg.
    destruct (fetchStandings_fulfils env l tp1 {| cursor := O; elapsed := started |})
      as (a & s1 & Ha & _).
    destruct (fetchDashboardStats_elapsed env l tp3 {| cursor := O; elapsed := started |})
      as (c & s3 & Hc & _).
    rewrite Ha, Hc. eexists _, _. split; [reflexivity|]. split; reflexivity.
Qed.

Lemma fetchStandings_unconfigured env l tp st r st' :
  isAPIConfigured (API_CONFIG env) = false ->
  fetchStandings env l tp st = Normal r st' ->
  mock_standings env l tp st = Normal r st'.
Proof.
  intros Hc. unfold fetchStandings. rewrite Hc. unfold try_catch, bind, ret, throw.
  destruct (mock_standings env l tp st); intros H; try discriminate; exact H.
Qed.

Lemma fetchRecentGames_unconfigured env fuel l tp st r st' :
  isAPIConfigured (API_CONFIG env) = false ->
  fetchRecentGames env fuel l tp st = Normal r st' ->
  mock_games env fuel l tp st = Normal r st'.
Proof.
  intros Hc. unfold fetchRecentGames. rewrite Hc. unfold try_catch, bind, ret, throw.
  destruct (mock_games env fuel l tp st); intros H; try discriminate; exact H.
Qed.

(** X11: Without an API key the three requests of [fetchAllData] run side by
    side on their timers: the data arrive between 300 and 800
    milliseconds after the call, not after the sum of the three waits,
    with the standings of twelve teams and six games. *)
Theorem fetchAllData_mock_timing env fuel l tapes started d t :
  isAPIConfigured (API_CONFIG env) = false ->
  fetchAllData env fuel l tapes started = Fulfilled d t ->
  started + 300 <= t <= started + 800 /\
  all_timestamp d = now env + t /\
  all_league d = toUpperCase l /\
  length (standings d) = 12%nat /\ length (games d) = 6%nat.
Proof.
  intros Hc H. destruct tapes as [[tp1 tp2] tp3].
  unfold fetchAllData, fetchAllData_of in H.
  set (st := {| cursor := O; elapsed := started |}) in H.
  destruct (fetchStandings env l tp1 st) as [a s1|e1 s1|s1] eqn:H1;
    destruct (fetchRecentGames env fuel l tp2 st) as [b s2|e2 s2|s2] eqn:H2;
    destruct (fetchDashboardStats env l tp3 st) as [c s3|e3 s3|s3] eqn:H3;
    try (destruct (first_failure _) as [[? []]|]; discriminate).
  injection H as <- <-. cbn.
  apply (fetchStandings_unconfigured _ _ _ _ _ _ Hc) in H1.
  apply (fetchRecentGames_unconfigured _ _ _ _ _ _ _ Hc) in H2.
  destruct (mock_standings_rows env l tp1 st) as (a' & s1' & Ha & Hlen & _ & Ht1 & _).
  assert (a' = a /\ s1' = s1) as [-> ->] by (split; congruence).
  apply mock_games_Normal in H2. destruct H2 as (_ & _ & _ & Hlen2 & Ht2).
  destruct (fetchDashboardStats_elapsed env l tp3 st) as (c' & s3' & Hc' & Ht3).
  assert (c' = c /\ s3' = s3) as [-> ->] by (split; congruence).
  cbn [elapsed st] in *.
  split; [lia|]. split; [reflexivity|]. split; [reflexivity|].
  split; [|exact Hlen2].
  rewrite Hlen. destruct (roster_cases l) as [-> | [-> | [-> | ->]]]; reflexivity.
Qed.

Lemma fetchAllData_mock_timing_witness :
  exists d t,
    fetchAllData env_public 10 "nba" (sample_tape, sample_tape, sample_tape) 1000 =
      Fulfilled d t /\
    1300 <= t <= 1800 /\ length (games d) = 6%nat.
Proof.
  assert (H : exists d t,
    fetchAllData env_public 10 "nba" (sample_tape, sample_tape, sample_tape) 1000 =
      Fulfilled d t) by (eexists _, _; vm_compute; reflexivity).
  destruct H as (d & t & H). exists d, t. split; [exact H|].
  destruct (fetchAllData_mock_timing _ _ _ _ _ _ _ (eq_refl : isAPIConfigured (API_CONFIG env_public) = false) H)
    as (Ht & _ & _ & _ & Hg).
  split; [lia | exact Hg].
Defined.

(** X12: Which keys count as no key: none, the empty one, and the two
    placeholders of the configuration templates.  With such a key no
    request is made: the results of the fetch functions do not depend on
    the network. *)
Theorem unconfigured_makes_no_request env env' fuel l :
  API_CONFIG env' = API_CONFIG env -> now env' = now env ->
  (isAPIConfigured (API_CONFIG env) = false <->
     API_KEY (API_CONFIG env) = None \/ API_KEY (API_CONFIG env) = Some "" \/
     API_KEY (API_CONFIG env) = Some "YOUR_API_KEY_HERE" \/
     API_KEY (API_CONFIG env) = Some "YOUR_MYSPORTSFEEDS_API_KEY_HERE") /\
  (isAPIConfigured (API_CONFIG env) = false ->
     (forall tp st, fetchStandings env' l tp st = fetchStandings env l tp st) /\
     (forall tp st, fetchRecentGames env' fuel l tp st = fetchRecentGames env fuel l tp st) /\
     (forall tapes started,
        fetchAllData env' fuel l tapes started = fetchAllData env fuel l tapes started)).
Proof.
  intros Hcfg Hnow. split.
  - unfold isAPIConfigured.
    destruct (API_KEY (API_CONFIG env)) as [[|c k]|]; cbn.
    + split; auto.
    + split.
      * intros H. right. right.
        destruct (bool_decide_reflect (Some (String c k) = Some "YOUR_API_KEY_HERE")); auto.
        destruct (bool_decide_reflect (Some (String c k) = Some "YOUR_MYSPORTSFEEDS_API_KEY_HERE"));
          auto. discriminate.
      * intros [H|[H|[H|H]]]; try discriminate; rewrite H; reflexivity.
    + split; auto.
  - intros Hc.
    destruct env as [cfg f n], env' as [cfg' f' n']. cbn in *. subst cfg' n'.
    assert (HS : forall tp st, fetchStandings {| API_CONFIG := cfg; fetch := f'; now := n |} l tp st =
                               fetchStandings {| API_CONFIG := cfg; fetch := f; now := n |} l tp st).
    { intros tp st. unfold fetchStandings. cbn [API_CONFIG]. rewrite Hc. reflexivity. }
    assert (HG : forall tp st,
              fetchRecentGames {| API_CONFIG := cfg; fetch := f'; now := n |} fuel l tp st =
              fetchRecentGames {| API_CONFIG := cfg; fetch := f; now := n |} fuel l tp st).
    { intros tp st. unfold fetchRecentGames. cbn [API_CONFIG]. rewrite Hc. reflexivity. }
    split; [exact HS|]. split; [exact HG|].
    intros [[tp1 tp2] tp3] started. unfold fetchAllData, fetchAllData_of.
    rewrite HS, HG. reflexivity.
Qed.

Lemma unconfigured_makes_no_request_witness :
  isAPIConfigured config_public = false /\
  isAPIConfigured config_template = false /\
  forall tp st, fetchStandings env_public "nba" tp st =
                fetchStandings {| API_CONFIG := config_public;
                                  fetch := fetch nhl_env; now := now env_public |} "nba" tp st.
Proof.
  split; [reflexivity|]. split; [reflexivity|].
  intros tp st. symmetry.
  destruct (unconfigured_makes_no_request env_public
              {| API_CONFIG := config_public; fetch := fetch nhl_env; now := now env_public |}
              10 "nba" eq_refl eq_refl) as [_ H].
  destruct (H eq_refl) as [HS _]. apply HS.
Defined.

(** ** The mock-only API module *)

Lemma below_0_05_twentieth u : ApiMock.below_0_05 u = true <-> 20 * u < 2 ^ 53.
Proof.
  unfold ApiMock.below_0_05. change (2 ^ 53) with 9007199254740992.
  destruct (Z.ltb_spec (u * 8) 3602879701896397); split; intros; (lia || discriminate).
Qed.

(** X13: The mock-only [fetchStandings] and [fetchRecentGames] wait between
    300 and 800 milliseconds and then draw a random number: they reject,
    with a network error, exactly when that draw is below one in twenty,
    and otherwise [fetchStandings] fulfils with a standing for each team
    of the roster. *)
Theorem mock_only_failure_rate env fuel l tp st :
  let u := draw tp (advance st) in
  (20 * u < 2 ^ 53 ->
     (exists st',
        ApiMock.fetchStandings env l tp st =
          Throw (Error "Network error: Unable to fetch standings") st' /\
        300 <= elapsed st' - elapsed st <= 800) /\
     (exists st',
        ApiMock.fetchRecentGames env fuel l tp st =
          Throw (Error "Network error: Unable to fetch games") st' /\
        300 <= elapsed st' - elapsed st <= 800)) /\
  (2 ^ 53 <= 20 * u ->
     (exists r st',
        ApiMock.fetchStandings env l tp st = Normal r st' /\
        success r = true /\ league r = toUpperCase l /\
        length (data r) = length (roster l) /\
        300 <= elapsed st' - elapsed st <= 800) /\
     (forall e st', ApiMock.fetchRecentGames env fuel l tp st <> Throw e st')).
Proof.
  intros u.
  pose proof (getRandomInt_range 300 800 tp st ltac:(lia)) as Hr.
  assert (HS : ApiMock.fetchStandings env l tp st =
               if ApiMock.below_0_05 u
               then Throw (Error "Network error: Unable to fetch standings")
                      (advance (waited (floor_scaled (draw tp st) (800 - 300 + 1) + 300)
                                  (advance st)))
               else try_catch
                      (do standings <- generateMockTeams (roster l);
                       do ts <- Date_now env;
                       ret {| success := true; data := standings; league := toUpperCase l;
                              source := None; timestamp := ts |})
                      (fun error => throw error) tp
                      (advance (waited (floor_scaled (draw tp st) (800 - 300 + 1) + 300)
                                  (advance st)))).
  { unfold ApiMock.fetchStandings, try_catch.
    rewrite (bind_run _ _ _ _ _ _ (simulateNetworkDelay_run _ _ _ _)).
    unfold bind at 1. unfold Math_random at 1. cbn [cursor elapsed waited advance].
    change (tp (S (cursor st)) mod 2 ^ 53) with u.
    destruct (ApiMock.below_0_05 u); reflexivity. }
  assert (HG : ApiMock.fetchRecentGames env fuel l tp st =
               if ApiMock.below_0_05 u
               then Throw (Error "Network error: Unable to fetch games")
                      (advance (waited (floor_scaled (draw tp st) (800 - 300 + 1) + 300)
                                  (advance st)))
               else try_catch
                      (do games <- generateMockGames env fuel (roster l) 6;
                       do ts <- Date_now env;
                       ret {| success := true; data := games; league := toUpperCase l;
                              source := None; timestamp := ts |})
                      (fun error => throw error) tp
                      (advance (waited (floor_scaled (draw tp st) (800 - 300 + 1) + 300)
                                  (advance st)))).
  { unfold ApiMock.fetchRecentGames, try_catch.
    rewrite (bind_run _ _ _ _ _ _ (simulateNetworkDelay_run _ _ _ _)).
    unfold bind at 1. unfold Math_random at 1. cbn [cursor elapsed waited advance].
    change (tp (S (cursor st)) mod 2 ^ 53) with u.
    destruct (ApiMock.below_0_05 u); reflexivity. }
  rewrite HS, HG. clear HS HG.
  split; intros Hu.
  - apply below_0_05_twentieth in Hu. rewrite Hu.
    split; eexists; (split; [reflexivity|]); cbn [elapsed waited advance]; lia.
  - assert (Hb : ApiMock.below_0_05 u = false).
    { destruct (ApiMock.below_0_05 u) eqn:E; [|reflexivity].
      apply below_0_05_twentieth in E. lia. }
    rewrite Hb. unfold try_catch. split.
    + match goal with |- context [bind (generateMockTeams ?t) _ ?tp ?s] =>
        destruct (generateMockTeams_run t tp s) as (out & st' & Hrun & Hall & Hel)
      end.
      rewrite (bind_run _ _ _ _ _ _ Hrun). unfold bind, Date_now, ret.
      eexists _, _. split; [reflexivity|]. cbn [success league data].
      split; [reflexivity|]. split; [reflexivity|].
      split; [symmetry; exact (Forall2_length _ _ _ Hall)|].
      rewrite Hel. cbn [elapsed waited advance]. lia.
    + intros e st'. unfold bind at 1.
      match goal with |- context [generateMockGames ?e ?f ?t ?c ?tp ?s] =>
        pose proof (games_loop_no_throw e f t c 0 ∅ [] tp s) as Hn;
        unfold generateMockGames;
        destruct (games_loop e f t c 0 ∅ [] tp s) as [gs s1|e1 s1|s1]
      end.
      * unfold bind, Date_now, ret. discriminate.
      * exfalso. now apply (Hn e1 s1).
      * discriminate.
Qed.

Lemma mock_only_failure_rate_witness :
  is_throw (ApiMock.fetchStandings env_public "nba" zero_tape start) /\
  exists r st',
    ApiMock.fetchStandings env_public "nba" sample_tape start = Normal r st' /\
    length (data r) = 12%nat.
Proof.
  split.
  - destruct (mock_only_failure_rate env_public 10 "nba" zero_tape start) as [H _].
    destruct (H ltac:(vm_compute; reflexivity)) as [(st' & -> & _) _]. exact I.
  - destruct (mock_only_failure_rate env_public 10 "nba" sample_tape start) as [_ H].
    destruct (H ltac:(vm_compute; discriminate)) as [(r & st' & Hrun & _ & _ & Hlen & _) _].
    exists r, st'. split; [exact Hrun | exact Hlen].
Defined.

(** ** The controller and the view *)

Lemma resume_caller_view k p :
  Ui.loading_hidden (App.ui (App.resume_caller k p)) = Ui.loading_hidden (App.ui p) /\
  Ui.error_hidden (App.ui (App.resume_caller k p)) = Ui.error_hidden (App.ui p) /\
  Ui.error_text (App.ui (App.resume_caller k p)) = Ui.error_text (App.ui p) /\
  Ui.opacity (App.ui (App.resume_caller k p)) = Ui.opacity (App.ui p) /\
  Ui.rendered (App.ui (App.resume_caller k p)) = Ui.rendered (App.ui p).
Proof. destruct k; repeat split; reflexivity. Qed.

Lemma resume_caller_app k p :
  App.currentLeague (App.app (App.resume_caller k p)) = App.currentLeague (App.app p) /\
  App.allData (App.app (App.resume_caller k p)) = App.allData (App.app p) /\
  App.isLoading (App.app (App.resume_caller k p)) = App.isLoading (App.app p).
Proof. destruct k; repeat split; reflexivity. Qed.

Lemma resume_caller_shows_loading k p :
  shows_loading p -> shows_loading (App.resume_caller k p).
Proof.
  unfold shows_loading, loading_view. intros H.
  destruct (resume_caller_view k p) as (-> & -> & _ & -> & _).
  destruct (resume_caller_app k p) as (_ & _ & ->). exact H.
Qed.

Lemma loadData_shows_loading k p :
  shows_loading p -> shows_loading (App.loadData k p).
Proof.
  intros H. unfold App.loadData. destruct (App.isLoading (App.app p)) eqn:E.
  - now apply resume_caller_shows_loading.
  - intros _. repeat split.
Qed.

Lemma step_shows_loading i p : shows_loading p -> shows_loading (App.step i p).
Proof.
  intros H. destruct i; cbn [App.step].
  - now apply loadData_shows_loading.
  - destruct (String.eqb _ _); [assumption|]. apply loadData_shows_loading. exact H.
  - apply loadData_shows_loading. exact H.
  - apply loadData_shows_loading. unfold shows_loading, loading_view in *. cbn.
    intros E. destruct (H E) as (H1 & _ & H3). auto.
  - destruct (App.autoRefreshInterval (App.app p)); [now apply loadData_shows_loading | assumption].
  - now apply loadData_shows_loading.
  - destruct (App.in_flight p) as [|[l k] rest]; [assumption|].
    pose proof (settle_clears r (App.app p) (App.ui p)) as Hc.
    destruct (App.loadData_settle r (App.app p) (App.ui p)) as [s v]. cbn in Hc.
    apply resume_caller_shows_loading. unfold shows_loading. cbn. congruence.
Qed.

Lemma reachable_shows_loading p : reachable p -> shows_loading p.
Proof.
  induction 1; [intros E; discriminate | now apply step_shows_loading].
Qed.

(** X14: While a load is in flight the page shows the loading marker, hides
    the error box and dims the content; when the load settles, however
    it ends, the marker is hidden and the content is shown in full. *)
Theorem loading_is_shown p :
  reachable p ->
  (App.isLoading (App.app p) = true -> loading_view (App.ui p)) /\
  (App.in_flight p <> [] -> forall r,
     Ui.loading_hidden (App.ui (App.step (App.Settled r) p)) = true /\
     Ui.opacity (App.ui (App.step (App.Settled r) p)) = "1").
Proof.
  intros Hp. split; [now apply reachable_shows_loading|].
  intros Hin r. cbn [App.step].
  destruct (App.in_flight p) as [|[l k] rest]; [congruence|].
  destruct (App.loadData_settle r (App.app p) (App.ui p)) as [s v] eqn:E.
  destruct (resume_caller_view k
              {| App.app := s; App.ui := v; App.in_flight := rest;
                 App.next_timer := App.next_timer p |}) as (-> & _ & _ & -> & _).
  cbn. unfold App.loadData_settle in E.
  destruct r as [d [e|]|e]; injection E as <- <-; split; reflexivity.
Qed.

Lemma loading_is_shown_witness :
  loading_view (App.ui (App.step App.Init App.initial)) /\
  forall r, Ui.loading_hidden
              (App.ui (App.step (App.Settled r) (App.step App.Init App.initial))) = true.
Proof.
  assert (Hr : reachable (App.step App.Init App.initial))
    by (apply reachable_step, reachable_initial).
  destruct (loading_is_shown _ Hr) as [H1 H2].
  split; [apply H1; reflexivity|].
  intros r. apply H2. discriminate.
Defined.

Lemma resume_caller_interrupted k p :
  Ui.interrupted (App.ui (App.resume_caller k p)) = Ui.interrupted (App.ui p).
Proof. destruct k; reflexivity. Qed.

(** X15: How a load ends.  Data that arrive are stored and rendered in
    full, and no error is shown.  When the fetch rejects, the data
    stored and what the page renders stay as they are and the error box
    shows "Failed to load data: " with the message.  When the data
    arrive but [updateUI] throws, they are stored all the same and the
    error is shown; the page is then left between two renderings: what
    [updateUI] wrote of the new data before it threw stands in place of
    the last complete rendering. *)
Theorem load_outcome p l k :
  reachable p -> App.in_flight p = [(l, k)] ->
  (forall d, let p' := App.step (App.Settled (App.Loaded d None)) p in
     App.allData (App.app p') = Some d /\
     Ui.rendered (App.ui p') = Some d /\ Ui.interrupted (App.ui p') = None /\
     Ui.error_hidden (App.ui p') = true) /\
  (forall e, let p' := App.step (App.Settled (App.Failed e)) p in
     App.allData (App.app p') = App.allData (App.app p) /\
     Ui.rendered (App.ui p') = Ui.rendered (App.ui p) /\
     Ui.interrupted (App.ui p') = Ui.interrupted (App.ui p) /\
     Ui.error_hidden (App.ui p') = false /\
     Ui.error_text (App.ui p') = "Failed to load data: " +:+ Js.message e) /\
  (forall d e, let p' := App.step (App.Settled (App.Loaded d (Some e))) p in
     App.allData (App.app p') = Some d /\
     Ui.interrupted (App.ui p') = Some d /\
     Ui.rendered (App.ui p') = Ui.rendered (App.ui p) /\
     Ui.error_hidden (App.ui p') = false /\
     Ui.error_text (App.ui p') = "Failed to load data: " +:+ Js.message e).
Proof.
  intros Hp Hin.
  assert (Hload : App.isLoading (App.app p) = true).
  { apply reachable_guarded in Hp. destruct Hp as [[H _]|[_ H]]; [exact H | congruence]. }
  destruct (reachable_shows_loading p Hp Hload) as (_ & Herr & _).
  split; [|split].
  - intros d p'. subst p'. cbn [App.step]. rewrite Hin. cbn [App.loadData_settle].
    rewrite resume_caller_interrupted.
    match goal with |- context [App.resume_caller k ?q] =>
      destruct (resume_caller_view k q) as (_ & -> & _ & _ & ->);
      destruct (resume_caller_app k q) as (_ & -> & _)
    end. cbn. auto.
  - intros e p'. subst p'. cbn [App.step]. rewrite Hin. cbn [App.loadData_settle].
    rewrite resume_caller_interrupted.
    match goal with |- context [App.resume_caller k ?q] =>
      destruct (resume_caller_view k q) as (_ & -> & -> & _ & ->);
      destruct (resume_caller_app k q) as (_ & -> & _)
    end. cbn. auto.
  - intros d e p'. subst p'. cbn [App.step]. rewrite Hin. cbn [App.loadData_settle].
    rewrite resume_caller_interrupted.
    match goal with |- context [App.resume_caller k ?q] =>
      destruct (resume_caller_view k q) as (_ & -> & -> & _ & ->);
      destruct (resume_caller_app k q) as (_ & -> & _)
    end. cbn. auto.
Qed.

Lemma load_outcome_witness :
  Ui.error_text (App.ui (App.step (App.Settled (App.Failed (Error "Failed to fetch")))
                                  (App.step App.Init App.initial))) =
  "Failed to load data: Failed to fetch" /\
  Ui.interrupted
    (App.ui (App.step (App.Settled (App.Loaded loaded_data (Some (Error "Chart is not defined"))))
                      (App.step App.Init App.initial))) = Some loaded_data.
Proof.
  assert (Hr : reachable (App.step App.Init App.initial))
    by (apply reachable_step, reachable_initial).
  destruct (load_outcome _ "nba" App.AfterInit Hr eq_refl) as (_ & H & H').
  split; [apply (H (Error "Failed to fetch"))|].
  apply (H' loaded_data (Error "Chart is not defined")).
Defined.

(** X16: [handleRefresh] announces success whatever happened: while a load is
    in flight it starts nothing and shows both of its notifications at
    once; and when its own fetch rejects, the success notification comes
    together with the error box. *)
Theorem refresh_announces_success p :
  reachable p ->
  (App.isLoading (App.app p) = true ->
     Ui.notifications (App.ui (App.step App.Refresh p)) =
       (Ui.notifications (App.ui p) ++ refresh_notes)%list /\
     App.in_flight (App.step App.Refresh p) = App.in_flight p) /\
  (App.isLoading (App.app p) = false -> forall e,
     let p' := App.step (App.Settled (App.Failed e)) (App.step App.Refresh p) in
     Ui.notifications (App.ui p') = (Ui.notifications (App.ui p) ++ refresh_notes)%list /\
     Ui.error_hidden (App.ui p') = false /\
     App.allData (App.app p') = App.allData (App.app p)).
Proof.
  intros Hp. split.
  - intros H. cbn [App.step]. unfold App.loadData. cbn. rewrite H. cbn.
    rewrite <- app_assoc. split; reflexivity.
  - intros H e p'. subst p'.
    apply reachable_guarded in Hp. destruct Hp as [[H' _]|[_ Hin]]; [congruence|].
    cbn [App.step]. unfold App.loadData. cbn. rewrite H, Hin. cbn.
    rewrite <- app_assoc. repeat split; reflexivity.
Qed.

Lemma refresh_announces_success_witness :
  Ui.notifications (App.ui (App.step App.Refresh (App.step App.Init App.initial))) =
    refresh_notes /\
  App.in_flight (App.step App.Refresh (App.step App.Init App.initial)) =
    [("nba", App.AfterInit)].
Proof.
  assert (Hr : reachable (App.step App.Init App.initial))
    by (apply reachable_step, reachable_initial).
  destruct (refresh_announces_success _ Hr) as [H _].
  apply H. reflexivity.
Defined.

(** X17: A league chosen while a load is in flight is not fetched: the
    selection changes, the fetch in flight stays the only one, and when
    it settles nothing is in flight, so that the page shows what that
    fetch brought under the name of the new league. *)
Theorem league_change_while_loading p l0 k newLeague :
  reachable p -> App.in_flight p = [(l0, k)] ->
  newLeague <> App.currentLeague (App.app p) ->
  let p' := App.step (App.LeagueChange newLeague) p in
  App.currentLeague (App.app p') = newLeague /\
  App.in_flight p' = [(l0, k)] /\
  forall r,
    App.in_flight (App.step (App.Settled r) p') = [] /\
    App.isLoading (App.app (App.step (App.Settled r) p')) = false /\
    App.currentLeague (App.app (App.step (App.Settled r) p')) = newLeague /\
    (forall d, r = App.Loaded d None ->
       Ui.rendered (App.ui (App.step (App.Settled r) p')) = Some d).
Proof.
  intros Hp Hin Hne p'.
  assert (Hload : App.isLoading (App.app p) = true).
  { apply reachable_guarded in Hp. destruct Hp as [[H _]|[_ H]]; [exact H | congruence]. }
  assert (Hp' : p' = {| App.app := App.set_league newLeague (App.app p);
                        App.ui := Ui.showNotification
                           ("Switching to " +:+ toUpperCase newLeague +:+ "...") "info"
                           (App.ui p);
                        App.in_flight := App.in_flight p;
                        App.next_timer := App.next_timer p |}).
  { subst p'. cbn [App.step].
    destruct (String.eqb_spec newLeague (App.currentLeague (App.app p))); [contradiction|].
    unfold App.loadData. cbn. now rewrite Hload. }
  rewrite Hp'. cbn [App.app App.in_flight App.set_league App.currentLeague].
  split; [reflexivity|]. split; [exact Hin|].
  intros r. cbn [App.step App.in_flight App.app App.ui]. rewrite Hin.
  destruct (App.loadData_settle r _ _) as [s v] eqn:E.
  match goal with |- context [App.resume_caller k ?q] =>
    rewrite (resume_caller_in_flight k q), (resume_caller_flag k q);
    destruct (resume_caller_view k q) as (_ & _ & _ & _ & ->);
    destruct (resume_caller_app k q) as (-> & _ & _)
  end. cbn.
  unfold App.loadData_settle in E.
  destruct r as [d [e|]|e]; injection E as <- <-; cbn;
    repeat split; try reflexivity; intros d' [=]; subst; reflexivity.
Qed.

Lemma league_change_while_loading_witness :
  let p := App.step (App.LeagueChange "nfl") (App.step App.Init App.initial) in
  App.currentLeague (App.app p) = "nfl" /\ App.in_flight p = [("nba", App.AfterInit)].
Proof.
  assert (Hr : reachable (App.step App.Init App.initial))
    by (apply reachable_step, reachable_initial).
  destruct (league_change_while_loading _ "nba" App.AfterInit "nfl" Hr eq_refl) as (H1 & H2 & _).
  - discriminate.
  - split; [exact H1 | exact H2].
Defined.

(** ** The order of a sorted array *)

Lemma StronglySorted_lookup {A} (R : A -> A -> Prop) (l : list A) :
  StronglySorted R l ->
  forall i j a b, (i < j)%nat -> l !! i = Some a -> l !! j = Some b -> R a b.
Proof.
  induction 1 as [|x l Hs IH Hx]; intros i j a b Hij Hi Hj; [destruct i; discriminate|].
  destruct j as [|j]; [lia|]. cbn in Hj.
  destruct i as [|i]; cbn in Hi.
  - injection Hi as <-. rewrite Forall_forall in Hx. apply Hx.
    now apply list_elem_of_lookup_2 in Hj.
  - apply (IH i j); auto; lia.
Qed.

(** X18: [sortByProperty] returns the rows it was given, each as often as it
    was given; and when their values at [property] are pairwise distinct
    and mutually comparable, it returns them in order: of two rows of
    the result the later one has the greater value when [ascending] is
    true, and the smaller one when it is false. *)
Theorem sortByProperty_sorts {V} (gt : V -> V -> bool)
    (array : list (gmap string V)) (property : string) (asc : bool) :
  sortByProperty gt array property asc ≡ₚ array /\
  (pairwise_distinct array property -> comparable gt array property ->
   forall i j a b, (i < j)%nat ->
     sortByProperty gt array property asc !! i = Some a ->
     sortByProperty gt array property asc !! j = Some b ->
     if asc
     then value_gt gt (b !! property) (a !! property) = true
     else value_gt gt (a !! property) (b !! property) = true).
Proof.
  change (sortByProperty gt array property asc)
    with (Array_sort (by_property gt property asc) array).
  split; [apply Array_sort_perm|].
  intros Hd Hc i j a b Hij Hi Hj.
  assert (Hs : ascending (by_property gt property asc)
                 (Array_sort (by_property gt property asc) array)).
  { apply Array_sort_ascending.
    destruct asc; [now apply consistent_asc | now apply consistent_desc]. }
  pose proof (StronglySorted_lookup _ _ Hs i j a b Hij Hi Hj) as H. cbn beta in H.
  destruct asc; [now apply after_asc in H | now apply after_desc in H].
Qed.

Lemma sortByProperty_sorts_witness :
  sortByProperty Z.gtb numbered_rows "k" false ≡ₚ numbered_rows /\
  (forall a b,
     sortByProperty Z.gtb numbered_rows "k" false !! 0%nat = Some a ->
     sortByProperty Z.gtb numbered_rows "k" false !! 2%nat = Some b ->
     value_gt Z.gtb (a !! "k") (b !! "k") = true).
Proof.
  destruct (sortByProperty_sorts Z.gtb numbered_rows "k" false) as [Hp Hs].
  split; [exact Hp|].
  intros a b Ha Hb.
  apply (Hs numbered_rows_distinct
            (comparable_Z numbered_rows "k"
               ltac:(repeat constructor; vm_compute; eauto))
            0%nat 2%nat a b ltac:(lia) Ha Hb).
Defined.

(** ** Strings *)

Lemma length_append_string (s t : string) :
  String.length (s +:+ t) = (String.length s + String.length t)%nat.
Proof. induction s as [|c s IH]; simpl; [reflexivity | now rewrite IH]. Qed.

Lemma length_substring0 n (s : string) :
  String.length (substring 0 n s) = Nat.min n (String.length s).
Proof.
  revert s. induction n as [|n IH]; intros [|c s]; simpl; try reflexivity.
  now rewrite IH.
Qed.

Lemma substring0_all n (s : string) :
  (String.length s <= n)%nat -> substring 0 n s = s.
Proof.
  revert s. induction n as [|n IH]; intros [|c s]; simpl; intros H; try reflexivity; try lia.
  f_equal. apply IH. lia.
Qed.

Lemma length_slice0 str finish :
  Z.of_nat (String.length (Text.slice0 str finish)) =
  (let len := Z.of_nat (String.length str) in
   if finish <? 0 then Z.max (len + finish) 0 else Z.min finish len).
Proof.
  unfold Text.slice0. rewrite length_substring0. cbv zeta.
  destruct (Z.ltb_spec finish 0); lia.
Qed.

(** X19: [truncateString(str, maxLength)] with [maxLength] at least 3 never
    returns more than [maxLength] characters: a string that fits comes
    back as it is, a longer one as its first [maxLength - 3] characters
    followed by "...", which makes [maxLength] characters; and truncating
    the result again changes nothing. *)
Theorem truncateString_fits str maxLength :
  3 <= maxLength ->
  (Z.of_nat (String.length str) <= maxLength -> Text.truncateString str maxLength = str) /\
  (maxLength < Z.of_nat (String.length str) ->
     Text.truncateString str maxLength =
       substring 0 (Z.to_nat (maxLength - 3)) str +:+ "..." /\
     Z.of_nat (String.length (Text.truncateString str maxLength)) = maxLength) /\
  Z.of_nat (String.length (Text.truncateString str maxLength)) <= maxLength /\
  Text.truncateString (Text.truncateString str maxLength) maxLength =
    Text.truncateString str maxLength.
Proof.
  intros Hm.
  assert (Hlong : maxLength < Z.of_nat (String.length str) ->
     Text.truncateString str maxLength =
       substring 0 (Z.to_nat (maxLength - 3)) str +:+ "..." /\
     Z.of_nat (String.length (Text.truncateString str maxLength)) = maxLength).
  { intros Hl. unfold Text.truncateString.
    destruct (Z.leb_spec (Z.of_nat (String.length str)) maxLength); [lia|].
    assert (Hs : Text.slice0 str (maxLength - 3) = substring 0 (Z.to_nat (maxLength - 3)) str).
    { unfold Text.slice0. destruct (Z.ltb_spec (maxLength - 3) 0); [lia|].
      f_equal. lia. }
    rewrite Hs. split; [reflexivity|].
    rewrite length_append_string, length_substring0. simpl String.length. lia. }
  assert (Hshort : Z.of_nat (String.length str) <= maxLength ->
                   Text.truncateString str maxLength = str).
  { intros Hl. unfold Text.truncateString.
    destruct (Z.leb_spec (Z.of_nat (String.length str)) maxLength); [reflexivity | lia]. }
  split; [exact Hshort|]. split; [exact Hlong|].
  assert (Hle : Z.of_nat (String.length (Text.truncateString str maxLength)) <= maxLength).
  { destruct (Z.le_gt_cases (Z.of_nat (String.length str)) maxLength) as [Hl|Hl].
    - now rewrite Hshort.
    - destruct (Hlong Hl) as [_ ->]. lia. }
  split; [exact Hle|].
  unfold Text.truncateString at 1.
  destruct (Z.leb_spec (Z.of_nat (String.length (Text.truncateString str maxLength))) maxLength);
    [reflexivity | lia].
Qed.

Lemma truncateString_fits_witness :
  Text.truncateString "Golden State Warriors" 10 = "Golden ..." /\
  Text.truncateString "Lakers" 10 = "Lakers".
Proof.
  destruct (truncateString_fits "Golden State Warriors" 10) as (_ & H & _); [lia|].
  destruct (truncateString_fits "Lakers" 10) as (H' & _); [lia|].
  split.
  - destruct H as [H _]; [vm_compute; reflexivity|]. exact H.
  - apply H'. vm_compute. discriminate.
Defined.

(** X20: With [maxLength] below 3 the result is longer than [maxLength]: the
    end of the slice is negative and counts from the end of the string,
    so that a string of three characters or more loses [3 - maxLength]
    characters and gains three dots, and a shorter one becomes "...". *)
Theorem truncateString_short_limit str maxLength :
  maxLength < 3 -> maxLength < Z.of_nat (String.length str) ->
  Z.of_nat (String.length (Text.truncateString str maxLength)) =
    Z.max (Z.of_nat (String.length str) + maxLength - 3) 0 + 3 /\
  maxLength < Z.of_nat (String.length (Text.truncateString str maxLength)) /\
  (0 <= maxLength ->
     Z.of_nat (String.length str) <= Z.of_nat (String.length (Text.truncateString str maxLength))) /\
  (Z.of_nat (String.length str) + maxLength <= 3 -> Text.truncateString str maxLength = "...").
Proof.
  intros Hm Hl. unfold Text.truncateString.
  destruct (Z.leb_spec (Z.of_nat (String.length str)) maxLength); [lia|].
  pose proof (length_slice0 str (maxLength - 3)) as Hs. cbv zeta in Hs.
  destruct (Z.ltb_spec (maxLength - 3) 0); [|lia].
  rewrite length_append_string. change (String.length "...") with 3%nat.
  split; [lia|]. split; [lia|]. split; [lia|].
  intros Hsmall. assert (Hzero : String.length (Text.slice0 str (maxLength - 3)) = 0%nat) by lia.
  destruct (Text.slice0 str (maxLength - 3)); [reflexivity | discriminate].
Qed.

Lemma truncateString_short_limit_witness :
  Text.truncateString "abcdef" 2 = "abcde..." /\
  2 < Z.of_nat (String.length (Text.truncateString "abcdef" 2)).
Proof.
  split; [reflexivity|].
  destruct (truncateString_short_limit "abcdef" 2) as (_ & H & _); [lia | vm_compute; reflexivity|].
  exact H.
Defined.

(** ** Searching *)







Lemma trim_start_blank s : blank s = true -> trim_start s = "".
Proof.
  induction s as [|c s IH]; simpl; [reflexivity|].
  intros H. apply andb_prop in H. destruct H as [-> H]. now apply IH.
Qed.

Lemma trim_end_blank s : blank s = true -> Text.trim_end s = "".
Proof.
  induction s as [|c s IH]; simpl; [reflexivity|].
  intros H. apply andb_prop in H. destruct H as [Hc H]. now rewrite (IH H), Hc.
Qed.

Lemma trim_end_empty s : Text.trim_end s = "" -> blank s = true.
Proof.
  induction s as [|c s IH]; simpl; [reflexivity|].
  destruct (Text.trim_end s); [|discriminate].
  destruct (is_space c); [intros _; now rewrite IH | discriminate].
Qed.

Lemma trim_start_head s :
  trim_start s = "" \/ exists c t, trim_start s = String c t /\ is_space c = false.
Proof.
  induction s as [|c s IH]; simpl; [now left|].
  destruct (is_space c) eqn:E; [exact IH|]. right. eauto.
Qed.

Lemma trim_start_empty s : trim_start s = "" -> blank s = true.
Proof.
  induction s as [|c s IH]; simpl; [reflexivity|].
  destruct (is_space c); [exact IH | discriminate].
Qed.

(** [trim] gives the empty string exactly on white space. *)
Lemma trim_empty s : Text.trim s = "" <-> blank s = true.
Proof.
  unfold Text.trim. split.
  - intros H. apply trim_end_empty in H.
    destruct (trim_start_head s) as [E|(c & t & E & Hc)].
    + now apply trim_start_empty.
    + rewrite E in H. simpl in H. now rewrite Hc in H.
  - intros H. now rewrite (trim_start_blank s H).
Qed.

Lemma lower_ascii_space c : is_space (lower_ascii c) = is_space c.
Proof. destruct c as [[] [] [] [] [] [] [] []]; reflexivity. Qed.

Lemma lower_upper_ascii c : lower_ascii (upper_ascii c) = lower_ascii c.
Proof. destruct c as [[] [] [] [] [] [] [] []]; reflexivity. Qed.

Lemma toLowerCase_blank s : blank (toLowerCase s) = blank s.
Proof.
  unfold toLowerCase. induction s as [|c s IH]; simpl; [reflexivity|].
  now rewrite lower_ascii_space, IH.
Qed.

Lemma toLowerCase_toUpperCase s : toLowerCase (toUpperCase s) = toLowerCase s.
Proof.
  unfold toLowerCase, toUpperCase. induction s as [|c s IH]; simpl; [reflexivity|].
  now rewrite lower_upper_ascii, IH.
Qed.

Lemma toLowerCase_append s t : toLowerCase (s +:+ t) = toLowerCase s +:+ toLowerCase t.
Proof.
  unfold toLowerCase. induction s as [|c s IH]; simpl; [reflexivity | now rewrite IH].
Qed.

Lemma trim_start_append_blank pre s : blank pre = true -> trim_start (pre +:+ s) = trim_start s.
Proof.
  induction pre as [|c pre IH]; simpl; [reflexivity|].
  intros H. apply andb_prop in H. destruct H as [-> H]. now apply IH.
Qed.

Lemma trim_end_append_blank s post : blank post = true -> Text.trim_end (s +:+ post) = Text.trim_end s.
Proof.
  intros H. induction s as [|c s IH]; simpl.
  - now apply trim_end_blank.
  - now rewrite IH.
Qed.

Lemma trim_start_append s post :
  blank post = true ->
  Text.trim_end (trim_start (s +:+ post)) = Text.trim_end (trim_start s).
Proof.
  intros H. induction s as [|c s IH].
  - change ("" +:+ post) with post. rewrite (trim_start_blank post H). reflexivity.
  - change (String c s +:+ post) with (String c (s +:+ post)). cbn [trim_start].
    destruct (is_space c); [exact IH|].
    change (String c (s +:+ post)) with (String c s +:+ post).
    now apply trim_end_append_blank.
Qed.

Lemma trim_padding pre s post :
  blank pre = true -> blank post = true -> Text.trim (pre +:+ s +:+ post) = Text.trim s.
Proof.
  intros H1 H2. unfold Text.trim.
  rewrite (trim_start_append_blank pre _ H1). now apply trim_start_append.
Qed.

Lemma filter_ext_bool {A} (f g : A -> bool) (l : list A) :
  (forall x, f x = g x) -> List.filter f l = List.filter g l.
Proof.
  intros H. induction l as [|x l IH]; simpl; [reflexivity|]. now rewrite H, IH.
Qed.

(** X22: A search term of white space only, or none, filters nothing out. *)
Theorem filterBySearch_blank {T} (text : T -> string -> string) (array : list T)
    (searchTerm : string) (properties : list string) :
  blank searchTerm = true ->
  Text.filterBySearch text array searchTerm properties = array.
Proof.
  intros H. unfold Text.filterBySearch.
  assert (E : Text.trim (toLowerCase searchTerm) = "").
  { apply trim_empty. now rewrite toLowerCase_blank. }
  now rewrite E.
Qed.

Lemma filterBySearch_blank_witness :
  Text.filterBySearch (fun (name _ : string) => name) NBA_TEAMS "   " ["name"] = NBA_TEAMS.
Proof. apply filterBySearch_blank. reflexivity. Defined.

(** X23: The search ignores the case of the ASCII letters, in the term and in
    the items, and white space around the term. *)
Theorem filterBySearch_ignores_case {T} (text : T -> string -> string) (array : list T)
    (searchTerm : string) (properties : list string) :
  Text.filterBySearch text array (toUpperCase searchTerm) properties =
    Text.filterBySearch text array searchTerm properties /\
  Text.filterBySearch (fun item prop => toUpperCase (text item prop)) array searchTerm properties =
    Text.filterBySearch text array searchTerm properties /\
  (forall pre post, blank pre = true -> blank post = true ->
     Text.filterBySearch text array (pre +:+ searchTerm +:+ post) properties =
       Text.filterBySearch text array searchTerm properties).
Proof.
  split; [|split].
  - unfold Text.filterBySearch. now rewrite toLowerCase_toUpperCase.
  - unfold Text.filterBySearch.
    destruct (String.eqb _ _); [reflexivity|].
    apply filter_ext_bool. intros item.
    induction properties as [|prop ps IH]; simpl; [reflexivity|].
    now rewrite toLowerCase_toUpperCase, IH.
  - intros pre post H1 H2. unfold Text.filterBySearch.
    rewrite !toLowerCase_append.
    rewrite trim_padding by (now rewrite toLowerCase_blank). reflexivity.
Qed.

Lemma filterBySearch_ignores_case_witness :
  Text.filterBySearch (fun (name _ : string) => name) NBA_TEAMS "  NETS " ["name"] = ["Nets"].
Proof.
  destruct (filterBySearch_ignores_case (fun (name _ : string) => name)
              NBA_TEAMS "NETS" ["name"]) as (_ & _ & H).
  change "  NETS " with ("  " +:+ "NETS" +:+ " ").
  rewrite (H "  " " " eq_refl eq_refl).
  destruct (filterBySearch_ignores_case (fun (name _ : string) => name)
              NBA_TEAMS "nets" ["name"]) as (H' & _).
  change "NETS" with (toUpperCase "nets"). rewrite H'. reflexivity.
Defined.

(** X24: An item without one of the listed properties is found by every term
    that occurs in "undefined": the missing value is made a string before
    it is searched. *)
Theorem filterBySearch_missing_property (array : list (gmap string string))
    (searchTerm : string) (properties : list string) (o : gmap string string) (prop : string) :
  In o array -> In prop properties -> o !! prop = None ->
  blank searchTerm = false ->
  Text.includes "undefined" (Text.trim (toLowerCase searchTerm)) = true ->
  In o (Text.filterBySearch Text.object_text array searchTerm properties).
Proof.
  intros Ho Hp Hnone Hb Hinc. unfold Text.filterBySearch.
  destruct (String.eqb_spec (Text.trim (toLowerCase searchTerm)) "") as [E|NE].
  - apply trim_empty in E. rewrite toLowerCase_blank in E. congruence.
  - apply filter_In. split; [exact Ho|]. apply existsb_exists.
    exists prop. split; [exact Hp|].
    unfold Text.object_text. rewrite Hnone. exact Hinc.
Qed.

Lemma filterBySearch_missing_property_witness :
  In (∅ : gmap string string)
     (Text.filterBySearch Text.object_text named_rows "Undef" ["name"]) /\
  length (Text.filterBySearch Text.object_text named_rows "Undef" ["name"]) = 1%nat.
Proof.
  split; [|reflexivity].
  apply (filterBySearch_missing_property named_rows "Undef" ["name"] ∅ "name").
  - right. left. reflexivity.
  - left. reflexivity.
  - reflexivity.
  - reflexivity.
  - reflexivity.
Defined.

(** ** Searching the loaded data *)













(** X27: [handleSearch] with a blank text renders all the loaded data again
    and shows no notification; and before any data are loaded it does
    nothing at all, whatever the text. *)
Theorem handleSearch_blank value s e :
  (App.allData s = None ->
     Search.handleSearch value s e =
       {| Search.updates := []; Search.notes := []; Search.rejected := None |}) /\
  (forall d, App.allData s = Some d -> blank value = true ->
     Search.handleSearch value s e =
       {| Search.updates := [Search.Everything d]; Search.notes := [];
          Search.rejected := e |}).
Proof.
  unfold Search.handleSearch. split.
  - intros ->. reflexivity.
  - intros d -> Hb. apply trim_empty in Hb. now rewrite Hb.
Qed.

Lemma handleSearch_blank_witness :
  Search.updates (Search.handleSearch "   " loaded_state None) =
    [Search.Everything loaded_data] /\
  Search.notes (Search.handleSearch "lakers" (App.app App.initial) None) = [].
Proof.
  destruct (handleSearch_blank "   " loaded_state None) as [_ H].
  rewrite (H loaded_data eq_refl eq_refl).
  destruct (handleSearch_blank "lakers" (App.app App.initial) None) as [H0 _].
  rewrite (H0 eq_refl). split; reflexivity.
Defined.

(** ** Decimal numerals *)

Lemma append_assoc_string (a b c : string) : (a +:+ b) +:+ c = a +:+ (b +:+ c).
Proof.
  induction a as [|x a IH]; [reflexivity|].
  change ((String x a +:+ b) +:+ c) with (String x ((a +:+ b) +:+ c)).
  change (String x a +:+ (b +:+ c)) with (String x (a +:+ (b +:+ c))).
  now rewrite IH.
Qed.

Lemma string_of_revapp u acc :
  NilEmpty.string_of_uint (Decimal.revapp u acc) =
  NilEmpty.string_of_uint (Decimal.rev u) +:+ NilEmpty.string_of_uint acc.
Proof.
  revert acc. unfold Decimal.rev.
  induction u as [|u IH|u IH|u IH|u IH|u IH|u IH|u IH|u IH|u IH|u IH]; intros acc;
    [reflexivity|..]; cbn [Decimal.revapp];
    rewrite IH, (IH (_ Decimal.Nil)); cbn [NilEmpty.string_of_uint];
    rewrite append_assoc_string; reflexivity.
Qed.

Lemma revapp_nonnil u acc : acc <> Decimal.Nil -> Decimal.revapp u acc <> Decimal.Nil.
Proof.
  revert acc.
  induction u as [|u IH|u IH|u IH|u IH|u IH|u IH|u IH|u IH|u IH|u IH]; intros acc H;
    [exact H|..]; cbn [Decimal.revapp]; apply IH; discriminate.
Qed.

Lemma string_of_nonnil u :
  u <> Decimal.Nil -> NilZero.string_of_uint u = NilEmpty.string_of_uint u.
Proof. destruct u; [congruence|..]; reflexivity. Qed.

Lemma to_uint_rev m : N.to_uint m = Decimal.rev (DecimalPos.Unsigned.to_lu m).
Proof. destruct m; reflexivity. Qed.

Lemma to_lu_digit p k :
  (k < 10)%N ->
  exists f : Decimal.uint -> Decimal.uint,
    DecimalPos.Unsigned.to_lu (10 * N.pos p + k) = f (DecimalPos.Unsigned.to_lu (N.pos p)) /\
    (forall u, NilEmpty.string_of_uint (f Decimal.Nil) =
               String (digit_char (Z.of_N k)) "" /\ f u <> Decimal.Nil /\
               Decimal.rev (f u) = Decimal.revapp u (f Decimal.Nil)).
Proof.
  intros Hk.
  assert (Hcases : (k = 0 \/ k = 1 \/ k = 2 \/ k = 3 \/ k = 4 \/ k = 5 \/ k = 6 \/
                    k = 7 \/ k = 8 \/ k = 9)%N) by lia.
  pose proof (DecimalPos.Unsigned.to_ldec_tenfold p) as H0.
  assert (Hstep : forall m n, (m + N.succ n = N.succ (m + n))%N) by (intros; lia).
  destruct Hcases as [->|[->|[->|[->|[->|[->|[->|[->|[->| ->]]]]]]]]];
    [ exists Decimal.D0 | exists Decimal.D1 | exists Decimal.D2 | exists Decimal.D3
    | exists Decimal.D4 | exists Decimal.D5 | exists Decimal.D6 | exists Decimal.D7
    | exists Decimal.D8 | exists Decimal.D9 ];
    (split; [|intros u; repeat split; discriminate]).
  - now rewrite N.add_0_r.
  - change 1%N with (N.succ 0).
    now rewrite !Hstep, N.add_0_r, !DecimalPos.Unsigned.to_lu_succ, H0.
  - change 2%N with (N.succ (N.succ 0)).
    now rewrite !Hstep, N.add_0_r, !DecimalPos.Unsigned.to_lu_succ, H0.
  - change 3%N with (N.succ (N.succ (N.succ 0))).
    now rewrite !Hstep, N.add_0_r, !DecimalPos.Unsigned.to_lu_succ, H0.
  - change 4%N with (N.succ (N.succ (N.succ (N.succ 0)))).
    now rewrite !Hstep, N.add_0_r, !DecimalPos.Unsigned.to_lu_succ, H0.
  - change 5%N with (N.succ (N.succ (N.succ (N.succ (N.succ 0))))).
    now rewrite !Hstep, N.add_0_r, !DecimalPos.Unsigned.to_lu_succ, H0.
  - change 6%N with (N.succ (N.succ (N.succ (N.succ (N.succ (N.succ 0)))))).
    now rewrite !Hstep, N.add_0_r, !DecimalPos.Unsigned.to_lu_succ, H0.
  - change 7%N with (N.succ (N.succ (N.succ (N.succ (N.succ (N.succ (N.succ 0))))))).
    now rewrite !Hstep, N.add_0_r, !DecimalPos.Unsigned.to_lu_succ, H0.
  - change 8%N
      with (N.succ (N.succ (N.succ (N.succ (N.succ (N.succ (N.succ (N.succ 0)))))))).
    now rewrite !Hstep, N.add_0_r, !DecimalPos.Unsigned.to_lu_succ, H0.
  - change 9%N
      with (N.succ (N.succ (N.succ (N.succ (N.succ (N.succ (N.succ (N.succ (N.succ 0))))))))).
    now rewrite !Hstep, N.add_0_r, !DecimalPos.Unsigned.to_lu_succ, H0.
Qed.

(** The numeral of [10 n + d] is the numeral of [n] followed by the
    digit [d]. *)
Lemma digits_tenfold n d :
  1 <= n -> 0 <= d <= 9 ->
  digits (10 * n + d) = digits n +:+ String (digit_char d) "".
Proof.
  intros Hn Hd. unfold digits.
  replace (Z.to_N (10 * n + d)) with (10 * Z.to_N n + Z.to_N d)%N by lia.
  destruct (Z.to_N n) as [|p] eqn:Hp; [lia|].
  destruct (to_lu_digit p (Z.to_N d) ltac:(lia)) as (f & Hf & Hspec).
  rewrite (to_uint_rev (10 * N.pos p + Z.to_N d)), Hf.
  destruct (Hspec (DecimalPos.Unsigned.to_lu (N.pos p))) as (Hs & Hnn & Hrev).
  rewrite Hrev.
  rewrite string_of_nonnil by (apply revapp_nonnil; apply (Hspec Decimal.Nil)).
  rewrite string_of_revapp, Hs.
  rewrite Z2N.id by lia.
  rewrite <- (to_uint_rev (N.pos p)).
  rewrite string_of_nonnil by apply DecimalPos.Unsigned.to_uint_nonnil.
  reflexivity.
Qed.

Lemma string_of_uint_digits u : digit_string (NilEmpty.string_of_uint u) = true.
Proof. induction u; simpl; auto. Qed.

Lemma digits_digit_string n : digit_string (digits n) = true /\ digits n <> "".
Proof.
  unfold digits. destruct (N.to_uint (Z.to_N n)) eqn:E;
    try (split; [apply (string_of_uint_digits (_ _)) | discriminate]).
  split; [reflexivity | discriminate].
Qed.

Lemma three_digits_pad r : 0 <= r < 1000 -> pad_left 3 (digits r) = three_digits r.
Proof.
  intros H.
  assert (Hall : forallb (fun r => String.eqb (pad_left 3 (digits r)) (three_digits r))
                   (up_to 999) = true) by (vm_compute; reflexivity).
  rewrite forallb_forall in Hall. apply String.eqb_eq, Hall, up_to_In. lia.
Qed.

(** The numeral of [1000 q + r] is the numeral of [q] followed by the
    three digits of [r]. *)
Lemma digits_thousand q r :
  1 <= q -> 0 <= r < 1000 ->
  digits (1000 * q + r) = digits q +:+ pad_left 3 (digits r).
Proof.
  intros Hq Hr. rewrite three_digits_pad by exact Hr. unfold three_digits.
  pose proof (Z.div_mod r 100 ltac:(lia)) as E1.
  pose proof (Z.mod_pos_bound r 100 ltac:(lia)) as B1.
  pose proof (Z.div_mod r 10 ltac:(lia)) as E2.
  pose proof (Z.mod_pos_bound r 10 ltac:(lia)) as B2.
  pose proof (Z.div_mod (r / 10) 10 ltac:(lia)) as E3.
  pose proof (Z.mod_pos_bound (r / 10) 10 ltac:(lia)) as B3.
  assert (Hdd : r / 10 / 10 = r / 100) by (rewrite Z.div_div by lia; reflexivity).
  assert (Ha : 0 <= r / 100 <= 9).
  { split; [apply Z.div_pos; lia|]. assert (r / 100 < 10) by (apply Z.div_lt_upper_bound; lia). lia. }
  replace (1000 * q + r)
    with (10 * (10 * (10 * q + r / 100) + r / 10 mod 10) + r mod 10) by lia.
  rewrite digits_tenfold by lia.
  rewrite digits_tenfold by lia.
  rewrite digits_tenfold by lia.
  rewrite !append_assoc_string. reflexivity.
Qed.

(** ** Thousands separators *)

Lemma is_digit_word c : is_digit c = true -> Text.is_word c = true.
Proof. destruct c as [[] [] [] [] [] [] [] []]; try discriminate; reflexivity. Qed.

Lemma next_is_digit_digits s :
  digit_string s = true -> Text.next_is_digit s = negb (String.eqb s "").
Proof.
  destruct s as [|c s]; simpl; [reflexivity|].
  intros H. apply andb_prop in H. now destruct H as [-> _].
Qed.

(** In a string of digits, groups of three digits and nothing more lie
    ahead exactly when the number of digits is a multiple of three. *)
Lemma groups_ahead_digits s :
  digit_string s = true ->
  Text.groups_ahead s =
    ((0 <? String.length s) && (String.length s mod 3 =? 0))%nat.
Proof.
  assert (H : forall n s, (String.length s <= n)%nat -> digit_string s = true ->
            Text.groups_ahead s =
              ((0 <? String.length s) && (String.length s mod 3 =? 0))%nat).
  { induction n as [n IH] using lt_wf_ind. intros s0 Hlen Hd.
    destruct s0 as [|d1 [|d2 [|d3 t]]]; try reflexivity.
    cbn [Text.groups_ahead]. cbn [digit_string] in Hd.
    apply andb_prop in Hd. destruct Hd as [H1 Hd].
    apply andb_prop in Hd. destruct Hd as [H2 Hd].
    apply andb_prop in Hd. destruct Hd as [H3 Hd].
    rewrite H1, H2, H3. cbn [andb].
    rewrite (next_is_digit_digits t Hd).
    cbn [String.length] in Hlen |- *.
    destruct t as [|c t']; [reflexivity|].
    cbn [String.eqb negb orb].
    rewrite (IH (String.length (String c t'))) by (cbn [String.length] in *; lia || assumption).
    cbn [String.length].
    replace (S (S (S (S (String.length t'))))) with (S (String.length t') + 1 * 3)%nat by lia.
    rewrite Nat.Div0.mod_add. reflexivity. }
  intros Hd. now apply (H (String.length s)).
Qed.

(** What precedes the string matters to [\B] only as a word character or
    not. *)
Lemma insert_commas_before b1 b2 s :
  Text.word_at b1 = Text.word_at b2 -> Text.insert_commas b1 s = Text.insert_commas b2 s.
Proof.
  intros H. destruct s as [|c s]; [reflexivity|].
  cbn [Text.insert_commas]. unfold Text.non_boundary. now rewrite H.
Qed.

Lemma insert_commas_three b t :
  Text.word_at b = true -> digit_string t = true -> String.length t = 3%nat ->
  Text.insert_commas b t = String "," t.
Proof.
  intros Hb Hd Hlen.
  destruct t as [|d1 [|d2 [|d3 [|d4 t]]]]; try discriminate.
  cbn [digit_string] in Hd.
  apply andb_prop in Hd. destruct Hd as [H1 Hd].
  apply andb_prop in Hd. destruct Hd as [H2 Hd].
  apply andb_prop in Hd. destruct Hd as [H3 _].
  cbn [Text.insert_commas Text.groups_ahead Text.next_is_digit].
  unfold Text.non_boundary. cbn [Text.word_at].
  rewrite Hb, H1, H2, H3, (is_digit_word d1 H1), (is_digit_word d2 H2), (is_digit_word d3 H3).
  reflexivity.
Qed.

Lemma length_append_digits (s t : string) :
  String.length (s +:+ t) = (String.length s + String.length t)%nat.
Proof.
  induction s as [|c s IH]; [reflexivity|].
  change (String c s +:+ t) with (String c (s +:+ t)). cbn [String.length]. now rewrite IH.
Qed.

Lemma digit_string_append s t :
  digit_string (s +:+ t) = digit_string s && digit_string t.
Proof.
  induction s as [|c s IH]; [reflexivity|].
  change (String c s +:+ t) with (String c (s +:+ t)). cbn [digit_string].
  now rewrite IH, andb_assoc.
Qed.

(** Three more digits at the end leave the commas where they are and add
    one before the new digits. *)
Lemma insert_commas_append s :
  forall b t,
    s <> "" -> digit_string s = true -> digit_string t = true -> String.length t = 3%nat ->
    Text.insert_commas b (s +:+ t) = Text.insert_commas b s +:+ String "," t.
Proof.
  induction s as [|c s IH]; intros b t Hne Hs Ht Hlen; [congruence|].
  change (String c s +:+ t) with (String c (s +:+ t)).
  cbn [Text.insert_commas].
  assert (Hg : Text.groups_ahead (String c (s +:+ t)) = Text.groups_ahead (String c s)).
  { rewrite (groups_ahead_digits (String c s) Hs).
    rewrite (groups_ahead_digits (String c (s +:+ t))).
    - cbn [String.length]. rewrite length_append_digits, Hlen.
      replace (S (String.length s + 3)) with (S (String.length s) + 1 * 3)%nat by lia.
      rewrite Nat.Div0.mod_add. reflexivity.
    - change (String c (s +:+ t)) with (String c s +:+ t).
      now rewrite digit_string_append, Hs, Ht. }
  rewrite Hg.
  cbn [digit_string] in Hs. apply andb_prop in Hs. destruct Hs as [Hc Hs].
  assert (Hrest : Text.insert_commas (Some c) (s +:+ t) =
                  Text.insert_commas (Some c) s +:+ String "," t).
  { destruct s as [|c' s'].
    - change ("" +:+ t) with t. apply insert_commas_three; auto.
      now apply is_digit_word.
    - apply IH; auto; discriminate. }
  rewrite Hrest.
  destruct (Text.non_boundary b (Some c) && Text.groups_ahead (String c s)); reflexivity.
Qed.

(** X28: [formatNumber] puts a comma before every group of three digits,
    counted from the right, of a safe integer: a number below
    1000 is printed as it is, [1000 q + r] as [q] formatted, a comma and
    the three digits of [r]; and a negative integer as the minus sign
    and its magnitude formatted. *)
Theorem formatNumber_thousands :
  (forall n, 0 <= n < 1000 -> Text.formatNumber n = digits n) /\
  (forall q r, 1 <= q -> 0 <= r < 1000 -> 1000 * q + r < 2 ^ 53 ->
     Text.formatNumber (1000 * q + r) =
       Text.formatNumber q +:+ "," +:+ pad_left 3 (digits r)) /\
  (forall n, 0 < n < 2 ^ 53 -> Text.formatNumber (- n) = "-" +:+ Text.formatNumber n).
Proof.
  split; [|split].
  - intros n H.
    assert (Hall : forallb (fun n => String.eqb (Text.formatNumber n) (digits n))
                     (up_to 999) = true) by (vm_compute; reflexivity).
    rewrite forallb_forall in Hall. apply String.eqb_eq, Hall, up_to_In. lia.
  - intros q r Hq Hr _. unfold Text.formatNumber, Text.integer_toString.
    destruct (Z.ltb_spec (1000 * q + r) 0); [lia|].
    destruct (Z.ltb_spec q 0); [lia|].
    rewrite digits_thousand by assumption.
    destruct (digits_digit_string q) as [Hd Hne].
    apply insert_commas_append; auto.
    + rewrite three_digits_pad by exact Hr. unfold three_digits, digit_char.
      assert (Hall : forallb (fun r => digit_string (three_digits r)) (up_to 999) = true)
        by (vm_compute; reflexivity).
      rewrite forallb_forall in Hall. apply (Hall r), up_to_In. lia.
    + rewrite three_digits_pad by exact Hr. reflexivity.
  - intros n Hn. unfold Text.formatNumber, Text.integer_toString.
    destruct (Z.ltb_spec (- n) 0); [|lia].
    destruct (Z.ltb_spec n 0); [lia|].
    rewrite Z.opp_involutive.
    change ("-" +:+ digits n) with (String "-" (digits n)).
    cbn [Text.insert_commas Text.groups_ahead].
    destruct (digits n) as [|d1 [|d2 t]]; cbn [Number.is_digit];
      try (rewrite andb_false_r);
      (rewrite (insert_commas_before (Some "-"%char) None); [reflexivity | reflexivity]).
Qed.

Lemma formatNumber_thousands_witness :
  Text.formatNumber 1234567 = "1,234,567" /\
  Text.formatNumber 1234567 = Text.formatNumber 1234 +:+ "," +:+ pad_left 3 (digits 567) /\
  Text.formatNumber (- 1234) = "-1,234".
Proof.
  destruct formatNumber_thousands as (_ & H & Hneg).
  split; [reflexivity|]. split.
  - apply (H 1234 567); [lia | lia | reflexivity].
  - change (-1234) with (Z.opp 1234). rewrite (Hneg 1234) by (split; reflexivity). reflexivity.
Defined.

(** ** Debounced calls *)

Lemma calls_of_app {A} (l1 l2 : list (Debounce.event A)) :
  calls_of (l1 ++ l2)%list = (calls_of l1 ++ calls_of l2)%list.
Proof.
  induction l1 as [|[now args|now id] l1 IH]; simpl; [reflexivity| |]; now rewrite IH.
Qed.

Lemma clearTimeout_own {A} id (tm : Z * A) :
  Debounce.clearTimeout (Some id) [(id, tm)] = [].
Proof. simpl. now rewrite Nat.eqb_refl. Qed.

(** After a call exactly one timer is set, for its arguments. *)
Lemma executedFunction_timer {A} wait events (d : Debounce.t A) now args :
  one_timer wait events d ->
  Debounce.timers (Debounce.executedFunction wait now args d) =
    [(Debounce.next_id d, (now + wait, args))].
Proof.
  intros [H|(id & t0 & a0 & H & Ht & _)]; unfold Debounce.executedFunction; cbn; rewrite H.
  - now destruct (Debounce.timeout d).
  - rewrite Ht, clearTimeout_own. reflexivity.
Qed.

(** A timer that fires calls [func] with the arguments of the latest
    call, and leaves no timer. *)
Lemma later_call {A} wait events (d : Debounce.t A) now id :
  one_timer wait events d ->
  Debounce.later now id d = d \/
  exists t0 args,
    last (calls_of events) = Some (t0, args) /\ t0 + wait <= now /\
    Debounce.timers d = [(id, (t0 + wait, args))] /\
    Debounce.calls (Debounce.later now id d) = (Debounce.calls d ++ [(now, args)])%list /\
    Debounce.timers (Debounce.later now id d) = [] /\
    Debounce.timeout (Debounce.later now id d) = Debounce.timeout d /\
    Debounce.next_id (Debounce.later now id d) = Debounce.next_id d.
Proof.
  intros [H|(id0 & t0 & a0 & H & Ht & Hlast)]; unfold Debounce.later, Debounce.find_timer;
    rewrite H; cbn.
  - now left.
  - destruct (Nat.eqb_spec id0 id) as [->|Hne]; cbn; [|now left].
    destruct (Z.leb_spec (t0 + wait) now); [|now left].
    right. exists t0, a0. cbn. rewrite Ht. cbn.
    repeat split; auto.
Qed.

Lemma run_snoc {A} wait (events : list (Debounce.event A)) e :
  Debounce.run wait (events ++ [e]) = Debounce.step wait (Debounce.run wait events) e.
Proof. unfold Debounce.run. now rewrite fold_left_app. Qed.

Lemma run_one_timer {A} wait (events : list (Debounce.event A)) :
  one_timer wait events (Debounce.run wait events) /\
  (length (Debounce.calls (Debounce.run wait events)) +
   length (Debounce.timers (Debounce.run wait events)) <= length (calls_of events))%nat.
Proof.
  induction events as [|e events IH] using rev_ind.
  - split; [now left | simpl; lia].
  - destruct IH as [IH Hlen]. rewrite run_snoc. unfold one_timer at 1. rewrite !calls_of_app.
    destruct e as [now args|now id]; cbn [Debounce.step calls_of].
    + split.
      * right. exists (Debounce.next_id (Debounce.run wait events)), now, args.
        split; [now apply (executedFunction_timer wait events)|].
        split; [reflexivity|]. now rewrite last_snoc.
      * rewrite (executedFunction_timer wait events) by exact IH.
        rewrite length_app. cbn. lia.
    + rewrite app_nil_r.
      destruct (later_call wait events _ now id IH)
        as [->|(t0 & a & _ & _ & Ht & Hc & Ht' & _)].
      * split; [exact IH | exact Hlen].
      * split; [left; exact Ht'|].
        rewrite Hc, Ht', length_app. rewrite Ht in Hlen. cbn in *. lia.
Qed.

(** X29: However the debounced function is called and whenever its timers
    fire: at most one timer is set, for the arguments of the latest call
    and due [wait] milliseconds after it; a call replaces it by its own;
    and [func] is called only when that timer fires, with the arguments
    of the latest call, not before [wait] milliseconds have passed since
    it, so that [func] is not called more often than the function. *)
Theorem debounce_latest_call {A} wait (events : list (Debounce.event A)) :
  let d := Debounce.run wait events in
  one_timer wait events d /\
  (length (Debounce.calls d) <= length (calls_of events))%nat /\
  (forall now args,
     Debounce.timers (Debounce.executedFunction wait now args d) =
       [(Debounce.next_id d, (now + wait, args))] /\
     Debounce.calls (Debounce.executedFunction wait now args d) = Debounce.calls d) /\
  (forall now id,
     Debounce.later now id d = d \/
     exists t0 args,
       last (calls_of events) = Some (t0, args) /\ t0 + wait <= now /\
       Debounce.calls (Debounce.later now id d) = (Debounce.calls d ++ [(now, args)])%list /\
       Debounce.timers (Debounce.later now id d) = []).
Proof.
  intros d. destruct (run_one_timer wait events) as [H Hlen]. fold d in H, Hlen.
  split; [exact H|]. split; [lia|]. split.
  - intros now args. split; [now apply (executedFunction_timer wait events) | reflexivity].
  - intros now id.
    destruct (later_call wait events d now id H) as [E|(t0 & a & H1 & H2 & _ & H3 & H4 & _)];
      [now left | right]. exists t0, a. auto.
Qed.

Lemma run_burst_calls {A} wait (events : list (Debounce.event A)) burst :
  Debounce.calls (Debounce.run wait (events ++ burst_events burst)) =
  Debounce.calls (Debounce.run wait events).
Proof.
  induction burst as [|c burst IH] using rev_ind.
  - unfold burst_events. cbn. now rewrite app_nil_r.
  - unfold burst_events in *. rewrite map_app, app_assoc. cbn [map].
    rewrite run_snoc. cbn. exact IH.
Qed.

(** X30: Calls that follow one another before any timer fires lead to one call
    of [func]: when the timer of the last of them fires, [wait]
    milliseconds after it or later, [func] is called with its arguments,
    and with no others. *)
Theorem debounce_burst {A} wait (events : list (Debounce.event A)) burst t args :
  last burst = Some (t, args) ->
  let d := Debounce.run wait (events ++ burst_events burst) in
  Debounce.calls d = Debounce.calls (Debounce.run wait events) /\
  Debounce.timers d = [(pred (Debounce.next_id d), (t + wait, args))] /\
  (forall now, t + wait <= now ->
     Debounce.calls (Debounce.later now (pred (Debounce.next_id d)) d) =
       (Debounce.calls (Debounce.run wait events) ++ [(now, args)])%list /\
     Debounce.timers (Debounce.later now (pred (Debounce.next_id d)) d) = []) /\
  (forall now id, now < t + wait -> Debounce.later now id d = d).
Proof.
  intros Hlast d.
  assert (Hc : Debounce.calls d = Debounce.calls (Debounce.run wait events))
    by apply run_burst_calls.
  destruct burst as [|c burst] using rev_ind; [discriminate|]. clear IHburst.
  rewrite last_snoc in Hlast. injection Hlast as ->.
  assert (Hd : d = Debounce.executedFunction wait t args
                     (Debounce.run wait (events ++ burst_events burst))).
  { unfold d, burst_events. rewrite map_app, app_assoc. cbn [map]. now rewrite run_snoc. }
  assert (Ht : Debounce.timers d = [(pred (Debounce.next_id d), (t + wait, args))]).
  { rewrite Hd.
    rewrite (executedFunction_timer wait (events ++ burst_events burst))
      by apply run_one_timer. reflexivity. }
  clearbody d.
  split; [exact Hc|]. split; [exact Ht|]. split.
  - intros now Hnow. unfold Debounce.later, Debounce.find_timer. rewrite Ht. cbn.
    destruct (Nat.eqb_spec (pred (Debounce.next_id d)) (pred (Debounce.next_id d)))
      as [_|Hne]; [|congruence]. cbn.
    destruct (Z.leb_spec (t + wait) now); [|lia]. cbn. rewrite Hc.
    split; [reflexivity|]. now destruct (Debounce.timeout d).
  - intros now id Hnow. unfold Debounce.later, Debounce.find_timer. rewrite Ht. cbn.
    destruct (Nat.eqb_spec (pred (Debounce.next_id d)) id); cbn; [|reflexivity].
    destruct (Z.leb_spec (t + wait) now); [lia | reflexivity].
Qed.

(** Three keystrokes 100 milliseconds apart and a wait of 300. *)
Lemma debounce_burst_witness :
  Debounce.calls
    (Debounce.later 500 2
       (Debounce.run 300
          [Debounce.Call 0 "l"; Debounce.Call 100 "la"; Debounce.Call 200 "lak"])) =
  [(500, "lak")].
Proof.
  destruct (debounce_burst 300 [] [(0, "l"); (100, "la"); (200, "lak")] 200 "lak" eq_refl)
    as (_ & _ & H & _).
  destruct (H 500 ltac:(lia)) as [Hc _]. exact Hc.
Defined.
